(** * Orchestration engine (scripts/04_orchestration_engine.py)

    A shallow embedding of [TaskExecutionEngine]: dependency-graph
    validation, Kahn ordering, the retry loop and the pipeline scheduler,
    together with the properties of the engine's specification.

    Conventions of the embedding
    - a Python [dict] whose iteration order is observable (the [tasks]
      argument) is an association list in insertion order, with distinct
      keys; the other dictionaries and the sets are [gmap]/[gset];
    - iteration over the Python [set] [all_tasks] has no fixed order (string
      hashing is randomised per process): the order is an explicit argument,
      constrained to be a permutation of the keys;
    - Python integers are [Z];
    - the external collaborators (executors, clock, sleep, the Spark session
      behind the skip predicate) act on an abstract world [W]; the calls made
      to the audit logger and to [time.sleep] are recorded in a trace;
    - loops whose termination is not structural carry fuel and return
      [None] when it runs out; each entry point supplies its own fuel and is
      proved to return. *)

From stdpp Require Import gmap strings list fin_maps sets relations pretty.
From Stdlib Require Import ZArith Lia.

Open Scope Z_scope.

(** ** Data model *)

(** A task configuration, i.e. the inner dictionary of [tasks].  Every field
    is read with [dict.get], so an absent key is [None] (or the empty list
    for [depends_on], whose default is [[]]). *)
Record task_config := TaskConfig {
  task_type : option string;
  depends_on : list string;
  critical : option bool;
  max_retries : option Z;
  skip_on_condition : option string;
}.

(** [tasks: Dict[str, Dict]] in insertion order. *)
Abbreviation task_set := (list (string * task_config)).

Definition task_names (tasks : task_set) : list string := tasks.*1.

(** [tasks.get(name)] *)
Fixpoint tasks_get (tasks : task_set) (name : string) : option task_config :=
  match tasks with
  | [] => None
  | (n, cfg) :: rest => if decide (n = name) then Some cfg else tasks_get rest name
  end.

(** [tasks.get(task, {}).get('depends_on', [])] *)
Definition deps_of (tasks : task_set) (task : string) : list string :=
  match tasks_get tasks task with
  | Some cfg => depends_on cfg
  | None => []
  end.

(** Result of a call that may raise. *)
Inductive res (E A : Type) : Type :=
| Ret (a : A)
| Raise (e : E).
Arguments Ret {E A} a.
Arguments Raise {E A} e.

(** [TaskDependencyError], with the data its message is built from. *)
Inductive graph_error : Type :=
| Circular (task : string)
| NonExistent (task dep : string).

Definition graph_error_message (e : graph_error) : string :=
  match e with
  | Circular task => "Circular dependency detected involving " +:+ task
  | NonExistent task dep =>
      "Task " +:+ task +:+ " depends on non-existent task " +:+ dep
  end.

(** ** validate_dependency_graph *)

(** The pair [(visited, rec_stack)] shared by all the calls of [has_cycle]. *)
Abbreviation dfs_state := (gset string * gset string)%type.

(** The [for dep in depends_on] loop of [has_cycle]; [call] is the recursive
    call. *)
Fixpoint for_deps (call : string → dfs_state → option (bool * dfs_state))
    (deps : list string) (st : dfs_state) : option (bool * dfs_state) :=
  match deps with
  | [] => Some (false, st)
  | dep :: rest =>
      if decide (dep ∉ st.1) then
        match call dep st with
        | None => None
        | Some (true, st') => Some (true, st')
        | Some (false, st') => for_deps call rest st'
        end
      else if decide (dep ∈ st.2) then Some (true, st)
      else for_deps call rest st
  end.

(** The nested function [has_cycle].  [rec_stack.remove(task)] cannot raise
    [KeyError]: see [has_cycle_spec], the stack on return from the loop is
    the one the loop was entered with, which holds [task]. *)
Fixpoint has_cycle (fuel : nat) (tasks : task_set) (task : string)
    (st : dfs_state) : option (bool * dfs_state) :=
  match fuel with
  | O => None
  | S fuel' =>
      let st1 : dfs_state := ({[task]} ∪ st.1, {[task]} ∪ st.2) in
      match for_deps (has_cycle fuel' tasks) (deps_of tasks task) st1 with
      | None => None
      | Some (true, st') => Some (true, st')
      | Some (false, st') => Some (false, (st'.1, st'.2 ∖ {[task]}))
      end
  end.

(** Every name the traversal can meet: the keys and all declared
    dependencies. *)
Definition graph_nodes (tasks : task_set) : list string :=
  task_names tasks ++ (tasks ≫= λ kv, depends_on kv.2).

(** [for task in all_tasks: if task not in visited: if has_cycle(...): raise] *)
Fixpoint check_cycles (fuel : nat) (tasks : task_set) (order : list string)
    (st : dfs_state) : option (res graph_error dfs_state) :=
  match order with
  | [] => Some (Ret st)
  | task :: rest =>
      if decide (task ∉ st.1) then
        match has_cycle fuel tasks task st with
        | None => None
        | Some (true, _) => Some (Raise (Circular task))
        | Some (false, st') => check_cycles fuel tasks rest st'
        end
      else check_cycles fuel tasks rest st
  end.

(** [for dep in config.get('depends_on', []): if dep not in all_tasks: raise] *)
Fixpoint check_deps_exist (all_tasks : gset string) (task : string)
    (deps : list string) : option graph_error :=
  match deps with
  | [] => None
  | dep :: rest =>
      if decide (dep ∉ all_tasks) then Some (NonExistent task dep)
      else check_deps_exist all_tasks task rest
  end.

(** [for task, config in tasks.items(): ...] *)
Fixpoint check_missing (all_tasks : gset string) (items : task_set)
    : option graph_error :=
  match items with
  | [] => None
  | (task, cfg) :: rest =>
      match check_deps_exist all_tasks task (depends_on cfg) with
      | Some e => Some e
      | None => check_missing all_tasks rest
      end
  end.

(** [validate_dependency_graph].  [order] is the order in which the set
    [all_tasks] is iterated. *)
Definition validate_dependency_graph (order : list string) (tasks : task_set)
    : option (res graph_error bool) :=
  let all_tasks : gset string := list_to_set (task_names tasks) in
  match check_cycles (S (length (graph_nodes tasks))) tasks order (∅, ∅) with
  | None => None
  | Some (Raise e) => Some (Raise e)
  | Some (Ret _) =>
      match check_missing all_tasks tasks with
      | Some e => Some (Raise e)
      | None => Some (Ret true)
      end
  end.

(** ** The dependency relation *)

(** [edge tasks a b]: plain_task [a] declares a dependency on [b]. *)
Definition edge (tasks : task_set) (a b : string) : Prop := b ∈ deps_of tasks a.

(** A cycle through [c]. *)
Definition on_cycle (tasks : task_set) (c : string) : Prop := tc (edge tasks) c c.

Definition has_cycle_graph (tasks : task_set) : Prop := ∃ c, on_cycle tasks c.

Definition acyclic (tasks : task_set) : Prop := ∀ c, ¬ on_cycle tasks c.

(** All declared dependencies name tasks of the set. *)
Definition deps_closed (tasks : task_set) : Prop :=
  ∀ a b, edge tasks a b → b ∈ task_names tasks.

Definition wf_tasks (tasks : task_set) : Prop := NoDup (task_names tasks).

(** ** topological_sort *)

(** Exceptions that can leave the engine's methods.  [KeyError] is what a
    subscript [d[k]] on a dictionary without [k] raises. *)
Inductive exn : Type :=
| TaskDependencyError (e : graph_error)
| KeyError (key : string)
| CriticalTaskFailure (msg : string).

(** The dictionaries [in_degree] and [adjacency]. *)
Abbreviation graph_tables := (gmap string Z * gmap string (list string))%type.

(** [{task: 0 for task in tasks}], [{task: [] for task in tasks}] *)
Definition init_tables (tasks : task_set) : graph_tables :=
  (list_to_map ((λ n, (n, 0)) <$> task_names tasks),
   list_to_map ((λ n, (n, [])) <$> task_names tasks)).

(** [for dep in config.get('depends_on', []):
       adjacency[dep].append(task); in_degree[task] += 1] *)
Fixpoint add_edges (task : string) (deps : list string) (g : graph_tables)
    : res exn graph_tables :=
  match deps with
  | [] => Ret g
  | dep :: rest =>
      match g.2 !! dep with
      | None => Raise (KeyError dep)
      | Some l =>
          match g.1 !! task with
          | None => Raise (KeyError task)
          | Some d => add_edges task rest (<[task := d + 1]> g.1, <[dep := l ++ [task]]> g.2)
          end
      end
  end.

(** [for task, config in tasks.items(): ...] *)
Fixpoint build_graph (items : task_set) (g : graph_tables) : res exn graph_tables :=
  match items with
  | [] => Ret g
  | (task, cfg) :: rest =>
      match add_edges task (depends_on cfg) g with
      | Raise e => Raise e
      | Ret g' => build_graph rest g'
      end
  end.

(** [in_degree[task]] for a key known to the comprehension: the
    comprehension iterates the keys of [in_degree] itself. *)
Definition initial_queue (tasks : task_set) (in_degree : gmap string Z) : list string :=
  filter (λ task, in_degree !! task = Some 0) (task_names tasks).

(** [for neighbor in adjacency[task]:
       in_degree[neighbor] -= 1
       if in_degree[neighbor] == 0: queue.append(neighbor)] *)
Fixpoint relax (neighbors : list string) (in_degree : gmap string Z)
    (queue : list string) : res exn (gmap string Z * list string) :=
  match neighbors with
  | [] => Ret (in_degree, queue)
  | neighbor :: rest =>
      match in_degree !! neighbor with
      | None => Raise (KeyError neighbor)
      | Some d =>
          relax rest (<[neighbor := d - 1]> in_degree)
            (if decide (d - 1 = 0) then queue ++ [neighbor] else queue)
      end
  end.

(** [while queue: task = queue.pop(0); result.append(task); ...] *)
Fixpoint kahn_loop (fuel : nat) (adjacency : gmap string (list string))
    (in_degree : gmap string Z) (queue result : list string)
    : option (res exn (list string)) :=
  match fuel with
  | O => None
  | S fuel' =>
      match queue with
      | [] => Some (Ret result)
      | task :: queue' =>
          match adjacency !! task with
          | None => Some (Raise (KeyError task))
          | Some neighbors =>
              match relax neighbors in_degree queue' with
              | Raise e => Some (Raise e)
              | Ret (in_degree', queue'') =>
                  kahn_loop fuel' adjacency in_degree' queue'' (result ++ [task])
              end
          end
      end
  end.

(** [for idx, task in enumerate(result, 1): self.execution_order[task] = idx] *)
Fixpoint record_order (idx : Z) (result : list string)
    (execution_order : gmap string Z) : gmap string Z :=
  match result with
  | [] => execution_order
  | task :: rest => record_order (idx + 1) rest (<[task := idx]> execution_order)
  end.

(** ** Values exchanged with the collaborators *)

(** Values found in the dictionaries returned by executors and in the rows
    of a query result. *)
Inductive pyval : Type :=
| PyInt (z : Z)
| PyStr (s : string).

(** [v == 0] *)
Definition pyval_is_zero (v : pyval) : bool :=
  match v with
  | PyInt z => bool_decide (z = 0)
  | PyStr _ => false
  end.

(** A caught exception [e]: [type(e).__name__], [str(e)] and the text of
    [traceback.format_exc()]. *)
Record py_exception := PyException {
  exc_type : string;
  exc_message : string;
  exc_traceback : string;
}.

(** The dictionaries stored in [task_results]. *)
Inductive task_result : Type :=
| TaskSuccess (attempt duration : Z) (result : gmap string pyval)
    (* {"status": "SUCCESS", "attempt", "duration", "result"} *)
| TaskFailed (attempt : Z) (error_type error_message stack_trace : string)
    (* {"status": "FAILED", "attempt", "error_type", "error_message", "stack_trace"} *)
| TaskFailedAfter (error : option py_exception) (attempts : Z)
    (* {"status": "FAILED", "error": last_error,
        "message": "Task failed after <attempts> attempts"} *)
| TaskSkipped.
    (* {"status": "SKIPPED"} *)

(** [result.get('status')] *)
Definition result_status (r : task_result) : string :=
  match r with
  | TaskSuccess _ _ _ => "SUCCESS"
  | TaskFailed _ _ _ _ => "FAILED"
  | TaskFailedAfter _ _ => "FAILED"
  | TaskSkipped => "SKIPPED"
  end.

(** The instance attributes of [TaskExecutionEngine] set up by [__init__]
    ([spark], [audit_logger], [config] and [quality_validator] are the
    collaborators). *)
Record engine := Engine {
  execution_order : gmap string Z;
  task_results : gmap string task_result;
  task_metadata : gmap string task_config;
  execution_times : gmap string Z;
}.

(** [TaskExecutionEngine.__init__] *)
Definition new_engine : engine :=
  {| execution_order := ∅; task_results := ∅; task_metadata := ∅;
     execution_times := ∅ |}.

(** Updates of the engine's dictionaries. *)
Definition set_execution_order (eng : engine) (o : gmap string Z) : engine :=
  {| execution_order := o; task_results := task_results eng;
     task_metadata := task_metadata eng; execution_times := execution_times eng |}.

Definition set_task_result (eng : engine) (task_name : string) (r : task_result)
    : engine :=
  {| execution_order := execution_order eng;
     task_results := <[task_name := r]> (task_results eng);
     task_metadata := task_metadata eng; execution_times := execution_times eng |}.

Definition set_execution_time (eng : engine) (task_name : string) (d : Z) : engine :=
  {| execution_order := execution_order eng; task_results := task_results eng;
     task_metadata := task_metadata eng;
     execution_times := <[task_name := d]> (execution_times eng) |}.

(** The part of [topological_sort] after validation: the tables, then
    Kahn's algorithm. *)
Definition kahn_order (tasks : task_set) : option (res exn (list string)) :=
  match build_graph tasks (init_tables tasks) with
  | Raise e => Some (Raise e)
  | Ret (in_degree, adjacency) =>
      kahn_loop (S (length tasks)) adjacency in_degree
        (initial_queue tasks in_degree) []
  end.

(** [topological_sort].  The engine is returned with the recorded
    [execution_order]; it is unchanged when an exception is raised. *)
Definition topological_sort (order : list string) (tasks : task_set)
    (eng : engine) : option (res exn (list string) * engine) :=
  match validate_dependency_graph order tasks with
  | None => None
  | Some (Raise e) => Some (Raise (TaskDependencyError e), eng)
  | Some (Ret _) =>
      match kahn_order tasks with
      | None => None
      | Some (Raise e) => Some (Raise e, eng)
      | Some (Ret result) =>
          Some (Ret result,
                set_execution_order eng
                  (record_order 1 result (execution_order eng)))
      end
  end.

(** Calls observed on the collaborators, in the order they are made: the
    methods of the audit logger with their arguments, [time.sleep], and the
    invocation of a task's executor. *)
Inductive event : Type :=
| LogTaskStart (task_name task_type : string) (execution_order attempt : Z)
| LogTaskSuccess (task_name : string) (rows_processed : pyval)
| LogTaskFailure (task_name : string) (error : py_exception) (stack_trace : string)
| LogTaskSkip (task_name reason : string)
| EndRun (overall_status : string) (successful failed skipped : Z)
    (error_summary : string)
| Sleep (seconds : Z)
| Invoke (task_name : string).

(** [summary], the dictionary built by [execute_pipeline]. *)
Record summary := Summary {
  total_tasks : Z;
  successful_tasks : Z;
  failed_tasks : Z;
  skipped_tasks : Z;
  summary_task_results : gmap string task_result;
  failed_tasks_list : list string;
}.

(** The two shapes of the tuple returned by [execute_pipeline]. *)
Inductive pipeline_return : Type :=
| DependencyFailure (error : string)            (* (False, {"error": str(e)}) *)
| Completed (overall_success : bool) (s : summary).  (* (overall_success, summary) *)

(** Updates of [summary]. *)
(** [summary["skipped_tasks"] += 1] *)
Definition count_skipped (s : summary) : summary :=
  {| total_tasks := total_tasks s; successful_tasks := successful_tasks s;
     failed_tasks := failed_tasks s; skipped_tasks := skipped_tasks s + 1;
     summary_task_results := summary_task_results s;
     failed_tasks_list := failed_tasks_list s |}.

(** [summary["successful_tasks"] += 1] *)
Definition count_successful (s : summary) : summary :=
  {| total_tasks := total_tasks s; successful_tasks := successful_tasks s + 1;
     failed_tasks := failed_tasks s; skipped_tasks := skipped_tasks s;
     summary_task_results := summary_task_results s;
     failed_tasks_list := failed_tasks_list s |}.

(** [summary["failed_tasks"] += 1; summary["failed_tasks_list"].append(task_name)] *)
Definition count_failed (s : summary) (task_name : string) : summary :=
  {| total_tasks := total_tasks s; successful_tasks := successful_tasks s;
     failed_tasks := failed_tasks s + 1; skipped_tasks := skipped_tasks s;
     summary_task_results := summary_task_results s;
     failed_tasks_list := failed_tasks_list s ++ [task_name] |}.

(** [summary["task_results"][task_name] = result] *)
Definition record_result (s : summary) (task_name : string) (r : task_result)
    : summary :=
  {| total_tasks := total_tasks s; successful_tasks := successful_tasks s;
     failed_tasks := failed_tasks s; skipped_tasks := skipped_tasks s;
     summary_task_results := <[task_name := r]> (summary_task_results s);
     failed_tasks_list := failed_tasks_list s |}.

(** The summary at the start of the loop of [execute_pipeline]. *)
Definition initial_summary (execution_plan : list string) : summary :=
  {| total_tasks := Z.of_nat (length execution_plan); successful_tasks := 0;
     failed_tasks := 0; skipped_tasks := 0; summary_task_results := ∅;
     failed_tasks_list := [] |}.

(** [f"Failed tasks: {', '.join(...)}" if summary['failed_tasks_list'] else ""] *)
Definition error_summary_of (failed : list string) : string :=
  match failed with
  | [] => ""
  | _ => "Failed tasks: " +:+ String.concat ", " failed
  end.

(** [self.task_results.get(dep, {}).get('status') != 'SUCCESS'] for no [dep]
    of the list (the loop stops at the first one, which only changes what is
    printed). *)
Definition dependencies_succeeded (eng : engine) (deps : list string) : bool :=
  forallb (λ dep, bool_decide (result_status <$> task_results eng !! dep = Some "SUCCESS"))
    deps.

(** ** The scheduler, over an abstract world *)

Section Scheduler.

(** State of everything outside the engine. *)
Context {W : Type}.
(** [spark.sql(<watermark query>).collect()]: the rows, or an exception. *)
Context (watermark_query : W → res py_exception (list (gmap string pyval))).
(** [time.time()], in clock ticks. *)
Context (clock : W → Z).
(** Effect of [time.sleep(seconds)]. *)
Context (sleep : Z → W → W).

(** A task's callable: it returns a dictionary or raises. The audit
    logger's methods are taken to return normally. *)
Definition executor : Type := W → res py_exception (gmap string pyval) * W.

(** [should_skip_task] *)
Definition should_skip_task (w : W) (task_name : string)
    (skip_condition : option string) : bool :=
  match skip_condition with
  | None => false
  | Some c =>
      if decide (c = "") then false
      else if decide (c = "if_no_new_files") then
        match watermark_query w with
        | Raise _ => false
        | Ret [] => false                       (* IndexError, swallowed *)
        | Ret (row :: _) =>
            match row !! "new_files" with
            | None => false                     (* KeyError, swallowed *)
            | Some v => pyval_is_zero v
            end
        end
      else false
  end.

(** The [while attempt <= max_retries] loop of
    [execute_task_with_retries]. *)
Fixpoint retry_loop (fuel : nat) (task_name : string) (cfg : task_config)
    (exec : executor) (max_retries attempt : Z)
    (last_error : option py_exception) (eng : engine) (w : W)
    (tr : list event)
    : option (bool * task_result * engine * W * list event) :=
  match fuel with
  | O => None
  | S fuel' =>
      if decide (attempt ≤ max_retries) then
        let attempt := attempt + 1 in
        let tr := tr ++ [LogTaskStart task_name (default "unknown" (task_type cfg))
                           (default 0 (execution_order eng !! task_name)) attempt;
                         Invoke task_name] in
        let start_time := clock w in
        match exec w with
        | (Ret result, w) =>
            let duration := clock w - start_time in
            let rows_processed := default (PyInt 0) (result !! "rows_processed") in
            Some (true, TaskSuccess attempt duration result,
                  set_execution_time eng task_name duration, w,
                  tr ++ [LogTaskSuccess task_name rows_processed])
        | (Raise e, w) =>
            if decide (attempt < max_retries + 1) then
              let wait_seconds := 2 ^ (attempt - 1) in
              retry_loop fuel' task_name cfg exec max_retries attempt (Some e)
                eng (sleep wait_seconds w) (tr ++ [Sleep wait_seconds])
            else
              Some (false,
                    TaskFailed attempt (exc_type e) (exc_message e) (exc_traceback e),
                    eng, w, tr ++ [LogTaskFailure task_name e (exc_traceback e)])
        end
      else
        Some (false, TaskFailedAfter last_error (max_retries + 1), eng, w, tr)
  end.

(** [execute_task_with_retries] *)
Definition execute_task_with_retries (task_name : string) (cfg : task_config)
    (exec : executor) (max_retries : Z) (eng : engine) (w : W)
    (tr : list event)
    : option (bool * task_result * engine * W * list event) :=
  retry_loop (S (Z.to_nat (max_retries + 1))) task_name cfg exec max_retries 0
    None eng w tr.

(** What the loop of [execute_pipeline] works on: the engine, the local
    [summary], the world and the trace. *)
Record run_state := RunState {
  rs_engine : engine;
  rs_summary : summary;
  rs_world : W;
  rs_trace : list event;
}.

(** Outcome of one iteration: go on with the next task, or an exception
    leaves the loop (the state is the one at the [raise]). *)
Inductive step : Type :=
| Continue (st : run_state)
| Raised (e : exn) (st : run_state).

(** The part of the loop body after the skip check: the dependency check
    and the execution with retries. *)
Definition check_and_execute (executors : gmap string executor)
    (task_name : string) (cfg : task_config) (st : run_state) : option step :=
  if negb (dependencies_succeeded (rs_engine st) (depends_on cfg)) then
    if default true (critical cfg) then
      Some (Raised
        (CriticalTaskFailure
           ("Critical task " +:+ task_name +:+ " blocked by failed dependency"))
        {| rs_engine := rs_engine st;
           rs_summary := count_failed (rs_summary st) task_name;
           rs_world := rs_world st; rs_trace := rs_trace st |})
    else
      Some (Continue
        {| rs_engine := rs_engine st;
           rs_summary := count_skipped (rs_summary st);
           rs_world := rs_world st;
           rs_trace := rs_trace st ++ [LogTaskSkip task_name "dependency_failed"] |})
  else
    match executors !! task_name with
    | None =>
        Some (Continue
          {| rs_engine := rs_engine st;
             rs_summary := count_failed (rs_summary st) task_name;
             rs_world := rs_world st; rs_trace := rs_trace st |})
    | Some exec =>
        match execute_task_with_retries task_name cfg exec
                (default 2 (max_retries cfg)) (rs_engine st) (rs_world st)
                (rs_trace st) with
        | None => None
        | Some (success, result, eng, w, tr) =>
            let eng := set_task_result eng task_name result in
            let s := record_result (rs_summary st) task_name result in
            if success then
              Some (Continue
                {| rs_engine := eng; rs_summary := count_successful s;
                   rs_world := w; rs_trace := tr |})
            else
              let st' := {| rs_engine := eng;
                            rs_summary := count_failed s task_name;
                            rs_world := w; rs_trace := tr |} in
              if default true (critical cfg) then
                Some (Raised
                  (CriticalTaskFailure ("Critical task " +:+ task_name +:+ " failed"))
                  st')
              else Some (Continue st')
        end
    end.

(** Body of [for task_name in execution_plan].  A task is skipped on its
    condition only when [skip_condition] is a non-empty string, which is
    then the reason logged. *)
Definition run_task (tasks : task_set) (executors : gmap string executor)
    (task_name : string) (st : run_state) : option step :=
  match tasks_get tasks task_name with
  | None => Some (Raised (KeyError task_name) st)
  | Some cfg =>
      let skip_condition := skip_on_condition cfg in
      if should_skip_task (rs_world st) task_name skip_condition then
        Some (Continue
          {| rs_engine := set_task_result (rs_engine st) task_name TaskSkipped;
             rs_summary := count_skipped (rs_summary st);
             rs_world := rs_world st;
             rs_trace := rs_trace st ++ [LogTaskSkip task_name (default "" skip_condition)] |})
      else check_and_execute executors task_name cfg st
  end.

(** [for task_name in execution_plan: ...] *)
Fixpoint run_plan (tasks : task_set) (executors : gmap string executor)
    (execution_plan : list string) (st : run_state) : option step :=
  match execution_plan with
  | [] => Some (Continue st)
  | task_name :: rest =>
      match run_task tasks executors task_name st with
      | None => None
      | Some (Raised e st') => Some (Raised e st')
      | Some (Continue st') => run_plan tasks executors rest st'
      end
  end.

(** [execute_pipeline].  [run_mode] is only printed.  An exception other
    than [TaskDependencyError] is not caught: the local [summary] is lost
    with the frame, the engine, the world and the trace are what they were
    at the [raise]. *)
Definition execute_pipeline (order : list string) (tasks : task_set)
    (executors : gmap string executor) (eng : engine) (w : W)
    (tr : list event)
    : option (res exn pipeline_return * engine * W * list event) :=
  match topological_sort order tasks eng with
  | None => None
  | Some (Raise (TaskDependencyError e), eng) =>
      Some (Ret (DependencyFailure (graph_error_message e)), eng, w, tr)
  | Some (Raise e, eng) => Some (Raise e, eng, w, tr)
  | Some (Ret execution_plan, eng) =>
      match run_plan tasks executors execution_plan
              {| rs_engine := eng; rs_summary := initial_summary execution_plan;
                 rs_world := w; rs_trace := tr |} with
      | None => None
      | Some (Raised e st) => Some (Raise e, rs_engine st, rs_world st, rs_trace st)
      | Some (Continue st) =>
          let s := rs_summary st in
          let overall_success := bool_decide (failed_tasks s = 0) in
          let overall_status := if overall_success then "SUCCESS" else "FAILED" in
          Some (Ret (Completed overall_success s), rs_engine st, rs_world st,
                rs_trace st ++ [EndRun overall_status (successful_tasks s)
                                  (failed_tasks s) (skipped_tasks s)
                                  (error_summary_of (failed_tasks_list s))])
      end
  end.

End Scheduler.

(** ** Vocabulary of the specifications *)

Definition black_closed (tasks : task_set) (V R : gset string) : Prop :=
  ∀ u v, u ∈ V → u ∉ R → edge tasks u v → v ∈ V ∧ v ∉ R.
Definition black_acyclic (tasks : task_set) (V R : gset string) : Prop :=
  ∀ u, u ∈ V → u ∉ R → ¬ on_cycle tasks u.
Definition grey_reach (tasks : task_set) (R : gset string) (task : string) : Prop :=
  ∀ g, g ∈ R → rtc (edge tasks) g task.
Definition reaches_cycle (tasks : task_set) (task : string) : Prop :=
  ∃ c, rtc (edge tasks) task c ∧ on_cycle tasks c.
Definition node_set (tasks : task_set) : gset string := list_to_set (graph_nodes tasks).

(** What one call of [has_cycle] guarantees, from a state that satisfies
    the invariants of the traversal. *)
Definition has_cycle_post (tasks : task_set) (task : string) (V R : gset string)
    (out : bool * dfs_state) : Prop :=
  if out.1 then reaches_cycle tasks task
  else out.2.2 = R ∧ V ⊆ out.2.1 ∧ task ∈ out.2.1 ∧ out.2.1 ⊆ node_set tasks ∧
       black_closed tasks out.2.1 R ∧ black_acyclic tasks out.2.1 R.

Definition has_cycle_ok (tasks : task_set) (fuel : nat) : Prop :=
  ∀ task V R,
    task ∈ node_set tasks → task ∉ V → R ⊆ V → V ⊆ node_set tasks →
    (size (node_set tasks ∖ V) ≤ fuel)%nat →
    black_closed tasks V R → black_acyclic tasks V R → grey_reach tasks R task →
    ∃ out, has_cycle fuel tasks task (V, R) = Some out ∧
           has_cycle_post tasks task V R out.

Definition occ (x : string) (l : list string) : nat := length (filter (λ y, y = x) l).
Definition pending (result deps : list string) : list string :=
  filter (λ d, d ∉ result) deps.
Definition tables_for (keys : list string) (D : string → list string)
    (g : graph_tables) : Prop :=
  (∀ t, t ∈ keys → g.1 !! t = Some (Z.of_nat (length (D t)))) ∧
  (∀ d, d ∈ keys → ∃ l, g.2 !! d = Some l ∧ ∀ t, occ t l = occ d (D t)).

Record kahn_inv (tasks : task_set) (in_degree : gmap string Z)
    (queue result : list string) : Prop := {
  ki_nodup : NoDup (result ++ queue);
  ki_keys : ∀ t, t ∈ result ++ queue → t ∈ task_names tasks;
  ki_deg : ∀ t, t ∈ task_names tasks →
    in_degree !! t = Some (Z.of_nat (length (pending result (deps_of tasks t))));
  ki_ready : ∀ t, t ∈ task_names tasks →
    (t ∈ result ++ queue ↔ pending result (deps_of tasks t) = []);
  ki_sorted : ∀ i t, result !! i = Some t → ∀ d, d ∈ deps_of tasks t →
    ∃ j, (j < i)%nat ∧ result !! j = Some d;
}.

Definition adjacency_for (tasks : task_set) (adjacency : gmap string (list string)) : Prop :=
  ∀ d, d ∈ task_names tasks →
    ∃ l, adjacency !! d = Some l ∧ ∀ t, occ t l = occ d (deps_of tasks t).

Definition invocations (tr : list event) : list string :=
  omap (λ ev, match ev with Invoke n => Some n | _ => None end) tr.
Definition sleeps (tr : list event) : list Z :=
  omap (λ ev, match ev with Sleep s => Some s | _ => None end) tr.
Definition is_end_run (ev : event) : bool :=
  match ev with EndRun _ _ _ _ _ => true | _ => false end.
(** The events of [n] failed attempts that are followed by a retry, the
    first of them being attempt number [attempt + 1]. *)
Fixpoint retry_trace (task_name ty : string) (ord attempt : Z) (n : nat)
    : list event :=
  match n with
  | O => []
  | S n' =>
      [LogTaskStart task_name ty ord (attempt + 1); Invoke task_name;
       Sleep (2 ^ attempt)]
      ++ retry_trace task_name ty ord (attempt + 1) n'
  end.
(** The events of the last attempt of a task that fails for good. *)
Definition final_failure_trace (task_name ty : string) (ord attempt : Z)
    (e : py_exception) : list event :=
  [LogTaskStart task_name ty ord attempt; Invoke task_name;
   LogTaskFailure task_name e (exc_traceback e)].
Definition always_raises {W} (exec : executor (W:=W)) : Prop :=
  ∀ w, ∃ e w', exec w = (Raise e, w').
Definition always_returns {W} (exec : executor (W:=W)) : Prop :=
  ∀ w, ∃ r w', exec w = (Ret r, w').

Definition non_positive_case {W}
    (watermark_query : W → res py_exception (list (gmap string pyval)))
    (w : W) (skip_condition : option string) : Prop :=
  skip_condition = None ∨ skip_condition = Some "" ∨
  (∃ c, skip_condition = Some c ∧ c ≠ "if_no_new_files") ∨
  (skip_condition = Some "if_no_new_files" ∧ ∃ e, watermark_query w = Raise e).

Definition no_end_run (tr : list event) : Prop :=
  Forall (λ ev, is_end_run ev = false) tr.

Definition overall_status_of (overall_success : bool) : string :=
  if overall_success then "SUCCESS" else "FAILED".

Definition step_state {W} (out : step (W:=W)) : run_state :=
  match out with Continue st => st | Raised _ st => st end.

(** Number of tasks counted as failed for want of an executor. *)
Definition without_executor {W} (executors : gmap string (executor (W:=W)))
    (failed : list string) : nat :=
  length (filter (λ t, executors !! t = None) failed).

(** The summary after the tasks [processed] have gone through the loop. *)
Record summary_inv {W} (executors : gmap string (executor (W:=W)))
    (processed : list string) (s : summary) : Prop := {
  si_counts : successful_tasks s + failed_tasks s + skipped_tasks s
              = Z.of_nat (length processed);
  si_nonneg : 0 ≤ successful_tasks s ∧ 0 ≤ failed_tasks s ∧ 0 ≤ skipped_tasks s;
  si_failed : failed_tasks s = Z.of_nat (length (failed_tasks_list s));
  si_size : Z.of_nat (size (summary_task_results s))
            + Z.of_nat (without_executor executors (failed_tasks_list s))
            = successful_tasks s + failed_tasks s;
  si_entries : ∀ t r, summary_task_results s !! t = Some r →
      t ∈ processed ∧ is_Some (executors !! t) ∧
      (result_status r = "SUCCESS" ∨ result_status r = "FAILED");
}.




(** The state in which the loop of [execute_pipeline] starts. *)
Definition initial_state {W} (plan : list string) (eng : engine) (w : W)
    (tr : list event) : run_state :=
  {| rs_engine := set_execution_order eng (record_order 1 plan (execution_order eng));
     rs_summary := initial_summary plan; rs_world := w; rs_trace := tr |}.

(** [st] with [task_name] counted as failed. *)
Definition with_failed {W} (st : run_state (W:=W)) (task_name : string) : run_state :=
  {| rs_engine := rs_engine st;
     rs_summary := count_failed (rs_summary st) task_name;
     rs_world := rs_world st; rs_trace := rs_trace st |}.

(** The outcome of the loop body for a task that is blocked. *)
Definition blocked_outcome {W} (task_name : string) (cfg : task_config)
    (st : run_state (W:=W)) : step :=
  if default true (critical cfg) then
    Raised (CriticalTaskFailure
             ("Critical task " +:+ task_name +:+ " blocked by failed dependency"))
      (with_failed st task_name)
  else
    Continue {| rs_engine := rs_engine st;
                rs_summary := count_skipped (rs_summary st);
                rs_world := rs_world st;
                rs_trace := rs_trace st ++ [LogTaskSkip task_name "dependency_failed"] |}.

(** The engine holds no [SUCCESS] result for the task. *)
Definition not_succeeded (eng : engine) (task_name : string) : Prop :=
  result_status <$> task_results eng !! task_name ≠ Some "SUCCESS".

(** The three tasks of the worked example: [A] without dependencies and
    critical, [B] depending on [A] and not critical, [C] depending on [B]
    and critical.  The task types and retry budgets are left open. *)
Definition chain_tasks (tyA tyB tyC : option string) (mA mB mC : option Z)
    : task_set :=
  [("A", {| task_type := tyA; depends_on := []; critical := Some true;
            max_retries := mA; skip_on_condition := None |});
   ("B", {| task_type := tyB; depends_on := ["A"]; critical := Some false;
            max_retries := mB; skip_on_condition := None |});
   ("C", {| task_type := tyC; depends_on := ["B"]; critical := Some true;
            max_retries := mC; skip_on_condition := None |})].

(** A world without state: the watermark query fails, the clock stands
    still. *)
Definition no_watermarks : unit → res py_exception (list (gmap string pyval)) :=
  λ _, Raise (PyException "AnalysisException" "table not found" "Traceback").
Definition still_clock : unit → Z := λ _, 0.
Definition no_sleep : Z → unit → unit := λ _ w, w.

Definition ok_executor : executor (W:=unit) := λ w, (Ret ∅, w).
Definition boom : py_exception := PyException "RuntimeError" "boom" "Traceback".
Definition failing_executor : executor (W:=unit) := λ w, (Raise boom, w).

Definition plain_task (deps : list string) (crit : option bool) (retries : option Z)
    : task_config :=
  {| task_type := None; depends_on := deps; critical := crit;
     max_retries := retries; skip_on_condition := None |}.

Definition run_example (order : list string) (tasks : task_set)
    (executors : gmap string (executor (W:=unit))) (eng : engine) :=
  execute_pipeline no_watermarks still_clock no_sleep order tasks executors eng tt [].


(** One critical task whose executor always fails. *)
Definition single_failing : task_set := [("A", plain_task [] None (Some 0))].

(** A dependency cycle between [A] and [B], and [X] which depends on it. *)
Definition cycle_with_tail : task_set :=
  [("X", plain_task ["A"] None None); ("A", plain_task ["B"] None None);
   ("B", plain_task ["A"] None None)].

(** [B] depends on [A]. *)
Definition pair_tasks : task_set :=
  [("A", plain_task [] None (Some 0)); ("B", plain_task ["A"] None (Some 0))].

(** The same, neither task critical. *)
Definition pair_tasks_noncritical : task_set :=
  [("A", plain_task [] (Some false) (Some 0)); ("B", plain_task ["A"] (Some false) (Some 0))].

(** The engine after a first run of [pair_tasks] in which both tasks
    succeed. *)
Definition engine_after_first_run : engine :=
  match run_example ["A"; "B"] pair_tasks
          (<["A" := ok_executor]> (<["B" := ok_executor]> ∅)) new_engine with
  | Some (_, eng, _, _) => eng
  | None => new_engine
  end.


(** A task set with a dependency on a task that is not declared. *)
Definition dangling_tasks : task_set := [("A", plain_task ["Z"] None None)].

(** A task that is to be skipped when the watermark table shows nothing
    new. *)
Definition skippable_tasks : task_set :=
  [("A", {| task_type := None; depends_on := []; critical := None;
            max_retries := None; skip_on_condition := Some "if_no_new_files" |})].

(** The world in which attempt [attempt + k + 1] starts when the [k]
    attempts before it all raise: each failed attempt is followed by its
    backoff sleep.  [None] when one of them returns. *)
Fixpoint world_after_failures {W} (sleep : Z → W → W) (exec : executor (W:=W))
    (k : nat) (attempt : Z) (w : W) : option W :=
  match k with
  | O => Some w
  | S k' =>
      match exec w with
      | (Raise _, w1) =>
          world_after_failures sleep exec k' (attempt + 1) (sleep (2 ^ attempt) w1)
      | (Ret _, _) => None
      end
  end.

(** The events of an attempt that succeeds. *)
Definition success_trace (task_name ty : string) (ord attempt : Z)
    (result : gmap string pyval) : list event :=
  [LogTaskStart task_name ty ord attempt; Invoke task_name;
   LogTaskSuccess task_name (default (PyInt 0) (result !! "rows_processed"))].

(** A counter as world, and an executor that raises on its first two
    invocations. *)
Definition flaky_executor : executor (W:=nat) :=
  λ n, if decide (n < 2)%nat then (Raise boom, S n) else (Ret ∅, S n).

(** The tasks declared without dependency, in declaration order. *)
Definition root_tasks (tasks : task_set) : list string :=
  filter (λ t, deps_of tasks t = []) (task_names tasks).

(** [st] after [task_name] has been skipped on its condition. *)
Definition with_skipped {W} (st : run_state (W:=W)) (task_name : string)
    (skip_condition : option string) : run_state :=
  {| rs_engine := set_task_result (rs_engine st) task_name TaskSkipped;
     rs_summary := count_skipped (rs_summary st);
     rs_world := rs_world st;
     rs_trace := rs_trace st ++ [LogTaskSkip task_name (default "" skip_condition)] |}.

(** A watermark query that finds nothing new. *)
Definition nothing_new : unit → res py_exception (list (gmap string pyval)) :=
  λ _, Ret [{["new_files" := PyInt 0]}].

(** What [summary["failed_tasks_list"]] holds after the tasks [processed]
    have gone through the loop without an exception. *)
Record failed_inv {W} (tasks : task_set)
    (executors : gmap string (executor (W:=W)))
    (processed : list string) (s : summary) : Prop := {
  fi_sub : failed_tasks_list s `sublist_of` processed;
  fi_entries : ∀ t r, summary_task_results s !! t = Some r →
      result_status r = "FAILED" → t ∈ failed_tasks_list s;
  fi_tolerated : ∀ t, t ∈ failed_tasks_list s →
      executors !! t = None ∨
      ∃ cfg, tasks_get tasks t = Some cfg ∧ critical cfg = Some false;
}.

(** Every call of an executor in [new] comes after the success of each
    dependency of its task has been logged, unless the engine [eng0] the run
    started with already held a SUCCESS for that dependency. *)
Definition deps_logged_before (tasks : task_set) (eng0 : engine)
    (new : list event) : Prop :=
  ∀ pre post t cfg d,
    new = pre ++ Invoke t :: post →
    tasks_get tasks t = Some cfg → d ∈ depends_on cfg →
    (∃ rows, LogTaskSuccess d rows ∈ pre) ∨
    result_status <$> task_results eng0 !! d = Some "SUCCESS".

(** The SUCCESS entries of [eng] that [new] accounts for. *)
Definition successes_logged (eng0 eng : engine) (new : list event) : Prop :=
  ∀ d, result_status <$> task_results eng !! d = Some "SUCCESS" →
    (∃ rows, LogTaskSuccess d rows ∈ new) ∨
    result_status <$> task_results eng0 !! d = Some "SUCCESS".

(** The number of calls [execute_task_with_retries] may make for a task. *)
Definition attempts_allowed (tasks : task_set) (task_name : string) : nat :=
  match tasks_get tasks task_name with
  | Some cfg => Z.to_nat (default 2 (max_retries cfg) + 1)
  | None => 0
  end.

(** Every task has an executor that returns, a retry budget that allows a
    first attempt, and is never skipped on its condition. *)
Definition always_runnable {W}
    (watermark_query : W → res py_exception (list (gmap string pyval)))
    (tasks : task_set) (executors : gmap string (executor (W:=W))) : Prop :=
  ∀ t cfg, tasks_get tasks t = Some cfg →
    (∀ w, should_skip_task watermark_query w t (skip_on_condition cfg) = false) ∧
    0 ≤ default 2 (max_retries cfg) ∧
    ∃ exec, executors !! t = Some exec ∧ always_returns exec.

(** [register_task]: [self.task_metadata[task_name] = task_config] *)
Definition register_task (eng : engine) (task_name : string)
    (cfg : task_config) : engine :=
  {| execution_order := execution_order eng; task_results := task_results eng;
     task_metadata := <[task_name := cfg]> (task_metadata eng);
     execution_times := execution_times eng |}.

(** [raise Exception(f"<prefix>{str(e)}")] inside [except Exception as e]:
    the new exception is a plain [Exception]; [chained_traceback] is the
    text [traceback.format_exc()] gives for it. *)
Definition wrap_error (chained_traceback : string → py_exception → string)
    (prefix : string) (e : py_exception) : py_exception :=
  {| exc_type := "Exception";
     exc_message := prefix +:+ exc_message e;
     exc_traceback := chained_traceback (prefix +:+ exc_message e) e |}.

(** The dictionary returned by [execute_notebook]. *)
Definition notebook_result : gmap string pyval :=
  <["status" := PyStr "SUCCESS"]>
    (<["output" := PyStr "Notebook executed"]>
       (<["rows_processed" := PyInt 1000]> ∅)).

(** The dictionary returned by [execute_sql]. *)
Definition sql_result (row_count : Z) : gmap string pyval :=
  <["status" := PyStr "SUCCESS"]>
    (<["rows_affected" := PyInt row_count]>
       (<["message" := PyStr ("Query executed, " +:+ pretty row_count +:+ " rows")]>
          ∅)).

(** The dictionary returned by [execute_python]. *)
Definition python_result (result : pyval) : gmap string pyval :=
  <["status" := PyStr "SUCCESS"]> (<["result" := result]> ∅).

(** [execute_notebook], simulated in the source: the notebook is not run.
    [elapse] is what the call does to the world: it prints a line, and time
    passes. *)
Definition execute_notebook {W} (elapse : W → W) (notebook_path : string)
    (parameters : gmap string pyval) : executor (W:=W) :=
  λ w, (Ret notebook_result, elapse w).

(** [execute_sql]; [run_query] is [self.spark.sql(sql_query)] followed by
    [result.count()]. *)
Definition execute_sql {W} (run_query : string → W → res py_exception Z * W)
    (chained_traceback : string → py_exception → string)
    (sql_query : string) : executor (W:=W) :=
  λ w, match run_query sql_query w with
       | (Ret row_count, w) => (Ret (sql_result row_count), w)
       | (Raise e, w) =>
           (Raise (wrap_error chained_traceback "SQL execution failed: " e), w)
       end.

(** [execute_python]; [python_func] stands for
    [python_func(self.spark, **params)]. *)
Definition execute_python {W} (chained_traceback : string → py_exception → string)
    (python_func : W → res py_exception pyval * W) : executor (W:=W) :=
  λ w, match python_func w with
       | (Ret result, w) => (Ret (python_result result), w)
       | (Raise e, w) =>
           (Raise (wrap_error chained_traceback "Python execution failed: " e), w)
       end.

(** The engine of a state, with a task registered. *)
Definition register_in_state {W} (task_name : string) (cfg : task_config)
    (st : run_state (W:=W)) : run_state :=
  {| rs_engine := register_task (rs_engine st) task_name cfg;
     rs_summary := rs_summary st; rs_world := rs_world st;
     rs_trace := rs_trace st |}.

Definition register_in_step {W} (task_name : string) (cfg : task_config)
    (out : step (W:=W)) : step :=
  match out with
  | Continue st => Continue (register_in_state task_name cfg st)
  | Raised e st => Raised e (register_in_state task_name cfg st)
  end.

Definition register_in_result {W} (task_name : string) (cfg : task_config)
    (x : bool * task_result * engine * W * list event)
    : bool * task_result * engine * W * list event :=
  let '(ok, r, eng, w, tr) := x in (ok, r, register_task eng task_name cfg, w, tr).

Definition register_in_outcome {W} (task_name : string) (cfg : task_config)
    (x : res exn pipeline_return * engine * W * list event)
    : res exn pipeline_return * engine * W * list event :=
  let '(out, eng, w, tr) := x in (out, register_task eng task_name cfg, w, tr).

(** The counter as clock, and a sleep that leaves it alone. *)
Definition counter_clock : nat → Z := Z.of_nat.

Definition idle_sleep : Z → nat → nat := λ _ n, n.

(** A query that always fails, and a traceback text. *)
Definition failing_query : string → unit → res py_exception Z * unit :=
  λ _ w, (Raise (PyException "AnalysisException" "no such table" "Traceback"), w).

Definition some_traceback : string → py_exception → string := λ _ _, "Traceback".

(** A Python function that returns 7. *)
Definition seven : unit → res py_exception pyval * unit := λ w, (Ret (PyInt 7), w).

(** Both tasks of [pair_tasks] with an executor that returns. *)
Definition both_ok : gmap string (executor (W:=unit)) :=
  <["A" := ok_executor]> (<["B" := ok_executor]> ∅).

(** The trace of the run of [pair_tasks] with [both_ok], before [end_run]. *)
Definition both_ok_trace : list event :=
  [LogTaskStart "A" "unknown" 1 1; Invoke "A"; LogTaskSuccess "A" (PyInt 0);
   LogTaskStart "B" "unknown" 2 1; Invoke "B"; LogTaskSuccess "B" (PyInt 0)].

(** * Properties *)

Lemma tasks_get_Some tasks n cfg : tasks_get tasks n = Some cfg → (n, cfg) ∈ tasks.
Proof.
  induction tasks as [|[m c] tasks IH]; simpl; [done|].
  case_decide; intros Hg.
  - simplify_eq. left.
  - right. auto.
Qed.

Lemma tasks_get_None tasks n : tasks_get tasks n = None ↔ n ∉ task_names tasks.
Proof.
  unfold task_names. induction tasks as [|[m c] tasks IH]; simpl.
  - split; [intros _; apply not_elem_of_nil|done].
  - rewrite not_elem_of_cons. case_decide as Hd.
    + split; [done|]. intros [Hne _]. by subst.
    + rewrite IH. split; [|tauto]. intros Hn. split; [congruence|done].
Qed.

Lemma tasks_get_NoDup tasks n cfg :
  wf_tasks tasks → (n, cfg) ∈ tasks → tasks_get tasks n = Some cfg.
Proof.
  unfold wf_tasks, task_names. induction tasks as [|[m c] tasks IH]; simpl.
  - intros _ H. by apply elem_of_nil in H.
  - rewrite NoDup_cons. intros [Hm Hnd] [Hin|Hin]%elem_of_cons.
    + simplify_eq. by rewrite decide_True.
    + case_decide; [|by auto]. subst. exfalso. apply Hm.
      apply list_elem_of_fmap. by exists (n, cfg).
Qed.

Lemma edge_source tasks a b : edge tasks a b → a ∈ task_names tasks.
Proof.
  unfold edge, deps_of. destruct (tasks_get tasks a) eqn:E.
  - intros _. apply tasks_get_Some in E. unfold task_names.
    apply list_elem_of_fmap. by exists (a, t).
  - intros H. by apply elem_of_nil in H.
Qed.

Lemma edge_target tasks a b : edge tasks a b → b ∈ node_set tasks.
Proof.
  unfold edge, deps_of, node_set, graph_nodes.
  destruct (tasks_get tasks a) as [cfg|] eqn:E; [|intros H; by apply elem_of_nil in H].
  intros H. apply tasks_get_Some in E. apply elem_of_list_to_set, elem_of_app. right.
  apply list_elem_of_bind. by exists (a, cfg).
Qed.

Lemma key_in_node_set tasks a : a ∈ task_names tasks → a ∈ node_set tasks.
Proof. intros H. apply elem_of_list_to_set, elem_of_app. by left. Qed.

Lemma tc_first_step {A} (R : relation A) x z : tc R x z → ∃ y, R x y ∧ rtc R y z.
Proof.
  destruct 1 as [x z H|x y z H1 H2].
  - exists z. split; [done|apply rtc_refl].
  - exists y. split; [done|]. by apply tc_rtc.
Qed.

Lemma black_closed_rtc tasks V R u v :
  black_closed tasks V R → rtc (edge tasks) u v → u ∈ V → u ∉ R → v ∈ V ∧ v ∉ R.
Proof.
  intros Hc. induction 1 as [|x y z Hxy _ IH]; [done|].
  intros Hx Hx'. destruct (Hc _ _ Hx Hx' Hxy). auto.
Qed.

Lemma size_list_to_set_le (l : list string) :
  (size (list_to_set l : gset string) ≤ length l)%nat.
Proof.
  induction l as [|x l IH].
  - rewrite list_to_set_nil, size_empty. simpl. lia.
  - rewrite list_to_set_cons, size_union_alt, size_singleton. simpl.
    pose proof (subseteq_size (list_to_set l ∖ {[x]}) (list_to_set l : gset string)) as Hs.
    assert (list_to_set l ∖ {[x]} ⊆ (list_to_set l : gset string)) as Hsub by set_solver.
    specialize (Hs Hsub). lia.
Qed.

Lemma for_deps_spec tasks fuel task deps :
  has_cycle_ok tasks fuel →
  (∀ d, d ∈ deps → edge tasks task d) →
  ∀ V R, task ∈ R → R ⊆ V → V ⊆ node_set tasks →
    (size (node_set tasks ∖ V) ≤ fuel)%nat →
    black_closed tasks V R → black_acyclic tasks V R → grey_reach tasks R task →
    ∃ out, for_deps (has_cycle fuel tasks) deps (V, R) = Some out ∧
      if out.1 then reaches_cycle tasks task
      else out.2.2 = R ∧ V ⊆ out.2.1 ∧ out.2.1 ⊆ node_set tasks ∧
           black_closed tasks out.2.1 R ∧ black_acyclic tasks out.2.1 R ∧
           ∀ d, d ∈ deps → d ∈ out.2.1 ∧ d ∉ R.
Proof.
  intros IH. induction deps as [|dep rest IHd]; intros Hedge V R HtR HRV HVU Hsz Hcl Hac Hgr.
  - exists (false, (V, R)). simpl. split; [done|].
    split_and!; try done. intros d Hd; by apply elem_of_nil in Hd.
  - assert (Hd : edge tasks task dep) by (apply Hedge; left).
    assert (Hrest : ∀ d, d ∈ rest → edge tasks task d) by (intros; apply Hedge; by right).
    simpl. destruct (decide (dep ∉ V)) as [HdV|HdV].
    + destruct (IH dep V R) as [[b [V' R']] [Hcall Hpost]]; try done.
      { by eapply edge_target. }
      { intros g Hg. eapply rtc_r; [by apply Hgr|done]. }
      rewrite Hcall. unfold has_cycle_post in Hpost. simpl in Hpost.
      destruct b.
      * exists (true, (V', R')). split; [done|]. simpl.
        destruct Hpost as (c & Hc1 & Hc2). exists c. split; [|done].
        by eapply rtc_l.
      * destruct Hpost as (-> & HVV' & HdV' & HV'U & Hcl' & Hac').
        destruct (IHd Hrest V' R) as [[b [V'' R'']] [Hloop Hp]]; try done.
        { clear -HRV HVV'. set_solver. }
        { etrans; [|exact Hsz]. apply subseteq_size. clear -HVV'. set_solver. }
        exists (b, (V'', R'')). split; [done|]. simpl in *.
        destruct b; [done|]. destruct Hp as (-> & HV'V'' & HV''U & Hcl'' & Hac'' & Hall).
        split_and!; try done; [clear -HVV' HV'V''; set_solver|].
        intros d [->|Hin]%elem_of_cons; [|by apply Hall].
        split; [clear -HdV' HV'V''; set_solver|].
        intros HdR. apply HdV. clear -HdR HRV. set_solver.
    + apply dec_stable in HdV. destruct (decide (dep ∈ R)) as [HdR|HdR].
      * exists (true, (V, R)). split; [done|]. simpl. exists dep. split.
        { by apply rtc_once. }
        eapply tc_rtc_l; [by apply Hgr|]. by apply tc_once.
      * destruct (IHd Hrest V R) as [[b [V'' R'']] [Hloop Hp]]; try done.
        exists (b, (V'', R'')). split; [done|]. simpl in *.
        destruct b; [done|]. destruct Hp as (-> & HV'V'' & HV''U & Hcl'' & Hac'' & Hall).
        split_and!; try done.
        intros d [->|Hin]%elem_of_cons; [|by apply Hall].
        split; [clear -HdV HV'V''; set_solver|done].
Qed.

Lemma has_cycle_spec tasks fuel : has_cycle_ok tasks fuel.
Proof.
  induction fuel as [|fuel IH]; intros task V R HtU HtV HRV HVU Hsz Hcl Hac Hgr.
  - exfalso. assert (size (node_set tasks ∖ V) ≠ 0%nat); [|lia].
    apply size_non_empty_iff. intros He. set_solver.
  - simpl.
    destruct (for_deps_spec tasks fuel task (deps_of tasks task) IH) with
      (V := {[task]} ∪ V) (R := {[task]} ∪ R) as [[b [V' R']] [Hloop Hp]].
    + done.
    + set_solver.
    + set_solver.
    + set_solver.
    + assert (node_set tasks ∖ ({[task]} ∪ V) ⊂ node_set tasks ∖ V)
        as Hss%subset_size by set_solver. lia.
    + intros u v Hu Hu' Huv. destruct (Hcl u v) as [? ?]; [set_solver..|done|]. set_solver.
    + intros u Hu Hu'. apply Hac; set_solver.
    + intros g [->%elem_of_singleton|Hg]%elem_of_union; [done|by apply Hgr].
    + rewrite Hloop. simpl in Hp. destruct b.
      * exists (true, (V', R')). done.
      * destruct Hp as (-> & HVV' & HV'U & Hcl' & Hac' & Hall).
        eexists. split; [done|]. unfold has_cycle_post. simpl.
        assert (HtR : task ∉ R) by set_solver.
        split; [set_solver|]. split; [set_solver|]. split; [set_solver|].
        split; [done|].
        assert (Hclo : black_closed tasks V' R).
        { intros u v Hu Hu' Huv. destruct (decide (u = task)) as [->|Hne].
          - destruct (Hall v Huv). set_solver.
          - destruct (Hcl' u v); [done|set_solver|done|]. set_solver. }
        split; [done|].
        intros u Hu Hu' Hcyc. destruct (decide (u = task)) as [->|Hne].
        -- apply tc_first_step in Hcyc as (v & Hv & Hvt).
           destruct (Hall v Hv) as [Hv1 Hv2].
           destruct (black_closed_rtc _ _ _ _ _ Hcl' Hvt Hv1 Hv2). set_solver.
        -- apply (Hac' u); [done|set_solver|done].
Qed.

Lemma check_cycles_spec tasks order :
  ∀ V, (∀ t, t ∈ order → t ∈ node_set tasks) → V ⊆ node_set tasks →
    black_closed tasks V ∅ → black_acyclic tasks V ∅ →
    ∃ r, check_cycles (S (length (graph_nodes tasks))) tasks order (V, ∅) = Some r ∧
      match r with
      | Raise e => ∃ t, e = Circular t ∧ t ∈ order ∧ reaches_cycle tasks t
      | Ret st => st.2 = ∅ ∧ V ⊆ st.1 ∧ (∀ t, t ∈ order → t ∈ st.1) ∧
                  st.1 ⊆ node_set tasks ∧
                  black_closed tasks st.1 ∅ ∧ black_acyclic tasks st.1 ∅
      end.
Proof.
  induction order as [|task rest IH]; intros V Hord HVU Hcl Hac.
  - exists (Ret (V, ∅)). split; [done|]. simpl. split_and!; try done.
    intros t Ht. by apply elem_of_nil in Ht.
  - cbn [check_cycles fst]. destruct (decide (task ∉ V)) as [HtV|HtV].
    + assert (Hsz : (size (node_set tasks ∖ V) ≤ S (length (graph_nodes tasks)))%nat).
      { etrans; [apply subseteq_size with (Y := node_set tasks); set_solver|].
        etrans; [apply size_list_to_set_le|lia]. }
      assert (Hgr : grey_reach tasks ∅ task) by (intros g Hg; set_solver).
      assert (HtU : task ∈ node_set tasks) by (apply Hord; left).
      assert (Hsub : (∅ : gset string) ⊆ V) by set_solver.
      destruct (has_cycle_spec tasks (S (length (graph_nodes tasks))) task V ∅
                  HtU HtV Hsub HVU Hsz Hcl Hac Hgr)
        as [[b [V' R']] [Hcall Hpost]].
      *        rewrite Hcall. unfold has_cycle_post in Hpost. simpl in Hpost. destruct b.
        { eexists. split; [done|]. exists task. split_and!; [done|left|done]. }
        destruct Hpost as (-> & HVV' & HtV' & HV'U & Hcl' & Hac').
        destruct (IH V') as [r [Hr Hpost]]; try done.
        { intros t Ht. apply Hord. by right. }
        exists r. split; [done|]. destruct r as [st|e].
        -- destruct Hpost as (? & ? & Hin & ? & ? & ?). split_and!; try done; [set_solver|].
           intros t [->|Ht]%elem_of_cons; [set_solver|by apply Hin].
        -- destruct Hpost as (t & -> & Ht & Hrc). exists t. split_and!; [done|by right|done].
    + apply dec_stable in HtV.
      destruct (IH V) as [r [Hr Hpost]]; try done.
      { intros t Ht. apply Hord. by right. }
      exists r. split; [done|]. destruct r as [st|e].
      * destruct Hpost as (? & ? & Hin & ? & ? & ?). split_and!; try done.
        intros t [->|Ht]%elem_of_cons; [set_solver|by apply Hin].
      * destruct Hpost as (t & -> & Ht & Hrc). exists t. split_and!; [done|by right|done].
Qed.

Lemma on_cycle_is_task tasks c : on_cycle tasks c → c ∈ task_names tasks.
Proof. intros (v & Hv & _)%tc_first_step. by eapply edge_source. Qed.

Lemma check_cycles_start tasks order :
  order ≡ₚ task_names tasks →
  ∃ r, check_cycles (S (length (graph_nodes tasks))) tasks order (∅, ∅) = Some r ∧
    match r with
    | Raise e => ∃ t, e = Circular t ∧ t ∈ task_names tasks ∧ reaches_cycle tasks t
    | Ret _ => acyclic tasks
    end.
Proof.
  intros Hperm.
  destruct (check_cycles_spec tasks order ∅) as [r [Hr Hpost]].
  - intros t Ht. apply key_in_node_set. by rewrite <- Hperm.
  - set_solver.
  - intros u v Hu. set_solver.
  - intros u Hu. set_solver.
  - exists r. split; [done|]. destruct r as [st|e].
    + destruct Hpost as (_ & _ & Hin & _ & _ & Hac). intros c Hc.
      apply (Hac c); [|set_solver|done]. apply Hin. rewrite Hperm.
      by apply on_cycle_is_task.
    + destruct Hpost as (t & -> & Ht & Hrc). exists t. split_and!; try done.
      by rewrite <- Hperm.
Qed.

Lemma reaches_cycle_has_cycle tasks t : reaches_cycle tasks t → has_cycle_graph tasks.
Proof. intros (c & _ & Hc). by exists c. Qed.

Lemma check_deps_exist_None all task deps :
  check_deps_exist all task deps = None ↔ ∀ d, d ∈ deps → d ∈ all.
Proof.
  induction deps as [|dep rest IH]; simpl.
  - split; [|done]. intros _ d Hd. by apply elem_of_nil in Hd.
  - case_decide as Hd.
    + split; [done|]. intros Hall. exfalso. apply Hd, Hall. left.
    + rewrite IH. split.
      * intros Hall d [->|Hin]%elem_of_cons; auto.
      * intros Hall d Hin. apply Hall. by right.
Qed.

Lemma check_deps_exist_Some all task deps e :
  check_deps_exist all task deps = Some e →
  ∃ d, e = NonExistent task d ∧ d ∈ deps ∧ d ∉ all.
Proof.
  induction deps as [|dep rest IH]; simpl; [done|].
  case_decide as Hd.
  - intros [= <-]. exists dep. split_and!; [done|left|done].
  - intros (d & ? & ? & ?)%IH. exists d. split_and!; [done|by right|done].
Qed.

Lemma check_missing_None all tasks :
  check_missing all tasks = None ↔
  ∀ t cfg d, (t, cfg) ∈ tasks → d ∈ depends_on cfg → d ∈ all.
Proof.
  induction tasks as [|[task cfg] rest IH]; simpl.
  - split; [|done]. intros _ t c d Hin. by apply elem_of_nil in Hin.
  - destruct (check_deps_exist all task (depends_on cfg)) as [e|] eqn:E.
    + split; [done|]. intros Hall.
      assert (check_deps_exist all task (depends_on cfg) = None) as Hn; [|congruence].
      apply check_deps_exist_None. intros d Hd. apply (Hall task cfg d); [left|done].
    + rewrite IH. rewrite check_deps_exist_None in E. split.
      * intros Hall t c d [Heq|Hin]%elem_of_cons Hd; [simplify_eq; auto|eauto].
      * intros Hall t c d Hin Hd. apply (Hall t c d); [by right|done].
Qed.

Lemma check_missing_Some all tasks e :
  check_missing all tasks = Some e →
  ∃ t cfg d, e = NonExistent t d ∧ (t, cfg) ∈ tasks ∧ d ∈ depends_on cfg ∧ d ∉ all.
Proof.
  induction tasks as [|[task cfg] rest IH]; simpl; [done|].
  destruct (check_deps_exist all task (depends_on cfg)) as [e'|] eqn:E.
  - intros [= <-]. apply check_deps_exist_Some in E as (d & -> & ? & ?).
    exists task, cfg, d. split_and!; [done|left|done|done].
  - intros (t & c & d & ? & ? & ? & ?)%IH. exists t, c, d. split_and!; [done|by right|done|done].
Qed.

Lemma edge_iff tasks a b :
  wf_tasks tasks → edge tasks a b ↔ ∃ cfg, (a, cfg) ∈ tasks ∧ b ∈ depends_on cfg.
Proof.
  intros Hwf. unfold edge, deps_of. split.
  - destruct (tasks_get tasks a) as [cfg|] eqn:E; [|intros H; by apply elem_of_nil in H].
    intros Hb. exists cfg. split; [by apply tasks_get_Some|done].
  - intros (cfg & Hin & Hb). by rewrite (tasks_get_NoDup _ _ _ Hwf Hin).
Qed.

(** validate_dependency_graph always returns or raises *)
Lemma validate_cyclic order tasks :
  order ≡ₚ task_names tasks → has_cycle_graph tasks →
  ∃ t, validate_dependency_graph order tasks = Some (Raise (Circular t)) ∧
       t ∈ task_names tasks ∧ reaches_cycle tasks t.
Proof.
  intros Hperm [c Hc]. unfold validate_dependency_graph.
  destruct (check_cycles_start tasks order Hperm) as [r [-> Hpost]].
  destruct r as [st|e].
  - by destruct (Hpost c).
  - destruct Hpost as (t & -> & ? & ?). by exists t.
Qed.

Lemma validate_acyclic order tasks :
  order ≡ₚ task_names tasks → acyclic tasks →
  validate_dependency_graph order tasks =
    Some (match check_missing (list_to_set (task_names tasks)) tasks with
          | Some e => Raise e
          | None => Ret true
          end).
Proof.
  intros Hperm Hac. unfold validate_dependency_graph.
  destruct (check_cycles_start tasks order Hperm) as [r [-> Hpost]].
  destruct r as [st|e].
  - by destruct (check_missing _ _).
  - destruct Hpost as (t & -> & _ & (c & _ & Hc)). by destruct (Hac c).
Qed.

Lemma validate_ok order tasks :
  wf_tasks tasks → order ≡ₚ task_names tasks → acyclic tasks → deps_closed tasks →
  validate_dependency_graph order tasks = Some (Ret true).
Proof.
  intros Hwf Hperm Hac Hcl. rewrite validate_acyclic by done.
  assert (check_missing (list_to_set (task_names tasks)) tasks = None) as ->; [|done].
  apply check_missing_None. intros t cfg d Hin Hd. apply elem_of_list_to_set.
  apply (Hcl t d). apply edge_iff; eauto.
Qed.

Lemma validate_missing order tasks :
  wf_tasks tasks → order ≡ₚ task_names tasks → acyclic tasks →
  (∃ t d, edge tasks t d ∧ d ∉ task_names tasks) →
  ∃ t d, validate_dependency_graph order tasks = Some (Raise (NonExistent t d)) ∧
         edge tasks t d ∧ d ∉ task_names tasks.
Proof.
  intros Hwf Hperm Hac (t0 & d0 & He & Hd). rewrite validate_acyclic by done.
  destruct (check_missing _ tasks) as [e|] eqn:E.
  - apply check_missing_Some in E as (t & cfg & d & -> & Hin & Hdd & Hnot).
    exists t, d. split_and!; [done| |].
    + apply edge_iff; eauto.
    + by rewrite elem_of_list_to_set in Hnot.
  - exfalso. rewrite check_missing_None in E.
    apply (edge_iff _ _ _ Hwf) in He as (cfg & Hin & Hdd).
    pose proof (E t0 cfg d0 Hin Hdd) as Hx. by rewrite elem_of_list_to_set in Hx.
Qed.


Lemma occ_nil x : occ x [] = 0%nat.
Proof. done. Qed.

Lemma occ_cons x y l : occ x (y :: l) = ((if decide (y = x) then 1 else 0) + occ x l)%nat.
Proof. unfold occ. rewrite filter_cons. by case_decide. Qed.

Lemma occ_app x l1 l2 : occ x (l1 ++ l2) = (occ x l1 + occ x l2)%nat.
Proof. unfold occ. by rewrite filter_app, length_app. Qed.

Lemma occ_pos x l : (0 < occ x l)%nat ↔ x ∈ l.
Proof.
  induction l as [|y l IH]; [rewrite occ_nil; split; [lia|by intros ?%elem_of_nil]|].
  rewrite occ_cons, elem_of_cons. case_decide; subst; split; try (intros; lia); auto.
  - intros ?. right. apply IH. lia.
  - intros [->|?]; [done|]. assert (0 < occ x l)%nat by by apply IH. lia.
Qed.

Lemma pending_nil deps : pending [] deps = deps.
Proof.
  unfold pending. induction deps as [|d deps IH]; [done|].
  rewrite filter_cons_True; [by rewrite IH|]. apply not_elem_of_nil.
Qed.

Lemma pending_empty result deps : pending result deps = [] ↔ ∀ d, d ∈ deps → d ∈ result.
Proof.
  unfold pending. induction deps as [|d deps IH].
  - split; [|done]. intros _ x ?%elem_of_nil. done.
  - rewrite filter_cons. case_decide as Hd.
    + split; [done|]. intros Hall. destruct Hd. apply Hall. left.
    + rewrite IH. split.
      * intros Hall x [->|?]%elem_of_cons; auto.
      * intros Hall x ?. apply Hall. by right.
Qed.

Lemma pending_snoc result task deps :
  task ∉ result →
  (length (pending (result ++ [task]) deps) + occ task deps)%nat
  = length (pending result deps).
Proof.
  intros Ht. unfold pending. induction deps as [|d deps IH]; [done|].
  rewrite occ_cons, !filter_cons.
  destruct (decide (d = task)) as [->|Hne];
    destruct (decide (_ ∉ result ++ [task])) as [H1|H1];
    destruct (decide (_ ∉ result)) as [H2|H2]; simpl; try lia;
    exfalso; set_solver.
Qed.

Lemma lookup_list_to_map_const {V} (v : V) (keys : list string) t :
  (list_to_map ((λ n, (n, v)) <$> keys) : gmap string V) !! t
  = if decide (t ∈ keys) then Some v else None.
Proof.
  induction keys as [|k keys IH].
  - destruct (decide (t ∈ [])) as [Hin|Hin]; [by apply elem_of_nil in Hin|done].
  - cbn [fmap list_fmap list_to_map foldr]. rewrite lookup_insert, IH. simpl.
    destruct (decide (k = t)) as [->|Hne]; destruct (decide (t ∈ keys));
      destruct (decide (t ∈ _ :: keys)) as [Hin|Hin]; try done;
      rewrite elem_of_cons in Hin; naive_solver.
Qed.

Lemma tables_for_init tasks :
  tables_for (task_names tasks) (λ _, []) (init_tables tasks).
Proof.
  split.
  - intros t Ht. simpl. rewrite lookup_list_to_map_const. by rewrite decide_True.
  - intros d Hd. exists []. simpl. rewrite lookup_list_to_map_const.
    by rewrite decide_True.
Qed.

Lemma tables_for_ext keys D D' g :
  (∀ t, D t = D' t) → tables_for keys D g → tables_for keys D' g.
Proof.
  intros HD [H1 H2]. split.
  - intros t Ht. rewrite <- HD. by apply H1.
  - intros d Hd. destruct (H2 d Hd) as (l & ? & Hl). exists l. split; [done|].
    intros t. rewrite <- HD. apply Hl.
Qed.

Lemma add_edges_spec keys task deps :
  task ∈ keys → (∀ d, d ∈ deps → d ∈ keys) →
  ∀ D g, tables_for keys D g →
    ∃ g', add_edges task deps g = Ret g' ∧
      tables_for keys (λ t, if decide (t = task) then D task ++ deps else D t) g'.
Proof.
  intros Htask. induction deps as [|dep rest IH]; intros Hdeps D g Hg.
  - exists g. split; [done|]. eapply tables_for_ext; [|done].
    intros t. simpl. case_decide; subst; by rewrite ?app_nil_r.
  - simpl. destruct Hg as [H1 H2].
    destruct (H2 dep) as (l & Hl & Hocc); [apply Hdeps; left|]. rewrite Hl.
    rewrite (H1 task Htask).
    set (D1 := λ t, if decide (t = task) then D task ++ [dep] else D t).
    destruct (IH (λ d Hd, Hdeps d (list_elem_of_further _ _ _ Hd)) D1
      (<[task:=Z.of_nat (length (D task)) + 1]> g.1, <[dep:=l ++ [task]]> g.2))
      as (g' & Hg' & Ht').
    + split; simpl.
      * intros t Ht. unfold D1. rewrite lookup_insert.
        destruct (decide (task = t)) as [->|Hne].
        -- rewrite decide_True by done. rewrite length_app. simpl. f_equal. lia.
        -- rewrite decide_False by done. by apply H1.
      * intros d Hd. rewrite lookup_insert. destruct (decide (dep = d)) as [->|Hne].
        -- eexists. split; [done|]. intros t. rewrite occ_app, Hocc. unfold D1.
           rewrite occ_cons, occ_nil. destruct (decide (task = t)) as [->|Hne].
           ++ rewrite decide_True by done. rewrite occ_app, occ_cons, occ_nil.
              rewrite decide_True by done. lia.
           ++ rewrite decide_False by done. lia.
        -- destruct (H2 d Hd) as (l' & Hl' & Hocc'). exists l'. split; [done|].
           intros t. rewrite Hocc'. unfold D1. destruct (decide (t = task)) as [->|Hne'].
           ++ rewrite occ_app, occ_cons, occ_nil. rewrite decide_False by done. lia.
           ++ done.
    + exists g'. split; [done|]. eapply tables_for_ext; [|done].
      intros t. unfold D1. simpl. case_decide; [|done].
      rewrite decide_True by done. by rewrite <- app_assoc.
Qed.

Lemma build_graph_spec keys items :
  NoDup items.*1 →
  (∀ t cfg, (t, cfg) ∈ items → t ∈ keys ∧ ∀ d, d ∈ depends_on cfg → d ∈ keys) →
  ∀ D g, (∀ t, t ∈ items.*1 → D t = []) → tables_for keys D g →
    ∃ g', build_graph items g = Ret g' ∧
      tables_for keys
        (λ t, match tasks_get items t with Some cfg => depends_on cfg | None => D t end) g'.
Proof.
  induction items as [|[task cfg] rest IH]; intros Hnd Hin D g HD Hg.
  - exists g. by split.
  - simpl in *. apply NoDup_cons in Hnd as [Hnotin Hnd].
    destruct (Hin task cfg) as [Htask Hdeps]; [left|].
    destruct (add_edges_spec keys task (depends_on cfg) Htask Hdeps D g Hg)
      as (g1 & -> & Hg1).
    destruct (IH Hnd (λ t c H, Hin t c (list_elem_of_further _ _ _ H))
      (λ t, if decide (t = task) then D task ++ depends_on cfg else D t) g1)
      as (g' & Hg' & Ht'); [|done|].
    + intros t Ht. simpl. rewrite decide_False by (intros ->; done).
      apply HD. by right.
    + exists g'. split; [done|]. eapply tables_for_ext; [|done].
      intros t. simpl. destruct (decide (task = t)) as [->|Hne].
      * apply tasks_get_None in Hnotin. rewrite Hnotin.
        rewrite decide_True by done. rewrite HD by left. done.
      * rewrite decide_False by done. done.
Qed.

Lemma build_graph_tasks tasks :
  wf_tasks tasks → deps_closed tasks →
  ∃ g, build_graph tasks (init_tables tasks) = Ret g ∧
       tables_for (task_names tasks) (deps_of tasks) g.
Proof.
  intros Hwf Hcl.
  destruct (build_graph_spec (task_names tasks) tasks Hwf) with
    (D := λ _ : string, @nil string) (g := init_tables tasks) as (g & Hg & Ht).
  - intros t cfg Hin. split.
    + apply list_elem_of_fmap. by exists (t, cfg).
    + intros d Hd. apply (Hcl t d). apply edge_iff; eauto.
  - done.
  - apply tables_for_init.
  - exists g. split; [done|]. eapply tables_for_ext; [|done].
    intros t. unfold deps_of. by destruct (tasks_get tasks t).
Qed.


Lemma relax_spec l :
  ∀ deg q, (∀ t, t ∈ l → is_Some (deg !! t)) →
    ∃ deg' new, relax l deg q = Ret (deg', q ++ new) ∧
      (∀ t, deg' !! t = (λ d, d - Z.of_nat (occ t l)) <$> deg !! t) ∧
      NoDup new ∧
      (∀ t, t ∈ new ↔ ∃ d, deg !! t = Some d ∧ 1 ≤ d ≤ Z.of_nat (occ t l)).
Proof.
  induction l as [|n rest IH]; intros deg q Hdom.
  - exists deg, []. rewrite app_nil_r. split_and!; [done| |constructor|].
    + intros t. destruct (deg !! t); simpl; [f_equal; rewrite occ_nil; lia|done].
    + intros t. split; [by intros ?%elem_of_nil|].
      intros (d & _ & Hd). rewrite occ_nil in Hd. lia.
  - destruct (Hdom n) as [d Hd]; [left|]. cbn [relax]. rewrite Hd.
    set (q1 := if decide (d - 1 = 0) then q ++ [n] else q).
    destruct (IH (<[n:=d - 1]> deg) q1) as (deg' & new & Hr & Hdeg & Hnd & Hnew).
    { intros t Ht. rewrite lookup_insert. case_decide; [done|]. apply Hdom. by right. }
    exists deg', ((if decide (d - 1 = 0) then [n] else []) ++ new).
    split_and!.
    + rewrite Hr. unfold q1. case_decide; by rewrite <- ?app_assoc.
    + intros t. rewrite Hdeg, lookup_insert, occ_cons.
      destruct (decide (n = t)) as [->|Hne]; simpl.
      * rewrite Hd. simpl. f_equal. lia.
      * destruct (deg !! t); simpl; [f_equal; lia|done].
    + case_decide as Hz; [|done]. simpl. apply NoDup_cons. split; [|done].
      rewrite Hnew. intros (d1 & Hd1 & Hr1). rewrite lookup_insert_eq in Hd1.
      simplify_eq. lia.
    + intros t. rewrite elem_of_app, Hnew, lookup_insert, occ_cons.
      destruct (decide (n = t)) as [->|Hne].
      * split.
        -- intros [Hin|(d1 & Hd1 & Hr1)].
           ++ case_decide; [|by apply elem_of_nil in Hin]. exists d. split; [done|]. lia.
           ++ simplify_eq. exists d. split; [done|]. lia.
        -- intros (d1 & Hd1 & Hr1). rewrite Hd in Hd1. injection Hd1 as <-.
           destruct (decide (d - 1 = 0)).
           ++ left. left.
           ++ right. exists (d - 1). split; [done|]. lia.
      * split.
        -- intros [Hin|(d1 & Hd1 & Hr1)].
           ++ case_decide; [|by apply elem_of_nil in Hin].
              apply list_elem_of_singleton in Hin. by subst.
           ++ exists d1. split; [done|]. lia.
        -- intros (d1 & Hd1 & Hr1). right. exists d1. split; [done|]. lia.
Qed.

Lemma kahn_inv_init tasks g :
  wf_tasks tasks → tables_for (task_names tasks) (deps_of tasks) g →
  kahn_inv tasks g.1 (initial_queue tasks g.1) [].
Proof.
  intros Hwf [Hdeg _]. unfold initial_queue.
  assert (Hq : ∀ t, t ∈ filter (λ task, g.1 !! task = Some 0) (task_names tasks) ↔
                    t ∈ task_names tasks ∧ deps_of tasks t = []).
  { intros t. rewrite list_elem_of_filter. split.
    - intros [Hz Ht]. split; [done|]. rewrite (Hdeg t Ht) in Hz.
      apply length_zero_iff_nil. injection Hz. lia.
    - intros [Ht Hz]. split; [|done]. rewrite (Hdeg t Ht), Hz. done. }
  split; simpl.
  - by apply NoDup_filter.
  - intros t Ht. by apply Hq in Ht as [? _].
  - intros t Ht. rewrite pending_nil. by apply Hdeg.
  - intros t Ht. rewrite pending_nil, Hq. tauto.
  - intros i t Hi. by rewrite lookup_nil in Hi.
Qed.

Lemma kahn_step tasks adjacency in_degree task queue result :
  adjacency_for tasks adjacency →
  kahn_inv tasks in_degree (task :: queue) result →
  ∃ l in_degree' queue',
    adjacency !! task = Some l ∧
    relax l in_degree queue = Ret (in_degree', queue') ∧
    kahn_inv tasks in_degree' queue' (result ++ [task]).
Proof.
  intros Hadj [Hnd Hkeys Hdeg Hready Hsorted].
  assert (Htask : task ∈ task_names tasks).
  { apply Hkeys. apply elem_of_app. right. left. }
  assert (Htr : task ∉ result).
  { apply NoDup_app in Hnd as (_ & Hdisj & _). intros Hin. apply (Hdisj _ Hin). left. }
  destruct (Hadj task Htask) as (l & Hl & Hocc).
  assert (Hlk : ∀ t, t ∈ l → t ∈ task_names tasks).
  { intros t Ht%occ_pos. rewrite Hocc in Ht. apply occ_pos in Ht.
    by apply (edge_source tasks t task). }
  destruct (relax_spec l in_degree queue) as (deg' & new & Hr & Hdeg' & Hndn & Hnew).
  { intros t Ht. rewrite (Hdeg t (Hlk t Ht)). done. }
  exists l, deg', (queue ++ new). split_and!; [done|done|].
  assert (Hnewk : ∀ t, t ∈ new → t ∈ task_names tasks).
  { intros t (d & _ & Hd)%Hnew. apply Hlk, occ_pos. lia. }
  assert (Hsnoc : ∀ t, (length (pending (result ++ [task]) (deps_of tasks t))
                        + occ t l)%nat = length (pending result (deps_of tasks t))).
  { intros t. rewrite Hocc. by apply pending_snoc. }
  assert (Heq : (result ++ [task]) ++ queue ++ new = (result ++ task :: queue) ++ new).
  { by rewrite <- !app_assoc. }
  split.
  - rewrite Heq. apply NoDup_app. split_and!; [done| |done].
    intros t Hold (d & Hd & Hrange)%Hnew.
    pose proof (Hkeys t Hold) as Ht.
    apply (Hready t Ht) in Hold. rewrite (Hdeg t Ht), Hold in Hd.
    simpl in Hd. injection Hd as <-. lia.
  - rewrite Heq. intros t [Hold|Hn]%elem_of_app; [by apply Hkeys|by apply Hnewk].
  - intros t Ht. rewrite Hdeg', (Hdeg t Ht). simpl. f_equal.
    specialize (Hsnoc t). lia.
  - intros t Ht. rewrite Heq, elem_of_app, (Hready t Ht), Hnew, (Hdeg t Ht).
    specialize (Hsnoc t). rewrite <- !length_zero_iff_nil. split.
    + intros [Hz|(d & Hd & Hrange)]; [lia|]. injection Hd as <-. lia.
    + intros Hz.
      destruct (decide (length (pending result (deps_of tasks t)) = 0%nat)) as [?|Hnz];
        [by left|right].
      eexists. split; [done|]. lia.
  - intros i t Hi d Hd. apply lookup_app_Some in Hi as [Hi|[Hlen Hi]].
    + destruct (Hsorted i t Hi d Hd) as (j & Hj & Hjd). exists j. split; [done|].
      by apply lookup_app_l_Some.
    + apply list_lookup_singleton_Some in Hi as [Hi <-].
      assert (Hin : task ∈ result ++ task :: queue) by (apply elem_of_app; right; left).
      apply (Hready task Htask) in Hin. rewrite pending_empty in Hin.
      apply Hin, list_elem_of_lookup in Hd as [j Hj]. exists j. split.
      * apply lookup_lt_Some in Hj. lia.
      * by apply lookup_app_l_Some.
Qed.

Lemma kahn_inv_length tasks in_degree queue result :
  kahn_inv tasks in_degree queue result →
  (length result + length queue ≤ length tasks)%nat.
Proof.
  intros [Hnd Hkeys _ _ _]. rewrite <- length_app.
  replace (length tasks) with (length (task_names tasks))
    by (unfold task_names; by rewrite length_fmap).
  apply submseteq_length, NoDup_submseteq; done.
Qed.

Lemma kahn_loop_spec tasks adjacency :
  adjacency_for tasks adjacency →
  ∀ fuel in_degree queue result,
    kahn_inv tasks in_degree queue result →
    (length tasks < fuel + length result)%nat →
    ∃ r in_degree',
      kahn_loop fuel adjacency in_degree queue result = Some (Ret r) ∧
      kahn_inv tasks in_degree' [] r.
Proof.
  intros Hadj. induction fuel as [|fuel IH]; intros deg queue result Hinv Hfuel.
  - apply kahn_inv_length in Hinv. lia.
  - destruct queue as [|task queue]; simpl.
    + by exists result, deg.
    + destruct (kahn_step _ _ _ _ _ _ Hadj Hinv) as (l & deg' & q' & -> & -> & Hinv').
      apply IH; [done|]. rewrite length_app. simpl.
      apply kahn_inv_length in Hinv. simpl in Hinv. lia.
Qed.

Lemma tc_target tasks x y : tc (edge tasks) x y → y ∈ node_set tasks.
Proof. induction 1 as [x y H|]; [by eapply edge_target|done]. Qed.

Lemma acyclic_sn tasks t : acyclic tasks → sn (edge tasks) t.
Proof.
  intros Hac. apply tc_finite_sn.
  - intros c Hc. by apply (Hac c).
  - exists (elements (node_set tasks)). intros y Hy. apply elem_of_elements.
    by eapply tc_target.
Qed.

Lemma kahn_complete tasks in_degree result :
  acyclic tasks → deps_closed tasks →
  kahn_inv tasks in_degree [] result →
  ∀ t, t ∈ task_names tasks → t ∈ result.
Proof.
  intros Hac Hcl [_ _ _ Hready _] t.
  induction (acyclic_sn tasks t Hac) as [t _ IH]. intros Ht.
  specialize (Hready t Ht). rewrite app_nil_r in Hready. apply Hready.
  apply pending_empty. intros d Hd. apply IH; [done|]. by apply (Hcl t d).
Qed.

Lemma kahn_result_perm tasks in_degree result :
  wf_tasks tasks → acyclic tasks → deps_closed tasks →
  kahn_inv tasks in_degree [] result →
  result ≡ₚ task_names tasks.
Proof.
  intros Hwf Hac Hcl Hinv. apply NoDup_Permutation.
  - destruct Hinv as [Hnd _ _ _ _]. by rewrite app_nil_r in Hnd.
  - done.
  - intros t. split.
    + intros Ht. apply (ki_keys _ _ _ _ Hinv). by rewrite app_nil_r.
    + by eapply kahn_complete.
Qed.

Lemma topological_sort_valid order tasks eng :
  wf_tasks tasks → order ≡ₚ task_names tasks → acyclic tasks → deps_closed tasks →
  ∃ result,
    topological_sort order tasks eng
      = Some (Ret result,
              set_execution_order eng (record_order 1 result (execution_order eng))) ∧
    result ≡ₚ task_names tasks ∧
    ∀ i t, result !! i = Some t → ∀ d, d ∈ deps_of tasks t →
      ∃ j, (j < i)%nat ∧ result !! j = Some d.
Proof.
  intros Hwf Hperm Hac Hcl. unfold topological_sort, kahn_order.
  rewrite validate_ok by done.
  destruct (build_graph_tasks tasks Hwf Hcl) as ([deg adj] & -> & Htab).
  pose proof (kahn_inv_init tasks _ Hwf Htab) as Hinit. simpl in Hinit.
  destruct (kahn_loop_spec tasks adj (proj2 Htab) (S (length tasks)) deg
              (initial_queue tasks deg) [] Hinit) as (r & deg' & -> & Hfinal).
  { simpl. lia. }
  exists r. split_and!; [done|by eapply kahn_result_perm|].
  apply (ki_sorted _ _ _ _ Hfinal).
Qed.


Lemma invocations_app tr1 tr2 : invocations (tr1 ++ tr2) = invocations tr1 ++ invocations tr2.
Proof. apply omap_app. Qed.
Lemma sleeps_app tr1 tr2 : sleeps (tr1 ++ tr2) = sleeps tr1 ++ sleeps tr2.
Proof. apply omap_app. Qed.

Lemma invocations_retry_trace task_name ty ord attempt n :
  invocations (retry_trace task_name ty ord attempt n) = replicate n task_name.
Proof.
  revert attempt. induction n as [|n IH]; intros attempt; [done|].
  simpl. unfold invocations in *. simpl. by rewrite IH.
Qed.

Lemma sleeps_retry_trace task_name ty ord attempt n :
  sleeps (retry_trace task_name ty ord attempt n)
  = (λ i, 2 ^ (attempt + Z.of_nat i)) <$> seq 0 n.
Proof.
  revert attempt. induction n as [|n IH]; intros attempt; [done|].
  simpl. unfold sleeps in *. simpl. rewrite IH. f_equal; [f_equal; lia|].
  rewrite <- seq_shift, <- list_fmap_compose. apply list_fmap_ext.
  intros _ i _. simpl. f_equal. lia.
Qed.

Section RetryProps.
Context {W : Type}.
Context (watermark_query : W → res py_exception (list (gmap string pyval))).
Context (clock : W → Z) (sleep : Z → W → W).

Lemma retry_loop_failing task_name cfg (exec : executor) N :
  always_raises exec →
  ∀ n fuel attempt last_error eng w tr,
    (n < fuel)%nat → 0 ≤ attempt → attempt + Z.of_nat n = N →
    ∃ e w',
      retry_loop clock sleep fuel task_name cfg exec N attempt last_error eng w tr
      = Some (false,
              TaskFailed (N + 1) (exc_type e) (exc_message e) (exc_traceback e),
              eng, w',
              tr ++ retry_trace task_name (default "unknown" (task_type cfg))
                      (default 0 (execution_order eng !! task_name)) attempt n
                 ++ final_failure_trace task_name
                      (default "unknown" (task_type cfg))
                      (default 0 (execution_order eng !! task_name)) (N + 1) e).
Proof.
  intros Hfail. induction n as [|n IH]; intros fuel attempt last eng w tr Hfuel Ha HN.
  - destruct fuel as [|fuel]; [lia|]. simpl.
    rewrite decide_True by lia.
    destruct (Hfail w) as (e & w' & ->).
    rewrite decide_False by lia.
    exists e, w'. unfold final_failure_trace.
    replace (attempt + 1) with (N + 1) by lia.
    by rewrite <- !app_assoc.
  - destruct fuel as [|fuel]; [lia|]. simpl.
    rewrite decide_True by lia.
    destruct (Hfail w) as (e & w' & ->).
    rewrite decide_True by lia.
    destruct (IH fuel (attempt + 1) (Some e) eng (sleep (2 ^ (attempt + 1 - 1)) w')
                ((tr ++ [LogTaskStart task_name (default "unknown" (task_type cfg))
                           (default 0 (execution_order eng !! task_name)) (attempt + 1);
                         Invoke task_name]) ++ [Sleep (2 ^ (attempt + 1 - 1))]))
      as (e' & w'' & ->); [lia..|].
    exists e', w''. do 2 f_equal. rewrite <- !app_assoc. simpl.
    replace (attempt + 1 - 1) with attempt by lia. done.
Qed.
End RetryProps.


Section SkipAndRetry.
Context {W : Type}.
Context (watermark_query : W → res py_exception (list (gmap string pyval))).
Context (clock : W → Z) (sleep : Z → W → W).

(** Claim C3.  With [max_retries = N >= 0] and an executor that raises on
    every invocation, [execute_task_with_retries] makes [N + 1] attempts:
    the events are, for [i = 1..N], the start of attempt [i], the invocation
    and a sleep of [2 ^ (i - 1)] seconds, then the start of attempt [N + 1],
    the invocation and the failure notification, with no sleep after it.
    The call returns [success = False] with status [FAILED]. *)
Theorem C3_always_failing_task task_name cfg (exec : executor) N eng (w : W) tr :
  0 ≤ N → always_raises exec →
  ∃ e w' new,
    execute_task_with_retries clock sleep task_name cfg exec N eng w tr
    = Some (false,
            TaskFailed (N + 1) (exc_type e) (exc_message e) (exc_traceback e),
            eng, w', tr ++ new) ∧
    new = retry_trace task_name (default "unknown" (task_type cfg))
            (default 0 (execution_order eng !! task_name)) 0 (Z.to_nat N)
          ++ final_failure_trace task_name (default "unknown" (task_type cfg))
               (default 0 (execution_order eng !! task_name)) (N + 1) e ∧
    invocations new = replicate (Z.to_nat (N + 1)) task_name ∧
    sleeps new = (λ i, 2 ^ Z.of_nat i) <$> seq 0 (Z.to_nat N) ∧
    result_status
      (TaskFailed (N + 1) (exc_type e) (exc_message e) (exc_traceback e)) = "FAILED".
Proof.
  intros HN Hfail. unfold execute_task_with_retries.
  destruct (retry_loop_failing clock sleep task_name cfg exec N Hfail (Z.to_nat N)
              (S (Z.to_nat (N + 1))) 0 None eng w tr) as (e & w' & Hrun); [lia..|].
  exists e, w'. eexists. split; [exact Hrun|]. split; [done|].
  rewrite invocations_app, sleeps_app, invocations_retry_trace, sleeps_retry_trace.
  split_and!; [|by rewrite app_nil_r|done].
  replace (Z.to_nat (N + 1)) with (Z.to_nat N + 1)%nat by lia.
  by rewrite replicate_add.
Qed.

(** Claim C9.  [should_skip_task] returns [False] when the skip condition is
    absent (or empty), when it is not the recognized predicate, and when the
    query behind the recognized predicate raises; the loop body then goes on
    with the dependency check and the execution. *)
Theorem C9_should_skip_fails_open tasks (executors : gmap string executor)
    task_name cfg (st : run_state) :
  tasks_get tasks task_name = Some cfg →
  non_positive_case watermark_query (rs_world st) (skip_on_condition cfg) →
  should_skip_task watermark_query (rs_world st) task_name (skip_on_condition cfg)
    = false ∧
  run_task watermark_query clock sleep tasks executors task_name st
    = check_and_execute clock sleep executors task_name cfg st.
Proof.
  intros Hget Hcase.
  assert (Hskip : should_skip_task watermark_query (rs_world st) task_name
                    (skip_on_condition cfg) = false).
  { unfold should_skip_task.
    destruct Hcase as [->|[->|[(c & -> & Hc)|[-> [e ->]]]]]; try done.
    destruct (decide (c = "")); [done|]. by rewrite decide_False. }
  split; [done|]. unfold run_task. by rewrite Hget, Hskip.
Qed.

(** What [execute_task_with_retries] leaves behind. *)
Lemma retry_loop_spec task_name cfg (exec : executor) N :
  ∀ fuel attempt last_error eng (w : W) tr ok r eng' w' tr',
    retry_loop clock sleep fuel task_name cfg exec N attempt last_error eng w tr
      = Some (ok, r, eng', w', tr') →
    task_results eng' = task_results eng ∧
    execution_order eng' = execution_order eng ∧
    result_status r = (if ok then "SUCCESS" else "FAILED") ∧
    ∃ new, tr' = tr ++ new ∧ no_end_run new.
Proof.
  induction fuel as [|fuel IH]; intros attempt last eng w tr ok r eng' w' tr' Hrun;
    [done|].
  simpl in Hrun. case_decide.
  - destruct (exec w) as [[result|e] w1].
    + simplify_eq. split_and!; try done. eexists. rewrite <- app_assoc.
      split; [done|]. repeat constructor.
    + case_decide.
      * apply IH in Hrun as (? & ? & ? & new & -> & Hnew). split_and!; try done.
        exists ([LogTaskStart task_name (default "unknown" (task_type cfg))
                   (default 0 (execution_order eng !! task_name)) (attempt + 1);
                 Invoke task_name; Sleep (2 ^ (attempt + 1 - 1))] ++ new).
        split; [by rewrite <- !app_assoc|].
        unfold no_end_run in *. simpl. by repeat (apply Forall_cons; split; [done|]).
      * simplify_eq. split_and!; try done. eexists. rewrite <- app_assoc.
        split; [done|]. repeat constructor.
  - simplify_eq. split_and!; try done. exists [].
    split; [by rewrite app_nil_r|constructor].
Qed.

Lemma execute_task_with_retries_total task_name cfg (exec : executor) N eng (w : W) tr :
  is_Some (execute_task_with_retries clock sleep task_name cfg exec N eng w tr).
Proof.
  unfold execute_task_with_retries.
  assert (Hgen : ∀ n fuel attempt last w tr,
    (n < fuel)%nat → (N + 1 - attempt ≤ Z.of_nat n) →
    is_Some (retry_loop clock sleep fuel task_name cfg exec N attempt last eng w tr)).
  { induction n as [|n IH]; intros fuel attempt last w0 tr0 Hf Ha.
    - destruct fuel; [lia|]. simpl. rewrite decide_False by lia. done.
    - destruct fuel; [lia|]. simpl. case_decide; [|done].
      destruct (exec w0) as [[result|e] w1]; [done|].
      case_decide; [|done]. apply IH; lia. }
  apply (Hgen (Z.to_nat (N + 1))); lia.
Qed.
End SkipAndRetry.


Ltac run_task_cases H :=
  unfold run_task, check_and_execute in H;
  repeat match type of H with
         | context [match ?x with _ => _ end] => destruct x eqn:?
         end;
  simplify_eq.

Section RunProps.
Context {W : Type}.
Context (watermark_query : W → res py_exception (list (gmap string pyval))).
Context (clock : W → Z) (sleep : Z → W → W).
Context (tasks : task_set) (executors : gmap string (executor (W:=W))).

Abbreviation rtask := (run_task watermark_query clock sleep tasks executors).
Abbreviation rplan := (run_plan watermark_query clock sleep tasks executors).

Lemma run_task_trace task_name st out :
  rtask task_name st = Some out →
  ∃ new, rs_trace (step_state out) = rs_trace st ++ new ∧ no_end_run new.
Proof.
  intros H. run_task_cases H; simpl;
    try (exists []; split; [by rewrite app_nil_r|constructor]);
    try (eexists; split; [done|]; by repeat constructor).
  all: match goal with
       | H : execute_task_with_retries _ _ _ _ _ _ _ _ _ = Some _ |- _ =>
           apply retry_loop_spec in H as (_ & _ & _ & new & -> & ?); by exists new
       end.
Qed.

Lemma run_plan_trace plan : ∀ st out,
  rplan plan st = Some out →
  ∃ new, rs_trace (step_state out) = rs_trace st ++ new ∧ no_end_run new.
Proof.
  induction plan as [|t plan IH]; intros st out Hrun; simpl in Hrun.
  - simplify_eq. exists []. split; [by rewrite app_nil_r|constructor].
  - destruct (rtask t st) as [[st1|e st1]|] eqn:Ht; [|simplify_eq|done].
    + apply run_task_trace in Ht as (n1 & Hn1 & ?). simpl in Hn1.
      apply IH in Hrun as (n2 & -> & ?). exists (n1 ++ n2).
      rewrite Hn1, <- app_assoc. split; [done|]. by apply Forall_app.
    + by apply run_task_trace in Ht.
Qed.

Lemma run_task_total task_name st : is_Some (rtask task_name st).
Proof.
  unfold run_task, check_and_execute.
  repeat match goal with
         | |- context [match ?x with _ => _ end] =>
             lazymatch x with
             | execute_task_with_retries _ _ _ _ _ _ _ _ _ => fail
             | _ => destruct x eqn:?
             end
         end; try done.
  all: match goal with
       | |- context [execute_task_with_retries ?c ?s ?n ?cfg ?e ?N ?eng ?w ?tr] =>
           destruct (execute_task_with_retries_total c s n cfg e N eng w tr)
             as [[[[[ok r] eng'] w'] tr'] ->]
       end.
  all: repeat case_match; done.
Qed.

Lemma run_plan_total plan : ∀ st, is_Some (rplan plan st).
Proof.
  induction plan as [|t plan IH]; intros st; simpl; [done|].
  destruct (run_task_total t st) as [[st1|e st1] ->]; [apply IH|done].
Qed.
End RunProps.


Lemma validate_Ret_inv order tasks b :
  wf_tasks tasks → order ≡ₚ task_names tasks →
  validate_dependency_graph order tasks = Some (Ret b) →
  acyclic tasks ∧ deps_closed tasks.
Proof.
  intros Hwf Hperm. unfold validate_dependency_graph.
  destruct (check_cycles_start tasks order Hperm) as [r [-> Hpost]].
  destruct r as [st|e]; [|done].
  destruct (check_missing _ tasks) eqn:E; [done|]. intros _. split; [done|].
  rewrite check_missing_None in E. intros a b' (cfg & Hin & Hb)%edge_iff; [|done].
  pose proof (E a cfg b' Hin Hb) as Hx. by rewrite elem_of_list_to_set in Hx.
Qed.

Lemma validate_total order tasks :
  order ≡ₚ task_names tasks → is_Some (validate_dependency_graph order tasks).
Proof.
  intros Hperm. unfold validate_dependency_graph.
  destruct (check_cycles_start tasks order Hperm) as [r [-> _]].
  destruct r; [by destruct (check_missing _ _)|done].
Qed.

Lemma topological_sort_Ret_inv order tasks eng plan eng' :
  wf_tasks tasks → order ≡ₚ task_names tasks →
  topological_sort order tasks eng = Some (Ret plan, eng') →
  acyclic tasks ∧ deps_closed tasks ∧ plan ≡ₚ task_names tasks ∧
  eng' = set_execution_order eng (record_order 1 plan (execution_order eng)) ∧
  ∀ i t, plan !! i = Some t → ∀ d, d ∈ deps_of tasks t →
    ∃ j, (j < i)%nat ∧ plan !! j = Some d.
Proof.
  intros Hwf Hperm Hsort.
  assert (Hv : ∃ b, validate_dependency_graph order tasks = Some (Ret b)).
  { unfold topological_sort in Hsort.
    destruct (validate_dependency_graph order tasks) as [[b|e]|]; [by exists b|done..]. }
  destruct Hv as [b Hv]. apply validate_Ret_inv in Hv as [Hac Hcl]; [|done..].
  destruct (topological_sort_valid order tasks eng Hwf Hperm Hac Hcl)
    as (result & Heq & Hp & Hs).
  rewrite Heq in Hsort. by simplify_eq.
Qed.

Lemma topological_sort_total order tasks eng :
  wf_tasks tasks → order ≡ₚ task_names tasks →
  is_Some (topological_sort order tasks eng).
Proof.
  intros Hwf Hperm. unfold topological_sort.
  destruct (validate_dependency_graph order tasks) as [[b|e]|] eqn:Hv.
  - destruct (validate_Ret_inv _ _ _ Hwf Hperm Hv) as [Hac Hcl].
    destruct (topological_sort_valid order tasks eng Hwf Hperm Hac Hcl)
      as (result & Heq & _). unfold topological_sort in Heq.
    rewrite validate_ok in Heq by done. rewrite Heq. by eexists.
  - done.
  - destruct (validate_total order tasks Hperm) as [x Hx]. congruence.
Qed.

(** The plan and the errors do not depend on the engine. *)
Lemma topological_sort_engine order tasks eng :
  topological_sort order tasks eng
  = (λ r, (r.1, match r.1 with
                | Ret plan => set_execution_order eng
                                (record_order 1 plan (execution_order eng))
                | Raise _ => eng
                end)) <$> topological_sort order tasks new_engine.
Proof.
  unfold topological_sort.
  destruct (validate_dependency_graph order tasks) as [[b|e]|]; [|done..].
  by destruct (kahn_order tasks) as [[r|e]|].
Qed.

Section PipelineProps.
Context {W : Type}.
Context (watermark_query : W → res py_exception (list (gmap string pyval))).
Context (clock : W → Z) (sleep : Z → W → W).

Abbreviation pipeline := (execute_pipeline watermark_query clock sleep).

End PipelineProps.


(** Claim C4.  On a task set with distinct names whose dependency graph is
    acyclic and whose dependencies all name tasks of the set,
    [topological_sort] returns a list that is a permutation of the task names
    without repetition, in which every task stands at a position strictly
    after the position of each task of its [depends_on]. *)
Theorem C4_topological_sort_is_sorted_permutation order tasks eng :
  wf_tasks tasks → order ≡ₚ task_names tasks →
  acyclic tasks → deps_closed tasks →
  ∃ result eng',
    topological_sort order tasks eng = Some (Ret result, eng') ∧
    result ≡ₚ task_names tasks ∧ NoDup result ∧
    ∀ t cfg d, (t, cfg) ∈ tasks → d ∈ depends_on cfg →
      ∃ i j, result !! j = Some d ∧ result !! i = Some t ∧ (j < i)%nat.
Proof.
  intros Hwf Hperm Hac Hcl.
  destruct (topological_sort_valid order tasks eng Hwf Hperm Hac Hcl)
    as (result & Heq & Hp & Hs).
  exists result. eexists. split; [exact Heq|]. split; [done|].
  split; [by rewrite Hp|].
  intros t cfg d Hin Hd.
  assert (Ht : t ∈ result).
  { rewrite Hp. apply list_elem_of_fmap. by exists (t, cfg). }
  apply list_elem_of_lookup in Ht as [i Hi].
  destruct (Hs i t Hi d) as (j & Hj & Hjd).
  { unfold deps_of. by rewrite (tasks_get_NoDup _ _ _ Hwf Hin). }
  by exists i, j.
Qed.

Section GraphErrors.
Context {W : Type}.
Context (watermark_query : W → res py_exception (list (gmap string pyval))).
Context (clock : W → Z) (sleep : Z → W → W).
Abbreviation pipeline := (execute_pipeline watermark_query clock sleep).

(** Claim C5, as amended.  When the [depends_on] edges contain a cycle,
    [validate_dependency_graph] raises the circular-dependency error, and so
    do [topological_sort] and [execute_pipeline] (which returns the failure
    with the world and the trace unchanged: no executor is invoked).  The
    task named by the error is a task of the set from which a cycle can be
    reached; it is the root of the traversal that met the cycle and need not
    lie on it. *)
Theorem C5_cycle_error_names_a_task_reaching_a_cycle order tasks
    (executors : gmap string executor) eng (w : W) tr :
  order ≡ₚ task_names tasks → has_cycle_graph tasks →
  ∃ t, t ∈ task_names tasks ∧ reaches_cycle tasks t ∧
    validate_dependency_graph order tasks = Some (Raise (Circular t)) ∧
    topological_sort order tasks eng
      = Some (Raise (TaskDependencyError (Circular t)), eng) ∧
    pipeline order tasks executors eng w tr
      = Some (Ret (DependencyFailure (graph_error_message (Circular t))), eng, w, tr).
Proof.
  intros Hperm Hcyc.
  destruct (validate_cyclic order tasks Hperm Hcyc) as (t & Hv & Ht & Hr).
  exists t. split_and!; try done.
  - unfold topological_sort. by rewrite Hv.
  - unfold execute_pipeline, topological_sort. by rewrite Hv.
Qed.

(** Claim C8.  When the graph has no cycle and some task depends on a name
    that is not a task of the set, validation raises the error for a task
    and a dependency of it that is not in the set, and [execute_pipeline]
    returns the failure with that message; the engine, the world and the
    trace are unchanged, so no executor was invoked and no task ran. *)
Theorem C8_missing_dependency_fails_before_execution order tasks
    (executors : gmap string executor) eng (w : W) tr :
  wf_tasks tasks → order ≡ₚ task_names tasks → acyclic tasks →
  (∃ t cfg d, (t, cfg) ∈ tasks ∧ d ∈ depends_on cfg ∧ d ∉ task_names tasks) →
  ∃ t cfg d, (t, cfg) ∈ tasks ∧ d ∈ depends_on cfg ∧ (d ∉ task_names tasks) ∧
    validate_dependency_graph order tasks = Some (Raise (NonExistent t d)) ∧
    topological_sort order tasks eng
      = Some (Raise (TaskDependencyError (NonExistent t d)), eng) ∧
    pipeline order tasks executors eng w tr
      = Some (Ret (DependencyFailure (graph_error_message (NonExistent t d))),
              eng, w, tr).
Proof.
  intros Hwf Hperm Hac (t0 & cfg0 & d0 & Hin0 & Hd0 & Hno0).
  destruct (validate_missing order tasks Hwf Hperm Hac) as (t & d & Hv & He & Hno).
  { exists t0, d0. split; [|done]. apply edge_iff; eauto. }
  apply (edge_iff _ _ _ Hwf) in He as (cfg & Hin & Hd).
  exists t, cfg, d. split_and!; try done.
  - unfold topological_sort. by rewrite Hv.
  - unfold execute_pipeline, topological_sort. by rewrite Hv.
Qed.
End GraphErrors.


Section SummaryProps.
Context {W : Type}.
Context (watermark_query : W → res py_exception (list (gmap string pyval))).
Context (clock : W → Z) (sleep : Z → W → W).
Context (tasks : task_set) (executors : gmap string (executor (W:=W))).

Abbreviation rtask := (run_task watermark_query clock sleep tasks executors).
Abbreviation rplan := (run_plan watermark_query clock sleep tasks executors).

Lemma summary_inv_init plan : summary_inv executors [] (initial_summary plan).
Proof.
  split; simpl; done.
Qed.

Lemma without_executor_snoc failed t :
  without_executor executors (failed ++ [t])
  = (without_executor executors failed
     + if decide (executors !! t = None) then 1 else 0)%nat.
Proof.
  unfold without_executor. rewrite filter_app, length_app. f_equal.
  rewrite filter_cons, filter_nil. by case_decide.
Qed.

Lemma run_task_summary task_name st st' processed :
  task_name ∉ processed →
  summary_inv executors processed (rs_summary st) →
  rtask task_name st = Some (Continue st') →
  summary_inv executors (processed ++ [task_name]) (rs_summary st') ∧
  total_tasks (rs_summary st') = total_tasks (rs_summary st).
Proof.
  intros Hfresh [Hc Hn Hf Hs He] H.
  assert (Hentries : ∀ t r, summary_task_results (rs_summary st) !! t = Some r →
            t ∈ processed ++ [task_name] ∧ is_Some (executors !! t) ∧
            (result_status r = "SUCCESS" ∨ result_status r = "FAILED")).
  { intros t r Hl. destruct (He t r Hl) as (? & ? & ?). split_and!; try done.
    apply elem_of_app. by left. }
  assert (Hnone : summary_task_results (rs_summary st) !! task_name = None).
  { destruct (summary_task_results (rs_summary st) !! task_name) as [r|] eqn:E;
      [|done]. by destruct (He _ _ E) as (? & _). }
  run_task_cases H; (split; [|done]); split; simpl;
    rewrite ?length_app, ?without_executor_snoc; simpl; try lia; try done.
  all: try (rewrite decide_True by done; lia).
  all: try match goal with
       | H : execute_task_with_retries _ _ _ _ _ _ _ _ _ = Some _ |- _ =>
           apply retry_loop_spec in H as (_ & _ & Hst & _)
       end.
  all: try (rewrite map_size_insert_None by done;
            rewrite ?decide_False by (by intros ?; simplify_eq); lia).
  all: intros name0 res0 Hl; apply lookup_insert_Some in Hl as [[<- <-]|[? Hl]];
    [|by apply Hentries].
  all: split_and!; [apply elem_of_app; right; left|done|rewrite Hst; auto].
Qed.

Lemma run_plan_summary plan : ∀ st st' processed,
  NoDup (processed ++ plan) →
  summary_inv executors processed (rs_summary st) →
  rplan plan st = Some (Continue st') →
  summary_inv executors (processed ++ plan) (rs_summary st') ∧
  total_tasks (rs_summary st') = total_tasks (rs_summary st).
Proof.
  induction plan as [|t plan IH]; intros st st' processed Hnd Hinv Hrun;
    simpl in Hrun.
  - simplify_eq. by rewrite app_nil_r.
  - destruct (rtask t st) as [[st1|e st1]|] eqn:Ht; [|done..].
    apply run_task_summary with (processed := processed) in Ht as [Hinv1 Htot1];
      [|by apply NoDup_app in Hnd as (_ & Hd & _); intros Hin;
         apply (Hd _ Hin); left|done].
    replace (processed ++ t :: plan) with ((processed ++ [t]) ++ plan) in *
      by by rewrite <- app_assoc.
    destruct (IH st1 st' _ Hnd Hinv1 Hrun) as [? ?]. split; [done|congruence].
Qed.

(** Claim C7, as amended.  In the summary returned by a run that completes,
    [task_results] has an entry exactly for the tasks that were handed to
    [execute_task_with_retries]: each entry belongs to a task of the set that
    has an executor and has status [SUCCESS] or [FAILED], and the number of
    entries is the number of tasks less the skipped ones (on their condition
    or for a dependency) and less the ones without an executor. *)
Theorem C7_summary_results_cover_executed_tasks_only order eng (w : W) tr
    ok s eng' w' tr' :
  wf_tasks tasks → order ≡ₚ task_names tasks →
  execute_pipeline watermark_query clock sleep order tasks executors eng w tr
    = Some (Ret (Completed ok s), eng', w', tr') →
  total_tasks s = Z.of_nat (length tasks) ∧
  total_tasks s = successful_tasks s + failed_tasks s + skipped_tasks s ∧
  Z.of_nat (size (summary_task_results s))
    = total_tasks s - skipped_tasks s
      - Z.of_nat (without_executor executors (failed_tasks_list s)) ∧
  ∀ t r, summary_task_results s !! t = Some r →
    t ∈ task_names tasks ∧ is_Some (executors !! t) ∧
    (result_status r = "SUCCESS" ∨ result_status r = "FAILED").
Proof.
  intros Hwf Hperm Hrun. unfold execute_pipeline in Hrun.
  destruct (topological_sort order tasks eng) as [[[plan|e] eng1]|] eqn:Hsort;
    [| |done].
  - apply topological_sort_Ret_inv in Hsort as (_ & _ & Hp & _ & _); [|done..].
    destruct (run_plan _ _ _ _ _ _ _) as [[st|e st]|] eqn:Hplan; [|done..].
    simplify_eq.
    apply run_plan_summary with (processed := []) in Hplan as [[Hc Hn Hf Hs He] Ht].
    + simpl in *. rewrite Hp in Hc. unfold task_names in Hc.
      rewrite length_fmap in Hc. rewrite Ht.
      assert (length plan = length tasks) as ->.
      { rewrite Hp. unfold task_names. by rewrite length_fmap. }
      split_and!; [done|lia|lia|].
      intros t r Hl. destruct (He t r Hl) as (? & ? & ?). split_and!; try done.
      by rewrite <- Hp.
    + simpl. rewrite Hp. done.
    + apply summary_inv_init.
  - destruct e; simplify_eq.
Qed.
End SummaryProps.







Section Agreement.
Context {W : Type}.
Context (watermark_query : W → res py_exception (list (gmap string pyval))).
Context (clock : W → Z) (sleep : Z → W → W).
Context (tasks : task_set) (executors : gmap string (executor (W:=W))).

Abbreviation rtask := (run_task watermark_query clock sleep tasks executors).
Abbreviation rplan := (run_plan watermark_query clock sleep tasks executors).



End Agreement.


Lemma dependencies_succeeded_blocked eng deps dep :
  dep ∈ deps → not_succeeded eng dep → dependencies_succeeded eng deps = false.
Proof.
  intros Hin Hno. unfold dependencies_succeeded. apply not_true_is_false.
  intros Hall. rewrite forallb_forall in Hall. apply Hno.
  apply list_elem_of_In in Hin. apply Hall in Hin. by apply bool_decide_eq_true in Hin.
Qed.

Section TwoRuns.
Context {W : Type}.
Context (watermark_query : W → res py_exception (list (gmap string pyval))).
Context (clock : W → Z) (sleep : Z → W → W).
Abbreviation pipeline := (execute_pipeline watermark_query clock sleep).
Abbreviation rtask := (run_task watermark_query clock sleep).
Abbreviation rplan := (run_plan watermark_query clock sleep).

Lemma execute_pipeline_unfold order tasks (executors : gmap string executor)
    eng (w : W) tr plan eng1 :
  topological_sort order tasks eng = Some (Ret plan, eng1) →
  pipeline order tasks executors eng w tr
  = match rplan tasks executors plan
            {| rs_engine := eng1; rs_summary := initial_summary plan;
               rs_world := w; rs_trace := tr |} with
    | None => None
    | Some (Raised e st) => Some (Raise e, rs_engine st, rs_world st, rs_trace st)
    | Some (Continue st) =>
        Some (Ret (Completed (bool_decide (failed_tasks (rs_summary st) = 0))
                     (rs_summary st)),
              rs_engine st, rs_world st,
              rs_trace st ++ [EndRun
                (overall_status_of (bool_decide (failed_tasks (rs_summary st) = 0)))
                (successful_tasks (rs_summary st)) (failed_tasks (rs_summary st))
                (skipped_tasks (rs_summary st))
                (error_summary_of (failed_tasks_list (rs_summary st)))])
    end.
Proof. intros Hs. unfold execute_pipeline. by rewrite Hs. Qed.

End TwoRuns.


Section MissingExecutor.
Context {W : Type}.
Context (watermark_query : W → res py_exception (list (gmap string pyval))).
Context (clock : W → Z) (sleep : Z → W → W).
Context (tasks : task_set) (executors : gmap string (executor (W:=W))).
Abbreviation rtask := (run_task watermark_query clock sleep tasks executors).
Abbreviation rplan := (run_plan watermark_query clock sleep tasks executors).

Lemma run_task_other_result task_name t st out :
  t ≠ task_name → rtask t st = Some out →
  task_results (rs_engine (step_state out)) !! task_name
  = task_results (rs_engine st) !! task_name.
Proof.
  intros Hne H. run_task_cases H; simpl; try done;
    try (by rewrite lookup_insert_ne).
  all: match goal with
       | H : execute_task_with_retries _ _ _ _ _ _ _ _ _ = Some _ |- _ =>
           apply retry_loop_spec in H as (-> & _)
       end; by rewrite lookup_insert_ne.
Qed.

Lemma run_task_failed_mono t st out :
  rtask t st = Some out →
  failed_tasks (rs_summary st) ≤ failed_tasks (rs_summary (step_state out)).
Proof. intros H. run_task_cases H; simpl; lia. Qed.

Lemma run_plan_later task_name plan : ∀ st st',
  task_name ∉ plan → rplan plan st = Some (Continue st') →
  task_results (rs_engine st') !! task_name
    = task_results (rs_engine st) !! task_name ∧
  failed_tasks (rs_summary st) ≤ failed_tasks (rs_summary st').
Proof.
  induction plan as [|t plan IH]; intros st st' Hnot Hrun; simpl in Hrun.
  - by simplify_eq.
  - apply not_elem_of_cons in Hnot as [Hne Hnot].
    destruct (rtask t st) as [[st1|e st1]|] eqn:Ht; [|done..].
    destruct (IH st1 st' Hnot Hrun) as [-> Hle].
    pose proof (run_task_other_result task_name t st _ (not_eq_sym Hne) Ht) as Hr.
    pose proof (run_task_failed_mono t st _ Ht) as Hm. simpl in *.
    split; [done|lia].
Qed.

(** Claim C10, as amended.  A task without executor that passed the skip and
    the dependency checks is counted as failed and nothing else happens: no
    exception even when it is critical, no result recorded, no event, and the
    loop continues.  From then on the run cannot end with success.  Provided
    the engine holds no [SUCCESS] result for the task (as on a fresh engine),
    every task that depends on it and is reached later is blocked: a
    critical one raises, another one is skipped. *)
Theorem C10_missing_executor_counts_failed_without_abort task_name cfg st :
  tasks_get tasks task_name = Some cfg →
  should_skip_task watermark_query (rs_world st) task_name (skip_on_condition cfg)
    = false →
  dependencies_succeeded (rs_engine st) (depends_on cfg) = true →
  executors !! task_name = None →
  not_succeeded (rs_engine st) task_name →
  0 ≤ failed_tasks (rs_summary st) →
  rtask task_name st = Some (Continue (with_failed st task_name)) ∧
  ∀ later st', task_name ∉ later →
    rplan later (with_failed st task_name) = Some (Continue st') →
    bool_decide (failed_tasks (rs_summary st') = 0) = false ∧
    ∀ dependent cfg', task_name ∈ depends_on cfg' →
      check_and_execute clock sleep executors dependent cfg' st'
      = Some (blocked_outcome dependent cfg' st').
Proof.
  intros Hget Hskip Hdeps Hexec Hno Hfailed. split.
  - unfold run_task, check_and_execute. by rewrite Hget, Hskip, Hdeps, Hexec.
  - intros later st' Hnot Hrun.
    destruct (run_plan_later task_name later _ _ Hnot Hrun) as [Hres Hle].
    simpl in *. split.
    + apply bool_decide_eq_false. lia.
    + intros dependent cfg' Hin. unfold check_and_execute, blocked_outcome.
      rewrite (dependencies_succeeded_blocked _ _ task_name); [|done|].
      * simpl. by destruct (default true (critical cfg')).
      * unfold not_succeeded. by rewrite Hres.
Qed.
End MissingExecutor.


Lemma chain_tasks_plan tyA tyB tyC mA mB mC order eng :
  order ≡ₚ ["A"; "B"; "C"] →
  topological_sort order (chain_tasks tyA tyB tyC mA mB mC) eng
  = Some (Ret ["A"; "B"; "C"],
          set_execution_order eng
            (record_order 1 ["A"; "B"; "C"] (execution_order eng))).
Proof.
  intros Hperm. set (tasks := chain_tasks tyA tyB tyC mA mB mC).
  assert (Hwf : wf_tasks tasks).
  { unfold wf_tasks. simpl. repeat (apply NoDup_cons; split; [set_solver|]).
    constructor. }
  assert (Hv : validate_dependency_graph ["A"; "B"; "C"] tasks = Some (Ret true))
    by (vm_compute; reflexivity).
  destruct (validate_Ret_inv _ _ _ Hwf (reflexivity _) Hv) as [Hac Hcl].
  unfold topological_sort. rewrite validate_ok by done.
  assert (kahn_order tasks = Some (Ret ["A"; "B"; "C"])) as -> by (vm_compute; reflexivity).
  done.
Qed.

Section WorkedExample.
Context {W : Type}.
Context (watermark_query : W → res py_exception (list (gmap string pyval))).
Context (clock : W → Z) (sleep : Z → W → W).

Lemma execute_task_succeeds task_name cfg (exec : executor) N eng (w : W) tr :
  always_returns exec → 0 ≤ N →
  ∃ result w',
    execute_task_with_retries clock sleep task_name cfg exec N eng w tr
    = Some (true, TaskSuccess 1 (clock w' - clock w) result,
            set_execution_time eng task_name (clock w' - clock w), w',
            tr ++ [LogTaskStart task_name (default "unknown" (task_type cfg))
                     (default 0 (execution_order eng !! task_name)) 1;
                   Invoke task_name;
                   LogTaskSuccess task_name
                     (default (PyInt 0) (result !! "rows_processed"))]).
Proof.
  intros Hok HN. unfold execute_task_with_retries. simpl.
  rewrite decide_True by lia. destruct (Hok w) as (result & w' & ->).
  exists result, w'. by rewrite <- app_assoc.
Qed.

Lemma retry_loop_never_succeeds task_name cfg (exec : executor) N :
  always_raises exec →
  ∀ fuel attempt last eng (w : W) tr ok r eng' w' tr',
    retry_loop clock sleep fuel task_name cfg exec N attempt last eng w tr
      = Some (ok, r, eng', w', tr') → ok = false.
Proof.
  intros Hfail. induction fuel as [|fuel IH];
    intros attempt last eng w tr ok r eng' w' tr' Hrun; [done|].
  simpl in Hrun. case_decide; [|by simplify_eq].
  destruct (Hfail w) as (e & w1 & Hw). rewrite Hw in Hrun.
  case_decide; [by eapply IH|by simplify_eq].
Qed.

Lemma execute_task_fails task_name cfg (exec : executor) N eng (w : W) tr :
  always_raises exec →
  ∃ r eng' w' tr',
    execute_task_with_retries clock sleep task_name cfg exec N eng w tr
      = Some (false, r, eng', w', tr') ∧
    result_status r = "FAILED" ∧ task_results eng' = task_results eng.
Proof.
  intros Hfail.
  destruct (execute_task_with_retries_total clock sleep task_name cfg exec N eng w tr)
    as [[[[[ok r] eng'] w'] tr'] Hrun].
  pose proof Hrun as Hrun'. unfold execute_task_with_retries in Hrun'.
  pose proof (retry_loop_never_succeeds _ _ _ _ Hfail _ _ _ _ _ _ _ _ _ _ _ Hrun') as ->.
  apply retry_loop_spec in Hrun' as (Hres & _ & Hst & _).
  exists r, eng', w', tr'. by rewrite Hrun.
Qed.

(** Claim C2, as amended.  For the chain [A] (critical), [B] (depends on [A],
    not critical), [C] (depends on [B], critical), with an executor of [A]
    that succeeds and an executor of [B] that raises on every attempt: [A]
    ends [SUCCESS], [B] ends [FAILED], and on reaching [C] the scheduler
    counts [C] as failed and raises [CriticalTaskFailure].  The summary at
    the raise has successful = 1, failed = 2 (the list is [B; C]),
    skipped = 0; [C] has no entry in the summary's results and the engine's
    entry for [C] is untouched. *)
Theorem C2_blocked_critical_task_is_counted_failed tyA tyB tyC mA mB mC
    (executors : gmap string executor) (execA execB : executor) order eng
    (w : W) tr :
  executors !! "A" = Some execA → executors !! "B" = Some execB →
  always_returns execA → always_raises execB →
  0 ≤ default 2 mA → order ≡ₚ ["A"; "B"; "C"] →
  ∃ st,
    run_plan watermark_query clock sleep (chain_tasks tyA tyB tyC mA mB mC)
      executors ["A"; "B"; "C"] (initial_state ["A"; "B"; "C"] eng w tr)
    = Some (Raised (CriticalTaskFailure
                     "Critical task C blocked by failed dependency") st) ∧
    execute_pipeline watermark_query clock sleep order
      (chain_tasks tyA tyB tyC mA mB mC) executors eng w tr
    = Some (Raise (CriticalTaskFailure
                     "Critical task C blocked by failed dependency"),
            rs_engine st, rs_world st, rs_trace st) ∧
    successful_tasks (rs_summary st) = 1 ∧ failed_tasks (rs_summary st) = 2 ∧
    skipped_tasks (rs_summary st) = 0 ∧
    failed_tasks_list (rs_summary st) = ["B"; "C"] ∧
    result_status <$> task_results (rs_engine st) !! "A" = Some "SUCCESS" ∧
    result_status <$> task_results (rs_engine st) !! "B" = Some "FAILED" ∧
    task_results (rs_engine st) !! "C" = task_results eng !! "C" ∧
    summary_task_results (rs_summary st) !! "C" = None.
Proof.
  intros HA HB HokA HfailB HmA Hperm.
  set (tasks := chain_tasks tyA tyB tyC mA mB mC).
  set (st0 := initial_state ["A"; "B"; "C"] eng w tr).
  (* A runs and succeeds *)
  destruct (execute_task_succeeds "A"
              {| task_type := tyA; depends_on := []; critical := Some true;
                 max_retries := mA; skip_on_condition := None |}
              execA (default 2 mA) (rs_engine st0) w tr HokA HmA)
    as (resA & wA & HrunA).
  (* B runs and fails on every attempt *)
  destruct (execute_task_fails "B"
              {| task_type := tyB; depends_on := ["A"]; critical := Some false;
                 max_retries := mB; skip_on_condition := None |}
              execB (default 2 mB)
              (set_task_result
                 (set_execution_time (rs_engine st0) "A" (clock wA - clock w))
                 "A" (TaskSuccess 1 (clock wA - clock w) resA))
              wA
              (tr ++ [LogTaskStart "A" (default "unknown" tyA)
                        (default 0 (execution_order (rs_engine st0) !! "A")) 1;
                      Invoke "A";
                      LogTaskSuccess "A" (default (PyInt 0) (resA !! "rows_processed"))])
              HfailB)
    as (rB & engB & wB & trB & HrunB & HstB & HresB).
  assert (Hplan :
    run_plan watermark_query clock sleep tasks executors ["A"; "B"; "C"] st0
    = Some (Raised (CriticalTaskFailure
                     "Critical task C blocked by failed dependency")
              (with_failed
                 {| rs_engine := set_task_result engB "B" rB;
                    rs_summary :=
                      count_failed
                        (record_result
                           (count_successful
                              (record_result (initial_summary ["A"; "B"; "C"]) "A"
                                 (TaskSuccess 1 (clock wA - clock w) resA)))
                           "B" rB) "B";
                    rs_world := wB; rs_trace := trB |} "C"))).
  { simpl. unfold run_task at 1. simpl. unfold check_and_execute at 1. simpl.
    rewrite HA. simpl in HrunA. rewrite HrunA. simpl.
    unfold run_task at 1. simpl. unfold check_and_execute at 1. simpl.
    rewrite lookup_insert_eq. simpl. rewrite HB. simpl in HrunB. rewrite HrunB. simpl.
    unfold run_task at 1. simpl. unfold check_and_execute at 1. simpl.
    rewrite lookup_insert_eq. simpl. rewrite HstB. simpl. reflexivity. }
  eexists. split; [exact Hplan|]. split.
  { subst tasks st0. unfold initial_state in Hplan.
    erewrite execute_pipeline_unfold; [|by apply chain_tasks_plan].
    by rewrite Hplan. }
  simpl. split_and!; try done.
  - rewrite lookup_insert_ne by done. rewrite HresB. simpl.
    by rewrite lookup_insert_eq.
  - rewrite lookup_insert_eq. simpl. by rewrite HstB.
  - rewrite lookup_insert_ne by done. rewrite HresB. simpl.
    by rewrite lookup_insert_ne.
Qed.
End WorkedExample.


(** ** Concrete runs *)


(** Claim C2 as stated fails on the count of failed tasks: at the raise it
    is 2, the blocked critical task [C] having been counted. *)
Lemma C2_counterexample :
  (λ o, match o with
        | Raised e st => Some (e, successful_tasks (rs_summary st),
                              failed_tasks (rs_summary st),
                              skipped_tasks (rs_summary st),
                              failed_tasks_list (rs_summary st))
        | Continue _ => None
        end) <$>
    run_plan no_watermarks still_clock no_sleep
      (chain_tasks None None None None None None)
      (<["A" := ok_executor]> (<["B" := failing_executor]> (<["C" := ok_executor]> ∅)))
      ["A"; "B"; "C"] (initial_state ["A"; "B"; "C"] new_engine tt [])
  = Some (Some (CriticalTaskFailure "Critical task C blocked by failed dependency",
                1, 2, 0, ["B"; "C"])).
Proof. vm_compute. reflexivity. Qed.


(** Claim C7 as stated fails: [A] fails, [B] is skipped for its dependency;
    the run completes and the summary's results hold [A] only. *)
Lemma C7_counterexample :
  (λ x, match x.1.1.1 with
        | Ret (Completed ok s) =>
            Some (ok, total_tasks s, skipped_tasks s,
                  result_status <$> summary_task_results s !! "A",
                  result_status <$> summary_task_results s !! "B")
        | _ => None
        end) <$>
    run_example ["A"; "B"] pair_tasks_noncritical
      (<["A" := failing_executor]> (<["B" := ok_executor]> ∅)) new_engine
  = Some (Some (false, 2, 1, Some "FAILED", None)).
Proof. vm_compute. reflexivity. Qed.

(** Claim C10 as stated fails on the blocking of dependents: on the engine
    left by a first run, [A] has no executor and [B], which depends on [A],
    is executed. *)
Lemma C10_counterexample :
  (<["B" := ok_executor]> ∅ : gmap string executor) !! "A" = None ∧
  deps_of pair_tasks "B" = ["A"] ∧
  (λ x, invocations x.2) <$>
    run_example ["A"; "B"] pair_tasks (<["B" := ok_executor]> ∅) engine_after_first_run
  = Some ["B"].
Proof. split_and!; vm_compute; reflexivity. Qed.

Lemma cycle_with_tail_edges x y :
  edge cycle_with_tail x y →
  (x = "X" ∧ y = "A") ∨ (x = "A" ∧ y = "B") ∨ (x = "B" ∧ y = "A").
Proof.
  unfold edge, deps_of, cycle_with_tail. simpl.
  repeat case_decide; subst; simpl;
    rewrite ?list_elem_of_singleton; try (by intros ?%elem_of_nil); naive_solver.
Qed.

Lemma cycle_with_tail_has_cycle : has_cycle_graph cycle_with_tail.
Proof.
  exists "A". eapply tc_l; [|apply tc_once].
  - unfold edge. vm_compute. left.
  - unfold edge. vm_compute. left.
Qed.

(** Claim C5 as stated fails: [A] and [B] depend on each other and [X]
    depends on [A].  When the set is iterated from [X], the error names [X],
    which is on no cycle. *)
Lemma C5_counterexample :
  validate_dependency_graph ["X"; "A"; "B"] cycle_with_tail
    = Some (Raise (Circular "X")) ∧
  has_cycle_graph cycle_with_tail ∧ ¬ on_cycle cycle_with_tail "X".
Proof.
  split_and!.
  - vm_compute. reflexivity.
  - apply cycle_with_tail_has_cycle.
  - intros (v & Hv & Hback)%tc_first_step.
    assert (Hstay : ∀ a b, rtc (edge cycle_with_tail) a b →
              a = "A" ∨ a = "B" → b = "A" ∨ b = "B").
    { induction 1 as [|a b c Hab _ IH]; [done|]. intros Ha. apply IH.
      apply cycle_with_tail_edges in Hab. naive_solver. }
    apply cycle_with_tail_edges in Hv. destruct (Hstay _ _ Hback); naive_solver.
Qed.


Lemma wf_by_evaluation tasks :
  bool_decide (NoDup (task_names tasks)) = true → wf_tasks tasks.
Proof. intros H. by apply bool_decide_eq_true in H. Qed.

Lemma acyclic_by_evaluation order tasks st :
  order ≡ₚ task_names tasks →
  check_cycles (S (length (graph_nodes tasks))) tasks order (∅, ∅) = Some (Ret st) →
  acyclic tasks.
Proof.
  intros Hperm Hc. destruct (check_cycles_start tasks order Hperm) as [r [Hr Hpost]].
  rewrite Hc in Hr. by simplify_eq.
Qed.

Lemma deps_closed_by_evaluation tasks :
  wf_tasks tasks →
  check_missing (list_to_set (task_names tasks)) tasks = None → deps_closed tasks.
Proof.
  intros Hwf E. rewrite check_missing_None in E.
  intros a b (cfg & Hin & Hb)%edge_iff; [|done].
  pose proof (E a cfg b Hin Hb) as Hx. by rewrite elem_of_list_to_set in Hx.
Qed.

Lemma ok_executor_returns : always_returns ok_executor.
Proof. intros w. by exists ∅, w. Qed.

Lemma failing_executor_raises : always_raises failing_executor.
Proof. intros w. by exists boom, w. Qed.

Lemma pair_tasks_wf : wf_tasks pair_tasks.
Proof. by apply wf_by_evaluation. Qed.

Lemma pair_tasks_acyclic : acyclic pair_tasks.
Proof.
  eapply (acyclic_by_evaluation ["A"; "B"]); [done|]. vm_compute. reflexivity.
Qed.

Lemma pair_tasks_closed : deps_closed pair_tasks.
Proof. apply deps_closed_by_evaluation; [apply pair_tasks_wf|]. vm_compute. reflexivity. Qed.


(** The amended C2 with an executor that returns an empty dictionary and one
    that always raises. *)
Lemma C2_witness :
  ∃ st,
    run_plan no_watermarks still_clock no_sleep
      (chain_tasks None None None None None None)
      (<["A" := ok_executor]> (<["B" := failing_executor]> (<["C" := ok_executor]> ∅)))
      ["A"; "B"; "C"] (initial_state ["A"; "B"; "C"] new_engine tt [])
    = Some (Raised (CriticalTaskFailure "Critical task C blocked by failed dependency")
              st) ∧
    successful_tasks (rs_summary st) = 1 ∧ failed_tasks (rs_summary st) = 2 ∧
    skipped_tasks (rs_summary st) = 0.
Proof.
  destruct (C2_blocked_critical_task_is_counted_failed
              no_watermarks still_clock no_sleep None None None None None None
              (<["A" := ok_executor]> (<["B" := failing_executor]> (<["C" := ok_executor]> ∅)))
              ok_executor failing_executor ["A"; "B"; "C"] new_engine tt [])
    as (st & Hplan & _ & Hs & Hf & Hk & _).
  - reflexivity.
  - reflexivity.
  - apply ok_executor_returns.
  - apply failing_executor_raises.
  - simpl. lia.
  - reflexivity.
  - by exists st.
Defined.

(** C3 with two retries: three invocations, sleeps of 1 and 2 seconds. *)
Lemma C3_witness :
  ∃ w' new,
    execute_task_with_retries still_clock no_sleep "A" (plain_task [] None None)
      failing_executor 2 new_engine tt []
    = Some (false, TaskFailed 3 "RuntimeError" "boom" "Traceback", new_engine, w',
            [] ++ new) ∧
    invocations new = ["A"; "A"; "A"] ∧ sleeps new = [1; 2].
Proof.
  destruct (C3_always_failing_task still_clock no_sleep "A" (plain_task [] None None)
              failing_executor 2 new_engine tt [])
    as (e & w' & new & Hrun & Hnew & Hinv & Hsl & _).
  - lia.
  - apply failing_executor_raises.
  - exists w', new. split_and!; [|exact Hinv|exact Hsl].
    rewrite Hrun. destruct e as [ty msg tb]. vm_compute in Hrun.
    by simplify_eq.
Defined.

(** C4 on [pair_tasks], with the set iterated in the order [B], [A]. *)
Lemma C4_witness :
  ∃ result eng',
    topological_sort ["B"; "A"] pair_tasks new_engine = Some (Ret result, eng') ∧
    result ≡ₚ ["A"; "B"] ∧ NoDup result ∧
    ∃ i j, result !! j = Some "A" ∧ result !! i = Some "B" ∧ (j < i)%nat.
Proof.
  destruct (C4_topological_sort_is_sorted_permutation ["B"; "A"] pair_tasks new_engine)
    as (result & eng' & Hs & Hp & Hnd & Hord).
  - apply pair_tasks_wf.
  - apply Permutation_swap.
  - apply pair_tasks_acyclic.
  - apply pair_tasks_closed.
  - exists result, eng'. split_and!; try done.
    apply (Hord "B" (plain_task ["A"] None (Some 0)) "A"); [right; left|left].
Defined.

(** The amended C5 on [cycle_with_tail]. *)
Lemma C5_witness :
  ∃ t, t ∈ ["X"; "A"; "B"] ∧ reaches_cycle cycle_with_tail t ∧
    validate_dependency_graph ["X"; "A"; "B"] cycle_with_tail
      = Some (Raise (Circular t)).
Proof.
  destruct (C5_cycle_error_names_a_task_reaching_a_cycle
              no_watermarks still_clock no_sleep ["X"; "A"; "B"] cycle_with_tail
              ∅ new_engine tt [])
    as (t & Ht & Hr & Hv & _).
  - reflexivity.
  - apply cycle_with_tail_has_cycle.
  - by exists t.
Defined.



Lemma pair_tasks_noncritical_wf : wf_tasks pair_tasks_noncritical.
Proof. by apply wf_by_evaluation. Qed.

(** The amended C7 on the run of [pair_tasks_noncritical]. *)
Lemma C7_witness :
  match run_example ["A"; "B"] pair_tasks_noncritical
          (<["A" := failing_executor]> (<["B" := ok_executor]> ∅)) new_engine with
  | Some (Ret (Completed ok s), _, _, _) =>
      total_tasks s = 2 ∧
      Z.of_nat (size (summary_task_results s))
      = total_tasks s - skipped_tasks s
        - Z.of_nat (without_executor
                      (<["A" := failing_executor]> (<["B" := ok_executor]> ∅))
                      (failed_tasks_list s))
  | _ => False
  end.
Proof.
  destruct (run_example ["A"; "B"] pair_tasks_noncritical
              (<["A" := failing_executor]> (<["B" := ok_executor]> ∅)) new_engine)
    as [[[[[[|ok s]|e] eng'] w'] tr']|] eqn:E;
    try (vm_compute in E; discriminate).
  destruct (C7_summary_results_cover_executed_tasks_only _ _ _ _ _ _ _ _ _ _ _ _ _ _
              pair_tasks_noncritical_wf (reflexivity _) E) as (Ht & _ & Hsz & _).
  split; [exact Ht|exact Hsz].
Defined.

Lemma dangling_tasks_wf : wf_tasks dangling_tasks.
Proof. by apply wf_by_evaluation. Qed.

Lemma dangling_tasks_acyclic : acyclic dangling_tasks.
Proof. eapply (acyclic_by_evaluation ["A"]); [done|]. vm_compute. reflexivity. Qed.

(** C8 on a task that depends on an undeclared [Z]. *)
Lemma C8_witness :
  ∃ t d,
    validate_dependency_graph ["A"] dangling_tasks = Some (Raise (NonExistent t d)) ∧
    run_example ["A"] dangling_tasks (<["A" := ok_executor]> ∅) new_engine
    = Some (Ret (DependencyFailure (graph_error_message (NonExistent t d))),
            new_engine, tt, []).
Proof.
  destruct (C8_missing_dependency_fails_before_execution no_watermarks still_clock
              no_sleep ["A"] dangling_tasks (<["A" := ok_executor]> ∅) new_engine tt [])
    as (t & cfg & d & _ & _ & _ & Hv & _ & Hrun).
  - apply dangling_tasks_wf.
  - reflexivity.
  - apply dangling_tasks_acyclic.
  - exists "A", (plain_task ["Z"] None None), "Z". split_and!; [left|left|].
    intros Hin. apply list_elem_of_singleton in Hin. discriminate.
  - by exists t, d.
Defined.

(** C9 for the recognized predicate, with a watermark query that raises. *)
Lemma C9_witness :
  run_task no_watermarks still_clock no_sleep skippable_tasks
    (<["A" := ok_executor]> ∅) "A" (initial_state ["A"] new_engine tt [])
  = check_and_execute still_clock no_sleep (<["A" := ok_executor]> ∅) "A"
      {| task_type := None; depends_on := []; critical := None;
         max_retries := None; skip_on_condition := Some "if_no_new_files" |}
      (initial_state ["A"] new_engine tt []).
Proof.
  apply (C9_should_skip_fails_open no_watermarks still_clock no_sleep skippable_tasks
           (<["A" := ok_executor]> ∅) "A" _ (initial_state ["A"] new_engine tt [])).
  - reflexivity.
  - right. right. right. split; [reflexivity|]. eexists. reflexivity.
Defined.

(** The amended C10 for [A] of [pair_tasks] on a fresh engine. *)
Lemma C10_witness :
  run_task no_watermarks still_clock no_sleep pair_tasks (<["B" := ok_executor]> ∅)
    "A" (initial_state ["A"; "B"] new_engine tt [])
  = Some (Continue (with_failed (initial_state ["A"; "B"] new_engine tt []) "A")).
Proof.
  apply (C10_missing_executor_counts_failed_without_abort no_watermarks still_clock
           no_sleep pair_tasks (<["B" := ok_executor]> ∅) "A" (plain_task [] None (Some 0))
           (initial_state ["A"; "B"] new_engine tt [])).
  - reflexivity.
  - reflexivity.
  - reflexivity.
  - vm_compute. reflexivity.
  - intros H. vm_compute in H. discriminate.
  - simpl. lia.
Defined.


Section RetryExtras.
Context {W : Type}.
Context (clock : W → Z) (sleep : Z → W → W).

Lemma retry_loop_recovers task_name cfg (exec : executor) N result w_last w' :
exec w_last = (Ret result, w') →
∀ k fuel attempt last eng (w : W) tr,
  (k < fuel)%nat → 0 ≤ attempt → attempt + Z.of_nat k ≤ N →
  world_after_failures sleep exec k attempt w = Some w_last →
  retry_loop clock sleep fuel task_name cfg exec N attempt last eng w tr
  = Some (true,
          TaskSuccess (attempt + Z.of_nat k + 1) (clock w' - clock w_last) result,
          set_execution_time eng task_name (clock w' - clock w_last), w',
          tr ++ retry_trace task_name (default "unknown" (task_type cfg))
                  (default 0 (execution_order eng !! task_name)) attempt k
             ++ success_trace task_name (default "unknown" (task_type cfg))
                  (default 0 (execution_order eng !! task_name))
                  (attempt + Z.of_nat k + 1) result).
Proof.
intros Hlast. induction k as [|k IH]; intros fuel attempt last eng w tr Hf Ha HN Hw.
- destruct fuel as [|fuel]; [lia|]. simpl in *. simplify_eq.
  rewrite decide_True by lia. rewrite Hlast. unfold success_trace.
  rewrite Z.add_0_r. by rewrite <- !app_assoc.
- destruct fuel as [|fuel]; [lia|]. simpl in *.
  rewrite decide_True by lia.
  destruct (exec w) as [[r|e] w1]; [done|].
  rewrite decide_True by lia.
  replace (attempt + 1 - 1) with attempt by lia.
  rewrite (IH fuel (attempt + 1)); [|lia..|done].
  replace (attempt + 1 + Z.of_nat k + 1) with (attempt + Z.of_nat (S k) + 1) by lia.
  do 2 f_equal. by rewrite <- !app_assoc.
Qed.

(** Property X1 ([execute_task_with_retries]).  When the first [k <= N]
    invocations of the executor raise and the next one returns,
    the call succeeds on attempt [k + 1]: the events are those of [k] failed
    attempts, each followed by its backoff sleep of [2 ^ (i - 1)] seconds,
    then the start, the invocation and the success notification of the last
    attempt.  The duration recorded is that of the last invocation alone. *)
Theorem X1_retry_until_success task_name cfg (exec : executor) N (k : nat) eng
  (w : W) tr w_last result w' :
Z.of_nat k ≤ N →
world_after_failures sleep exec k 0 w = Some w_last →
exec w_last = (Ret result, w') →
∃ new,
  execute_task_with_retries clock sleep task_name cfg exec N eng w tr
  = Some (true, TaskSuccess (Z.of_nat k + 1) (clock w' - clock w_last) result,
          set_execution_time eng task_name (clock w' - clock w_last), w',
          tr ++ new) ∧
  new = retry_trace task_name (default "unknown" (task_type cfg))
          (default 0 (execution_order eng !! task_name)) 0 k
        ++ success_trace task_name (default "unknown" (task_type cfg))
             (default 0 (execution_order eng !! task_name)) (Z.of_nat k + 1) result ∧
  invocations new = replicate (S k) task_name ∧
  sleeps new = (λ i, 2 ^ Z.of_nat i) <$> seq 0 k.
Proof.
intros HN Hw Hlast. eexists. split_and!; [|done|..].
- unfold execute_task_with_retries.
  rewrite (retry_loop_recovers task_name cfg exec N result w_last w' Hlast k);
    [|lia..|done].
  done.
- rewrite invocations_app, invocations_retry_trace.
  replace (S k) with (k + 1)%nat by lia. by rewrite replicate_add.
- rewrite sleeps_app, sleeps_retry_trace. simpl. by rewrite app_nil_r.
Qed.

(** Property X2 ([execute_task_with_retries], [execute_pipeline]).  With a
    negative [max_retries] the [while] loop is not entered: the executor is
    never invoked, nothing is logged, and the fall-through [return] gives
    [FAILED] with [last_error = None].  In the scheduler such a task is
    counted as failed although no attempt was made, and raises
    [CriticalTaskFailure] when it is critical. *)
Theorem X2_negative_retry_budget_never_runs (executors : gmap string executor)
  task_name cfg (exec : executor) N (st : run_state) :
max_retries cfg = Some N → N < 0 →
dependencies_succeeded (rs_engine st) (depends_on cfg) = true →
executors !! task_name = Some exec →
execute_task_with_retries clock sleep task_name cfg exec N (rs_engine st)
  (rs_world st) (rs_trace st)
= Some (false, TaskFailedAfter None (N + 1), rs_engine st, rs_world st, rs_trace st) ∧
check_and_execute clock sleep executors task_name cfg st
= Some ((if default true (critical cfg)
         then Raised (CriticalTaskFailure ("Critical task " +:+ task_name +:+ " failed"))
         else Continue)
          {| rs_engine := set_task_result (rs_engine st) task_name
                            (TaskFailedAfter None (N + 1));
             rs_summary := count_failed
                             (record_result (rs_summary st) task_name
                                (TaskFailedAfter None (N + 1))) task_name;
             rs_world := rs_world st; rs_trace := rs_trace st |}).
Proof.
intros HN Hneg Hdeps Hexec.
assert (Hrun : execute_task_with_retries clock sleep task_name cfg exec N
                 (rs_engine st) (rs_world st) (rs_trace st)
               = Some (false, TaskFailedAfter None (N + 1), rs_engine st,
                       rs_world st, rs_trace st)).
{ unfold execute_task_with_retries. simpl. by rewrite decide_False by lia. }
split; [done|].
unfold check_and_execute. rewrite Hdeps, Hexec, HN. simpl. rewrite Hrun.
by destruct (default true (critical cfg)).
Qed.

Lemma retry_loop_bound task_name cfg (exec : executor) N :
∀ fuel attempt last eng (w : W) tr ok r eng' w' tr',
  0 ≤ attempt →
  retry_loop clock sleep fuel task_name cfg exec N attempt last eng w tr
    = Some (ok, r, eng', w', tr') →
  ∃ new m, tr' = tr ++ new ∧
    invocations new = replicate m task_name ∧
    (Z.of_nat m ≤ Z.max 0 (N - attempt + 1)) ∧
    sleeps new = (λ i, 2 ^ (attempt + Z.of_nat i)) <$> seq 0 (pred m) ∧
    (attempt ≤ N → (0 < m)%nat) ∧ (ok = true → (0 < m)%nat).
Proof.
induction fuel as [|fuel IH]; intros attempt last eng w tr ok r eng' w' tr' Ha Hrun;
  [done|].
simpl in Hrun. case_decide.
- destruct (exec w) as [[result|e] w1].
  + simplify_eq. eexists _, 1%nat. rewrite <- app_assoc.
    split_and!; [done|done|lia|done|lia|lia].
  + case_decide.
    * apply IH in Hrun as (new & m & -> & Hinv & Hm & Hsl & Hpos & Hok); [|lia].
      eexists _, (S m). rewrite <- !app_assoc. split_and!; [done| |lia| |lia|lia].
      -- simpl. unfold invocations in *. simpl. by rewrite Hinv.
      -- simpl. unfold sleeps in *. simpl. rewrite Hsl.
         replace (attempt + 1 - 1) with attempt by lia.
         destruct m as [|m]; [lia|]. simpl. rewrite Z.add_0_r. f_equal.
         rewrite <- seq_shift, <- list_fmap_compose. apply list_fmap_ext.
         intros _ i _. simpl. f_equal. lia.
    * simplify_eq. eexists _, 1%nat. rewrite <- app_assoc.
      split_and!; [done|done|lia|done|lia|done].
- simplify_eq. exists [], 0%nat. rewrite app_nil_r. split_and!; try done; lia.
Qed.

(** Property X3 ([execute_task_with_retries]).  Whatever the executor does,
    the call returns; it invokes the executor at most [max(0, N + 1)] times,
    sleeps [1, 2, 4, ...] seconds between consecutive invocations and not
    after the last one, returns a status that agrees with its boolean, and
    leaves [task_results] alone. *)
Theorem X3_attempts_are_bounded task_name cfg (exec : executor) N eng (w : W) tr :
∃ ok r eng' w' new m,
  execute_task_with_retries clock sleep task_name cfg exec N eng w tr
    = Some (ok, r, eng', w', tr ++ new) ∧
  invocations new = replicate m task_name ∧
  Z.of_nat m ≤ Z.max 0 (N + 1) ∧
  sleeps new = (λ i, 2 ^ Z.of_nat i) <$> seq 0 (pred m) ∧
  result_status r = (if ok then "SUCCESS" else "FAILED") ∧
  task_results eng' = task_results eng.
Proof.
destruct (execute_task_with_retries_total clock sleep task_name cfg exec N eng w tr)
  as [[[[[ok r] eng'] w'] tr'] Hrun].
pose proof Hrun as Hrun'. unfold execute_task_with_retries in Hrun'.
destruct (retry_loop_bound _ _ _ _ _ _ _ _ _ _ _ _ _ _ _ (Z.le_refl 0) Hrun')
  as (new & m & -> & Hinv & Hm & Hsl & _).
apply retry_loop_spec in Hrun' as (Hres & _ & Hst & _).
exists ok, r, eng', w', new, m. split_and!; try done. lia.
Qed.
End RetryExtras.


(** Property X4 ([validate_dependency_graph]).  On a task set with distinct
    names, whatever the iteration order of the set of names, validation
    returns [True] exactly when the dependency graph has no cycle and every
    dependency is a task of the set; otherwise it raises. *)
Theorem X4_validation_accepts_exactly_valid_graphs order tasks :
  wf_tasks tasks → order ≡ₚ task_names tasks →
  (validate_dependency_graph order tasks = Some (Ret true)
   ↔ acyclic tasks ∧ deps_closed tasks).
Proof.
  intros Hwf Hperm. split.
  - by apply validate_Ret_inv.
  - intros [Hac Hcl]. by apply validate_ok.
Qed.

Lemma check_cycles_raise fuel tasks order : ∀ st e,
  check_cycles fuel tasks order st = Some (Raise e) → ∃ t, t ∈ order ∧ e = Circular t.
Proof.
  induction order as [|task rest IH]; intros st e H; simpl in H; [done|].
  case_decide.
  - destruct (has_cycle fuel tasks task st) as [[[] st']|]; simplify_eq.
    + exists task. split; [left|done].
    + apply IH in H as (t & ? & ?). exists t. split; [by right|done].
  - apply IH in H as (t & ? & ?). exists t. split; [by right|done].
Qed.

Lemma check_deps_exist_first all task deps e :
  check_deps_exist all task deps = Some e →
  ∃ pre d post, deps = pre ++ d :: post ∧ e = NonExistent task d ∧ d ∉ all ∧
    ∀ x, x ∈ pre → x ∈ all.
Proof.
  induction deps as [|dep rest IH]; simpl; [done|].
  case_decide as Hd.
  - intros [= <-]. exists [], dep, rest. split_and!; try done.
    intros x Hx. by apply elem_of_nil in Hx.
  - intros (pre & d & post & -> & -> & Hno & Hpre)%IH.
    exists (dep :: pre), d, post. split_and!; try done.
    intros x [->|Hx]%elem_of_cons; auto.
Qed.

Lemma check_missing_first all items e :
  check_missing all items = Some e →
  ∃ pre t cfg post dpre d dpost,
    items = pre ++ (t, cfg) :: post ∧ depends_on cfg = dpre ++ d :: dpost ∧
    e = NonExistent t d ∧ d ∉ all ∧ (∀ x, x ∈ dpre → x ∈ all) ∧
    ∀ t' cfg' x, (t', cfg') ∈ pre → x ∈ depends_on cfg' → x ∈ all.
Proof.
  induction items as [|[task cfg] rest IH]; simpl; [done|].
  destruct (check_deps_exist all task (depends_on cfg)) as [e'|] eqn:E.
  - intros [= <-]. apply check_deps_exist_first in E as (dpre & d & dpost & Hd & -> & ? & ?).
    exists [], task, cfg, rest, dpre, d, dpost. split_and!; try done.
    intros t' cfg' x Hin. by apply elem_of_nil in Hin.
  - intros (pre & t & c & post & dpre & d & dpost & -> & Hd & -> & ? & ? & Hpre)%IH.
    exists ((task, cfg) :: pre), t, c, post, dpre, d, dpost. split_and!; try done.
    intros t' cfg' x [Heq|Hin]%elem_of_cons Hx.
    + simplify_eq. rewrite check_deps_exist_None in E. by apply E.
    + by eapply Hpre.
Qed.

(** Property X5 ([validate_dependency_graph]).  The error for a missing
    dependency names the first offender in the insertion order of [tasks]:
    every dependency of every earlier task, and every earlier dependency of
    the task named, is a task of the set. *)
Theorem X5_missing_dependency_error_names_the_first order tasks t d :
  validate_dependency_graph order tasks = Some (Raise (NonExistent t d)) →
  ∃ pre cfg post dpre dpost,
    tasks = pre ++ (t, cfg) :: post ∧ depends_on cfg = dpre ++ d :: dpost ∧
    d ∉ task_names tasks ∧ (∀ x, x ∈ dpre → x ∈ task_names tasks) ∧
    ∀ t' cfg' x, (t', cfg') ∈ pre → x ∈ depends_on cfg' → x ∈ task_names tasks.
Proof.
  unfold validate_dependency_graph.
  destruct (check_cycles _ tasks order (∅, ∅)) as [[st|e]|] eqn:Hc; [| |done].
  - destruct (check_missing _ tasks) as [e|] eqn:E; [|done]. intros [= ->].
    apply check_missing_first in E
      as (pre & t' & cfg & post & dpre & d' & dpost & Ht & Hd & [= <- <-] & Hno & Hdpre & Hpre).
    exists pre, cfg, post, dpre, dpost. split_and!; try done.
    + by rewrite elem_of_list_to_set in Hno.
    + intros x Hx. apply Hdpre in Hx. by rewrite elem_of_list_to_set in Hx.
    + intros t0 c0 x Hin Hx. pose proof (Hpre t0 c0 x Hin Hx) as Hy.
      by rewrite elem_of_list_to_set in Hy.
  - intros [= ->]. by apply check_cycles_raise in Hc as (? & _ & ?).
Qed.

Section OrderIndependence.
Context {W : Type}.
Context (watermark_query : W → res py_exception (list (gmap string pyval))).
Context (clock : W → Z) (sleep : Z → W → W).

(** Property X6 ([topological_sort], [execute_pipeline]).  On a graph without
    cycle the iteration order of the Python set [all_tasks] is not
    observable: two orders give the same plan (or the same error) and the
    same run. *)
Theorem X6_plan_does_not_depend_on_set_iteration_order order1 order2 tasks
  (executors : gmap string executor) eng (w : W) tr :
acyclic tasks → order1 ≡ₚ task_names tasks → order2 ≡ₚ task_names tasks →
topological_sort order1 tasks eng = topological_sort order2 tasks eng ∧
execute_pipeline watermark_query clock sleep order1 tasks executors eng w tr
= execute_pipeline watermark_query clock sleep order2 tasks executors eng w tr.
Proof.
intros Hac H1 H2.
assert (Hs : topological_sort order1 tasks eng = topological_sort order2 tasks eng).
{ unfold topological_sort. by rewrite !validate_acyclic. }
split; [done|]. unfold execute_pipeline. by rewrite Hs.
Qed.
End OrderIndependence.

Lemma record_order_other result : ∀ idx m t,
  t ∉ result → record_order idx result m !! t = m !! t.
Proof.
  induction result as [|x result IH]; intros idx m t Ht; [done|].
  apply not_elem_of_cons in Ht as [Hne Ht]. simpl.
  rewrite IH by done. by rewrite lookup_insert_ne.
Qed.

Lemma record_order_index result : ∀ idx m i t,
  NoDup result → result !! i = Some t →
  record_order idx result m !! t = Some (idx + Z.of_nat i).
Proof.
  induction result as [|x result IH]; intros idx m i t Hnd Hi; [done|].
  apply NoDup_cons in Hnd as [Hx Hnd]. simpl. destruct i as [|i]; simpl in Hi.
  - simplify_eq. rewrite record_order_other by done.
    rewrite lookup_insert_eq. f_equal. lia.
  - rewrite (IH (idx + 1) _ i t Hnd Hi). f_equal. lia.
Qed.

(** Property X7 ([topological_sort]).  After a successful sort,
    [execution_order] maps each task to its position in the plan, counted
    from 1; entries of names outside the task set are kept, and
    [task_results] is untouched. *)
Theorem X7_execution_order_is_the_one_based_position order tasks eng plan eng' :
  wf_tasks tasks → order ≡ₚ task_names tasks →
  topological_sort order tasks eng = Some (Ret plan, eng') →
  (∀ i t, plan !! i = Some t → execution_order eng' !! t = Some (Z.of_nat i + 1)) ∧
  (∀ t, t ∉ task_names tasks → execution_order eng' !! t = execution_order eng !! t) ∧
  task_results eng' = task_results eng.
Proof.
  intros Hwf Hperm Hsort.
  destruct (topological_sort_Ret_inv _ _ _ _ _ Hwf Hperm Hsort)
    as (_ & _ & Hp & -> & _).
  assert (Hnd : NoDup plan) by by rewrite Hp.
  split_and!; [|by intros t Ht; apply record_order_other; rewrite Hp|done].
  intros i t Hi. simpl. rewrite (record_order_index plan 1 _ i t Hnd Hi). f_equal. lia.
Qed.

Lemma relax_extends l : ∀ deg q deg' q',
  relax l deg q = Ret (deg', q') → ∃ new, q' = q ++ new.
Proof.
  induction l as [|n rest IH]; intros deg q deg' q' H; simpl in H.
  - simplify_eq. exists []. by rewrite app_nil_r.
  - destruct (deg !! n) as [d|]; [|done].
    apply IH in H as [new ->]. case_decide.
    + exists ([n] ++ new). by rewrite <- app_assoc.
    + by exists new.
Qed.

Lemma kahn_loop_prefix adjacency : ∀ fuel deg queue result r,
  kahn_loop fuel adjacency deg queue result = Some (Ret r) →
  ∃ rest, r = result ++ queue ++ rest.
Proof.
  induction fuel as [|fuel IH]; intros deg queue result r H; [done|].
  simpl in H. destruct queue as [|task queue].
  - simplify_eq. exists []. by rewrite !app_nil_r.
  - destruct (adjacency !! task) as [ns|]; [|done].
    destruct (relax ns deg queue) as [[deg' q']|e] eqn:Hr; [|done].
    apply relax_extends in Hr as [new ->].
    apply IH in H as [rest ->]. exists (new ++ rest).
    by rewrite <- !app_assoc.
Qed.

Lemma initial_queue_roots tasks g :
  tables_for (task_names tasks) (deps_of tasks) g →
  initial_queue tasks g.1 = root_tasks tasks.
Proof.
  intros [Hdeg _]. unfold initial_queue, root_tasks.
  assert (Hgen : ∀ l : list string, (∀ t, t ∈ l → t ∈ task_names tasks) →
            filter (λ task, g.1 !! task = Some 0) l
            = filter (λ t, deps_of tasks t = []) l).
  { induction l as [|x l IH]; intros Hl; [done|].
    rewrite !filter_cons. rewrite IH by (intros t Ht; apply Hl; by right).
    rewrite (Hdeg x) by (apply Hl; left).
    destruct (decide (_ = Some 0)) as [Hz|Hz];
      destruct (decide (deps_of tasks x = [])) as [He|He]; try done.
    - exfalso. apply He. apply length_zero_iff_nil. injection Hz. lia.
    - exfalso. apply Hz. by rewrite He. }
  by apply Hgen.
Qed.

(** Property X8 ([topological_sort]).  The plan starts with the tasks that
    have no dependencies, in the insertion order of [tasks]. *)
Theorem X8_tasks_without_dependencies_come_first order tasks eng plan eng' :
  wf_tasks tasks → order ≡ₚ task_names tasks →
  topological_sort order tasks eng = Some (Ret plan, eng') →
  ∃ rest, plan = root_tasks tasks ++ rest.
Proof.
  intros Hwf Hperm Hsort.
  destruct (topological_sort_Ret_inv _ _ _ _ _ Hwf Hperm Hsort)
    as (Hac & Hcl & _).
  unfold topological_sort, kahn_order in Hsort.
  rewrite validate_ok in Hsort by done.
  destruct (build_graph_tasks tasks Hwf Hcl) as ([deg adj] & Hb & Htab).
  rewrite Hb in Hsort.
  destruct (kahn_loop _ _ _ _ _) as [[r|e]|] eqn:Hk; simplify_eq.
  apply kahn_loop_prefix in Hk as [rest ->]. exists rest.
  pose proof (initial_queue_roots tasks _ Htab) as Hq. simpl in Hq.
  by rewrite Hq.
Qed.


Section PipelineExtras.
Context {W : Type}.
Context (watermark_query : W → res py_exception (list (gmap string pyval))).
Context (clock : W → Z) (sleep : Z → W → W).
Context (tasks : task_set) (executors : gmap string (executor (W:=W))).

Abbreviation rtask := (run_task watermark_query clock sleep tasks executors).
Abbreviation rplan := (run_plan watermark_query clock sleep tasks executors).

Lemma run_task_abort_kind task_name st e st' :
rtask task_name st = Some (Raised e st') →
(∃ msg, e = CriticalTaskFailure msg) ∨ tasks_get tasks task_name = None.
Proof. intros H. run_task_cases H; eauto. Qed.

Lemma run_plan_abort_kind plan : ∀ st e st',
(∀ t, t ∈ plan → t ∈ task_names tasks) →
rplan plan st = Some (Raised e st') → ∃ msg, e = CriticalTaskFailure msg.
Proof.
induction plan as [|t plan IH]; intros st e st' Hin Hrun; simpl in Hrun; [done|].
destruct (rtask t st) as [[st1|e1 st1]|] eqn:Ht; [| |done].
- eapply IH; [|done]. intros x Hx. apply Hin. by right.
- simplify_eq. apply run_task_abort_kind in Ht as [?|Hnone]; [done|].
  apply tasks_get_None in Hnone. destruct Hnone. apply Hin. left.
Qed.

(** Property X9 ([execute_pipeline]).  On a task set with distinct names the
    call terminates, and the only exception it lets through is
    [CriticalTaskFailure]: dependency errors are returned as a failure, and
    the lookup [tasks[task_name]] never raises [KeyError]. *)
Theorem X9_only_critical_task_failure_escapes order eng (w : W) tr :
wf_tasks tasks → order ≡ₚ task_names tasks →
∃ out eng' w' tr',
  execute_pipeline watermark_query clock sleep order tasks executors eng w tr
    = Some (out, eng', w', tr') ∧
  ∀ e, out = Raise e → ∃ msg, e = CriticalTaskFailure msg.
Proof.
intros Hwf Hperm.
destruct (topological_sort_total order tasks eng Hwf Hperm) as [[r eng1] Hts].
unfold execute_pipeline. rewrite Hts. destruct r as [plan|e].
- destruct (topological_sort_Ret_inv _ _ _ _ _ Hwf Hperm Hts) as (_ & _ & Hp & _).
  match goal with |- context [run_plan ?a ?b ?c ?d ?e ?f ?g] =>
    destruct (run_plan_total a b c d e f g) as [o Ho]; rewrite Ho end.
  destruct o as [st|e st].
  + do 4 eexists. split; [done|]. intros e [=].
  + do 4 eexists. split; [done|]. intros e' [= <-].
    eapply run_plan_abort_kind; [|done]. intros t Ht. by rewrite <- Hp.
- unfold topological_sort in Hts.
  destruct (validate_dependency_graph order tasks) as [[b|ge]|] eqn:Hv; [| |done].
  + destruct (validate_Ret_inv _ _ _ Hwf Hperm Hv) as [Hac Hcl].
    destruct (topological_sort_valid order tasks eng Hwf Hperm Hac Hcl) as (p & Hp & _).
    unfold topological_sort in Hp. rewrite Hv in Hp.
    destruct (kahn_order tasks) as [[?|?]|]; simplify_eq.
  + simplify_eq. do 4 eexists. split; [done|]. intros e [=].
Qed.

(** Property X10 ([execute_pipeline]).  A task skipped on its condition is
    recorded [SKIPPED], counted as skipped and logged with the condition as
    reason, and its executor is not invoked.  Because [SKIPPED] is not
    [SUCCESS], every task that depends on it and is reached later in the run
    is blocked: a critical one raises [CriticalTaskFailure], another one is
    skipped. *)
Theorem X10_skipped_task_blocks_its_dependents task_name cfg st :
tasks_get tasks task_name = Some cfg →
should_skip_task watermark_query (rs_world st) task_name (skip_on_condition cfg)
  = true →
rtask task_name st
  = Some (Continue (with_skipped st task_name (skip_on_condition cfg))) ∧
∀ later st', task_name ∉ later →
  rplan later (with_skipped st task_name (skip_on_condition cfg))
    = Some (Continue st') →
  task_results (rs_engine st') !! task_name = Some TaskSkipped ∧
  ∀ dependent cfg', task_name ∈ depends_on cfg' →
    check_and_execute clock sleep executors dependent cfg' st'
    = Some (blocked_outcome dependent cfg' st').
Proof.
intros Hget Hskip. split.
- unfold run_task. by rewrite Hget, Hskip.
- intros later st' Hnot Hrun.
  destruct (run_plan_later watermark_query clock sleep tasks executors
              task_name later _ _ Hnot Hrun) as [Hres _].
  simpl in Hres. rewrite lookup_insert_eq in Hres. split; [done|].
  intros dependent cfg' Hin. unfold check_and_execute, blocked_outcome.
  rewrite (dependencies_succeeded_blocked _ _ task_name); [|done|].
  + simpl. by destruct (default true (critical cfg')).
  + unfold not_succeeded. by rewrite Hres.
Qed.
End PipelineExtras.

(** Property X11 ([should_skip_task]).  The function returns [True] exactly
    when the condition is [if_no_new_files], the watermark query returns at
    least one row and the [new_files] column of the first row is 0. *)
Theorem X11_should_skip_exactly_when_no_new_files {W}
    (watermark_query : W → res py_exception (list (gmap string pyval)))
    (w : W) task_name skip_condition :
  should_skip_task watermark_query w task_name skip_condition = true ↔
  skip_condition = Some "if_no_new_files" ∧
  ∃ row rest, watermark_query w = Ret (row :: rest) ∧
              row !! "new_files" = Some (PyInt 0).
Proof.
  unfold should_skip_task. split.
  - destruct skip_condition as [c|]; [|done].
    destruct (decide (c = "")); [done|].
    destruct (decide (c = "if_no_new_files")) as [->|]; [|done].
    destruct (watermark_query w) as [[|row rest]|e]; try done.
    destruct (row !! "new_files") as [[z|s]|] eqn:E; try done.
    simpl. intros Hz%bool_decide_eq_true. subst. split; [done|]. by exists row, rest.
  - intros (-> & row & rest & -> & ->). done.
Qed.


Section FailedList.
Context {W : Type}.
Context (watermark_query : W → res py_exception (list (gmap string pyval))).
Context (clock : W → Z) (sleep : Z → W → W).
Context (tasks : task_set) (executors : gmap string (executor (W:=W))).

Abbreviation rtask := (run_task watermark_query clock sleep tasks executors).
Abbreviation rplan := (run_plan watermark_query clock sleep tasks executors).

Lemma failed_inv_init plan : failed_inv tasks executors [] (initial_summary plan).
Proof. split; simpl; [done|done|]. intros t Ht. by apply elem_of_nil in Ht. Qed.

Lemma run_task_failed_inv task_name st st' processed :
failed_inv tasks executors processed (rs_summary st) →
rtask task_name st = Some (Continue st') →
failed_inv tasks executors (processed ++ [task_name]) (rs_summary st').
Proof.
intros [Hsub Hent Htol] H.
assert (Hsub' : failed_tasks_list (rs_summary st) `sublist_of` processed ++ [task_name])
  by by apply sublist_inserts_r.
assert (Hsub'' : failed_tasks_list (rs_summary st) ++ [task_name]
                   `sublist_of` processed ++ [task_name])
  by by apply sublist_app.
run_task_cases H; split; simpl; try done.
all: try match goal with
     | H : execute_task_with_retries _ _ _ _ _ _ _ _ _ = Some _ |- _ =>
         apply retry_loop_spec in H as (_ & _ & Hst & _)
     end.
all: try (intros x0 r0 Hl Hf; apply lookup_insert_Some in Hl as [[<- <-]|[? Hl]];
          [by rewrite Hst in Hf|by eapply Hent]).
all: try (intros x0 r0 Hl Hf; apply elem_of_app;
          apply lookup_insert_Some in Hl as [[<- <-]|[? Hl]];
          [right; left|left; by eapply Hent]).
all: try (intros x0 r0 Hl Hf; apply elem_of_app; left; by eapply Hent).
all: intros x0 [Hx|Hx%list_elem_of_singleton]%elem_of_app; [by apply Htol|];
  subst; eauto.
right. eexists. split; [done|].
match goal with H : default true (critical ?c) = false |- _ =>
  by destruct (critical c) as [[]|] end.
Qed.

Lemma run_plan_failed_inv plan : ∀ st st' processed,
failed_inv tasks executors processed (rs_summary st) →
rplan plan st = Some (Continue st') →
failed_inv tasks executors (processed ++ plan) (rs_summary st').
Proof.
induction plan as [|t plan IH]; intros st st' processed Hinv Hrun; simpl in Hrun.
- simplify_eq. by rewrite app_nil_r.
- destruct (rtask t st) as [[st1|e st1]|] eqn:Ht; [|done..].
  apply run_task_failed_inv with (processed := processed) in Ht; [|done].
  replace (processed ++ t :: plan) with ((processed ++ [t]) ++ plan)
    by by rewrite <- app_assoc.
  by apply (IH st1).
Qed.

Lemma completed_run_inv order eng (w : W) tr ok s eng' w' tr' :
wf_tasks tasks → order ≡ₚ task_names tasks →
execute_pipeline watermark_query clock sleep order tasks executors eng w tr
  = Some (Ret (Completed ok s), eng', w', tr') →
∃ plan eng1, topological_sort order tasks eng = Some (Ret plan, eng1) ∧
  plan ≡ₚ task_names tasks ∧
  ok = bool_decide (failed_tasks s = 0) ∧
  total_tasks s = Z.of_nat (length plan) ∧
  summary_inv executors plan s ∧ failed_inv tasks executors plan s.
Proof.
intros Hwf Hperm Hrun. unfold execute_pipeline in Hrun.
destruct (topological_sort order tasks eng) as [[[plan|e] eng1]|] eqn:Hsort;
  [| |done].
- exists plan, eng1. split; [done|].
  apply topological_sort_Ret_inv in Hsort as (_ & _ & Hp & _ & _); [|done..].
  destruct (run_plan _ _ _ _ _ _ _) as [[st|e st]|] eqn:Hplan; [|done..].
  simplify_eq. split; [done|]. split; [done|].
  pose proof Hplan as Hplan2.
  apply run_plan_summary with (processed := []) in Hplan as [Hinv Ht];
    [|simpl; rewrite Hp; apply Hwf|apply summary_inv_init].
  apply run_plan_failed_inv with (processed := []) in Hplan2;
    [|apply failed_inv_init].
  simpl in *. done.
- destruct e; simplify_eq.
Qed.

(** Property X12 ([execute_pipeline]).  When the loop completes,
    [failed_tasks_list] lists tasks of the plan in plan order, its length is
    [failed_tasks], and the run is a success exactly when it is empty.
    Every task in it either has no executor or is not critical (a critical
    task that fails raises instead), and every task whose recorded result is
    [FAILED] is in it. *)
Theorem X12_failed_list_of_a_completed_run order eng (w : W) tr ok s eng' w' tr' :
wf_tasks tasks → order ≡ₚ task_names tasks →
execute_pipeline watermark_query clock sleep order tasks executors eng w tr
  = Some (Ret (Completed ok s), eng', w', tr') →
∃ plan eng1, topological_sort order tasks eng = Some (Ret plan, eng1) ∧
  failed_tasks_list s `sublist_of` plan ∧
  failed_tasks s = Z.of_nat (length (failed_tasks_list s)) ∧
  (ok = true ↔ failed_tasks_list s = []) ∧
  (∀ t, t ∈ failed_tasks_list s →
     executors !! t = None ∨
     ∃ cfg, tasks_get tasks t = Some cfg ∧ critical cfg = Some false) ∧
  (∀ t r, summary_task_results s !! t = Some r →
     result_status r = "FAILED" → t ∈ failed_tasks_list s).
Proof.
intros Hwf Hperm Hrun.
destruct (completed_run_inv _ _ _ _ _ _ _ _ _ Hwf Hperm Hrun)
  as (plan & eng1 & Hs & Hp & -> & Ht & [Hc Hn Hf Hsz He] & [Hsub Hent Htol]).
exists plan, eng1. split_and!; try done.
rewrite bool_decide_eq_true, Hf.
destruct (failed_tasks_list s); simpl; [done|]. split; [lia|done].
Qed.

(** Property X13 ([execute_pipeline]).  In the summary of a successful run
    no task is failed, every task is counted successful or skipped, the
    recorded results are those of the successful tasks and all have status
    [SUCCESS], and the last event is [end_run] with status [SUCCESS] and an
    empty error summary. *)
Theorem X13_summary_of_a_successful_run order eng (w : W) tr s eng' w' tr' :
wf_tasks tasks → order ≡ₚ task_names tasks →
execute_pipeline watermark_query clock sleep order tasks executors eng w tr
  = Some (Ret (Completed true s), eng', w', tr') →
failed_tasks s = 0 ∧ failed_tasks_list s = [] ∧
successful_tasks s + skipped_tasks s = Z.of_nat (length tasks) ∧
Z.of_nat (size (summary_task_results s)) = successful_tasks s ∧
(∀ t r, summary_task_results s !! t = Some r →
   t ∈ task_names tasks ∧ result_status r = "SUCCESS") ∧
∃ new, tr' = tr ++ new
         ++ [EndRun "SUCCESS" (successful_tasks s) 0 (skipped_tasks s) ""] ∧
       no_end_run new.
Proof.
intros Hwf Hperm Hrun.
destruct (completed_run_inv _ _ _ _ _ _ _ _ _ Hwf Hperm Hrun)
  as (plan & eng1 & Hs & Hp & Hok & Ht & [Hc Hn Hf Hsz He] & [Hsub Hent Htol]).
symmetry in Hok. apply bool_decide_eq_true in Hok.
assert (Hnil : failed_tasks_list s = []).
{ rewrite Hok in Hf. by destruct (failed_tasks_list s). }
assert (Hlen : length plan = length tasks).
{ rewrite Hp. unfold task_names. by rewrite length_fmap. }
rewrite Hnil in Hsz. unfold without_executor in Hsz. simpl in Hsz.
split_and!; [done|done|lia|lia| |].
- intros t r Hl. destruct (He t r Hl) as (Hin & _ & [?|Hfl]).
  + split; [by rewrite <- Hp|done].
  + apply (Hent t r Hl) in Hfl. rewrite Hnil in Hfl. by apply elem_of_nil in Hfl.
- rewrite (execute_pipeline_unfold _ _ _ _ _ _ _ _ _ _ _ Hs) in Hrun.
  destruct (run_plan _ _ _ _ _ _ _) as [[st|e st]|] eqn:Hplan; [|done..].
  apply run_plan_trace in Hplan as (new & Htr & Hne). simpl in *.
  injection Hrun as _ <- _ _ <-. rewrite Htr, Hok, Hnil. simpl.
  exists new. by rewrite <- app_assoc.
Qed.
End FailedList.


Lemma deps_logged_before_app tasks eng0 new added :
  deps_logged_before tasks eng0 new →
  (∀ pre post t cfg d, added = pre ++ Invoke t :: post →
     tasks_get tasks t = Some cfg → d ∈ depends_on cfg →
     (∃ rows, LogTaskSuccess d rows ∈ new ++ pre) ∨
     result_status <$> task_results eng0 !! d = Some "SUCCESS") →
  deps_logged_before tasks eng0 (new ++ added).
Proof.
  intros Hnew Hadd pre post t cfg d Heq Hget Hd.
  apply app_eq_app in Heq as [l [[-> Heq]|[-> Heq]]].
  - destruct l as [|ev l]; simpl in Heq.
    + destruct (Hadd [] post t cfg d) as [[rows Hr]|?]; eauto.
      left. exists rows. by rewrite !app_nil_r in Hr.
    + injection Heq as <- ->. eapply Hnew; eauto.
  - eapply Hadd; eauto.
Qed.

Lemma deps_logged_before_quiet tasks eng0 new added :
  deps_logged_before tasks eng0 new → invocations added = [] →
  deps_logged_before tasks eng0 (new ++ added).
Proof.
  intros Hnew Hq. apply deps_logged_before_app; [done|].
  intros pre post t cfg d -> _ _. rewrite invocations_app in Hq.
  by destruct (invocations pre).
Qed.

Lemma dependencies_succeeded_elem eng deps d :
  dependencies_succeeded eng deps = true → d ∈ deps →
  result_status <$> task_results eng !! d = Some "SUCCESS".
Proof.
  unfold dependencies_succeeded. rewrite forallb_forall.
  intros H Hd. apply list_elem_of_In in Hd. by apply H, bool_decide_eq_true in Hd.
Qed.

Section Invocations.
Context {W : Type}.
Context (watermark_query : W → res py_exception (list (gmap string pyval))).
Context (clock : W → Z) (sleep : Z → W → W).
Context (tasks : task_set) (executors : gmap string (executor (W:=W))).

Abbreviation rtask := (run_task watermark_query clock sleep tasks executors).
Abbreviation rplan := (run_plan watermark_query clock sleep tasks executors).

Lemma retry_loop_events task_name cfg (exec : executor) N :
∀ fuel attempt last eng (w : W) tr ok r eng' w' tr',
  retry_loop clock sleep fuel task_name cfg exec N attempt last eng w tr
    = Some (ok, r, eng', w', tr') →
  ∃ added m, tr' = tr ++ added ∧
    invocations added = replicate m task_name ∧
    (Z.of_nat m ≤ Z.max 0 (N - attempt + 1)) ∧
    (ok = true → ∃ rows, LogTaskSuccess task_name rows ∈ added).
Proof.
induction fuel as [|fuel IH]; intros attempt last eng w tr ok r eng' w' tr' H;
  simpl in H; [done|].
case_decide as Hle.
- destruct (exec w) as [[result|e] w1] eqn:Hex.
  + simplify_eq. eexists _, 1%nat. rewrite <- app_assoc. split; [done|].
    split; [done|]. split; [lia|]. intros _. eexists.
    do 2 apply list_elem_of_further. apply list_elem_of_here.
  + case_decide as Hlt.
    * apply IH in H as (added & m & -> & Hinv & Hm & Hok).
      eexists _, (S m). rewrite <- !app_assoc. split; [done|].
      split; [|split; [lia|]].
      -- simpl. unfold invocations in *. simpl. by rewrite Hinv.
      -- intros E. destruct (Hok E) as [rows Hr]. exists rows.
         by do 3 apply list_elem_of_further.
    * simplify_eq. eexists _, 1%nat. rewrite <- app_assoc. split; [done|].
      split; [done|]. split; [lia|]. done.
- simplify_eq. exists [], 0%nat. rewrite app_nil_r. split_and!; try done. lia.
Qed.

(** One iteration, seen from the trace. *)
Lemma run_task_events task_name st out new :
rs_trace st = new →
rtask task_name st = Some out →
∃ added m, rs_trace (step_state out) = new ++ added ∧
  invocations added = replicate m task_name ∧
  (m ≤ attempts_allowed tasks task_name)%nat ∧
  ((0 < m)%nat → is_Some (executors !! task_name) ∧
     ∃ cfg, tasks_get tasks task_name = Some cfg ∧
       dependencies_succeeded (rs_engine st) (depends_on cfg) = true) ∧
  ∀ d, result_status <$> task_results (rs_engine (step_state out)) !! d
         = Some "SUCCESS" →
       result_status <$> task_results (rs_engine st) !! d = Some "SUCCESS" ∨
       d = task_name ∧ ∃ rows, LogTaskSuccess task_name rows ∈ added.
Proof.
intros <- H. unfold attempts_allowed, run_task in H |- *.
destruct (tasks_get tasks task_name) as [cfg|] eqn:Hget.
2: { simplify_eq. exists [], 0%nat. rewrite app_nil_r. simpl.
     split_and!; try done; [lia|by left]. }
destruct (should_skip_task _ _ _ _).
{ simplify_eq. eexists _, 0%nat. simpl. split_and!; try done; [lia|lia|].
  intros d. rewrite lookup_insert. case_decide; [by subst|by left]. }
unfold check_and_execute in H.
destruct (dependencies_succeeded _ _) eqn:Hdeps; simpl in H.
2: { destruct (default true (critical cfg)); simplify_eq; simpl.
     - exists [], 0%nat. rewrite app_nil_r. split_and!; try done; [lia|lia|by left].
     - eexists _, 0%nat. split_and!; try done; [lia|lia|by left]. }
destruct (executors !! task_name) as [exec|] eqn:Hex.
2: { simplify_eq. exists [], 0%nat. rewrite app_nil_r. simpl.
     split_and!; try done; [lia|lia|by left]. }
destruct (execute_task_with_retries _ _ _ _ _ _ _ _ _)
  as [[[[[ok r] eng1] w1] tr1]|] eqn:Hrun; [|done].
pose proof Hrun as Hspec.
apply retry_loop_spec in Hspec as (Hres & _ & Hst & _).
apply retry_loop_events in Hrun as (added & m & -> & Hinv & Hm & Hok).
assert (Hall : ∀ d, result_status <$> <[task_name:=r]> (task_results eng1) !! d
                 = Some "SUCCESS" →
        result_status <$> task_results (rs_engine st) !! d = Some "SUCCESS" ∨
        d = task_name ∧ ∃ rows, LogTaskSuccess task_name rows ∈ added).
{ intros d. rewrite Hres, lookup_insert. case_decide; [|by left].
  subst. simpl. rewrite Hst. intros [= E]. right. split; [done|]. apply Hok.
  by destruct ok. }
exists added, m.
destruct ok; [|destruct (default true (critical cfg))]; simplify_eq; simpl;
  (split_and!; [done|done|lia|by eauto|done]).
Qed.

(** The loop, seen from the trace: the calls follow the plan, every task
  within its allowance, and only after its dependencies. *)
Lemma run_plan_events eng0 tr0 plan : ∀ st out new,
rs_trace st = tr0 ++ new →
deps_logged_before tasks eng0 new →
successes_logged eng0 (rs_engine st) new →
rplan plan st = Some out →
∃ added, rs_trace (step_state out) = tr0 ++ new ++ added ∧
  deps_logged_before tasks eng0 (new ++ added) ∧
  successes_logged eng0 (rs_engine (step_state out)) (new ++ added) ∧
  invocations added
    `sublist_of` (plan ≫= λ t, replicate (attempts_allowed tasks t) t) ∧
  ∀ t, t ∈ invocations added → is_Some (executors !! t).
Proof.
induction plan as [|t plan IH]; intros st out new Htr Hdl Hsl Hrun; simpl in Hrun.
- simplify_eq. exists []. rewrite app_nil_r. simpl. split_and!; try done.
  intros t Ht. by apply elem_of_nil in Ht.
- destruct (rtask t st) as [o1|] eqn:Ht; [|done].
  destruct (run_task_events _ _ _ _ Htr Ht)
    as (added & m & Htr1 & Hinv & Hm & Hpos & Hsucc).
  rewrite <- app_assoc in Htr1.
  assert (Hdl1 : deps_logged_before tasks eng0 (new ++ added)).
  { apply deps_logged_before_app; [done|].
    intros pre post x cfg d -> Hget Hd.
    assert (x = t ∧ (0 < m)%nat) as [-> Hm0].
    { assert (x ∈ replicate m t) as [-> ?]%elem_of_replicate.
      { rewrite <- Hinv, invocations_app. apply elem_of_app. right. left. }
      split; [done|lia]. }
    destruct (Hpos Hm0) as (_ & cfg' & Hget' & Hdeps). simplify_eq.
    destruct (Hsl d (dependencies_succeeded_elem _ _ _ Hdeps Hd)) as [[rows Hr]|?];
      [left; exists rows; apply elem_of_app; by left|by right]. }
  assert (Hsl1 : successes_logged eng0 (rs_engine (step_state o1)) (new ++ added)).
  { intros d Hd. destruct (Hsucc d Hd) as [Hold|[-> [rows Hr]]].
    - destruct (Hsl d Hold) as [[rows Hr]|?]; [|by right].
      left. exists rows. apply elem_of_app. by left.
    - left. exists rows. apply elem_of_app. by right. }
  assert (Hsub1 : invocations added
                    `sublist_of` replicate (attempts_allowed tasks t) t).
  { rewrite Hinv. replace (attempts_allowed tasks t)
      with (m + (attempts_allowed tasks t - m))%nat by lia.
    rewrite replicate_add. by apply sublist_inserts_r. }
  assert (Hex1 : ∀ x, x ∈ invocations added → is_Some (executors !! x)).
  { intros x Hx. rewrite Hinv in Hx. apply elem_of_replicate in Hx as [-> Hm0].
    apply Hpos. lia. }
  destruct o1 as [st1|e st1]; simpl in *.
  + destruct (IH st1 out _ Htr1 Hdl1 Hsl1 Hrun)
      as (added2 & Htr2 & Hdl2 & Hsl2 & Hsub2 & Hex2).
    exists (added ++ added2). rewrite !app_assoc in *. split_and!; try done.
    * rewrite invocations_app. by apply sublist_app.
    * intros x. rewrite invocations_app.
      intros [?|?]%elem_of_app; eauto.
  + simplify_eq. exists added. simpl. split_and!; try done.
    by apply sublist_inserts_r.
Qed.

Lemma topological_sort_results order eng r eng1 :
topological_sort order tasks eng = Some (r, eng1) →
task_results eng1 = task_results eng.
Proof.
rewrite topological_sort_engine.
destruct (topological_sort order tasks new_engine) as [[r0 e0]|]; [|done].
simpl. intros [= <- <-]. by destruct r0.
Qed.

Lemma pipeline_events order eng (w : W) tr out eng' w' tr' :
execute_pipeline watermark_query clock sleep order tasks executors eng w tr
  = Some (out, eng', w', tr') →
∃ new, tr' = tr ++ new ∧ deps_logged_before tasks eng new ∧
  (∀ t, t ∈ invocations new → is_Some (executors !! t)) ∧
  ∀ plan eng1, topological_sort order tasks eng = Some (Ret plan, eng1) →
    invocations new
      `sublist_of` (plan ≫= λ t, replicate (attempts_allowed tasks t) t).
Proof.
intros Hrun.
assert (Hnil : deps_logged_before tasks eng []).
{ intros pre post t cfg d E. by destruct pre. }
assert (Hnone : ∀ t : string, t ∈ invocations [] → is_Some (executors !! t)).
{ intros t Ht. by apply elem_of_nil in Ht. }
destruct (topological_sort order tasks eng) as [[[plan|e] eng1]|] eqn:Hsort.
- rewrite (execute_pipeline_unfold _ _ _ _ _ _ _ _ _ _ _ Hsort) in Hrun.
  pose proof (topological_sort_results _ _ _ _ Hsort) as Hres.
  destruct (run_plan _ _ _ _ _ _ _) as [o|] eqn:Hplan; [|done].
  apply (run_plan_events eng tr _ _ _ []) in Hplan
    as (added & Htr & Hdl & _ & Hsub & Hex); simpl;
    [|by rewrite app_nil_r|done|by intros d; rewrite Hres; right].
  simpl in *. destruct o as [st|e st]; simpl in *; simplify_eq.
  + exists (added ++ [EndRun
        (overall_status_of (bool_decide (failed_tasks (rs_summary st) = 0)))
        (successful_tasks (rs_summary st)) (failed_tasks (rs_summary st))
        (skipped_tasks (rs_summary st))
        (error_summary_of (failed_tasks_list (rs_summary st)))]).
    rewrite Htr, <- app_assoc. split; [done|].
    rewrite invocations_app. simpl. rewrite app_nil_r. split_and!; try done.
    * by apply deps_logged_before_quiet.
    * by intros ?? [= <- <-].
  + exists added. split_and!; try done. by intros ?? [= <- <-].
- unfold execute_pipeline in Hrun. rewrite Hsort in Hrun.
  destruct e; simplify_eq; exists []; rewrite app_nil_r; split_and!; try done.
- unfold execute_pipeline in Hrun. by rewrite Hsort in Hrun.
Qed.

(** Property X14 ([execute_pipeline]).  An executor is invoked only after
    the success of every dependency of its task has been logged in the same
    run, unless the engine already held a [SUCCESS] result for that
    dependency when the run started. *)
Theorem X14_executor_runs_after_its_dependencies_succeeded order eng (w : W) tr
  out eng' w' tr' :
execute_pipeline watermark_query clock sleep order tasks executors eng w tr
  = Some (out, eng', w', tr') →
∃ new, tr' = tr ++ new ∧
  ∀ pre post t cfg d,
    new = pre ++ Invoke t :: post →
    tasks_get tasks t = Some cfg → d ∈ depends_on cfg →
    (∃ rows, LogTaskSuccess d rows ∈ pre) ∨
    result_status <$> task_results eng !! d = Some "SUCCESS".
Proof.
intros Hrun. destruct (pipeline_events _ _ _ _ _ _ _ _ Hrun) as (new & -> & Hdl & _).
by exists new.
Qed.

(** Property X15 ([execute_pipeline]).  The executors are invoked in plan
    order, each task at most [max_retries + 1] times in a row (2 retries when
    [max_retries] is absent); only tasks of the plan that have an executor
    are invoked. *)
Theorem X15_calls_follow_the_plan_within_the_retry_allowance order eng (w : W) tr
  plan eng1 out eng' w' tr' :
topological_sort order tasks eng = Some (Ret plan, eng1) →
execute_pipeline watermark_query clock sleep order tasks executors eng w tr
  = Some (out, eng', w', tr') →
∃ new, tr' = tr ++ new ∧
  invocations new
    `sublist_of` (plan ≫= λ t, replicate (attempts_allowed tasks t) t) ∧
  ∀ t, t ∈ invocations new → t ∈ plan ∧ is_Some (executors !! t).
Proof.
intros Hsort Hrun.
destruct (pipeline_events _ _ _ _ _ _ _ _ Hrun) as (new & -> & _ & Hex & Hsub).
specialize (Hsub _ _ Hsort). exists new. split_and!; try done.
intros t Ht. split; [|by apply Hex].
pose proof (elem_of_sublist _ _ _ Ht Hsub) as Hb.
apply list_elem_of_bind in Hb as (x & Hx & Hin).
by apply elem_of_replicate in Hx as [-> _].
Qed.
End Invocations.


Lemma dependencies_succeeded_intro eng deps :
  (∀ d, d ∈ deps → result_status <$> task_results eng !! d = Some "SUCCESS") →
  dependencies_succeeded eng deps = true.
Proof.
  intros H. unfold dependencies_succeeded. apply forallb_forall.
  intros d Hd%list_elem_of_In. by apply bool_decide_eq_true, H.
Qed.

Section HappyPath.
Context {W : Type}.
Context (watermark_query : W → res py_exception (list (gmap string pyval))).
Context (clock : W → Z) (sleep : Z → W → W).
Context (tasks : task_set) (executors : gmap string (executor (W:=W))).

Abbreviation rtask := (run_task watermark_query clock sleep tasks executors).
Abbreviation rplan := (run_plan watermark_query clock sleep tasks executors).

Lemma run_plan_all_succeed :
always_runnable watermark_query tasks executors →
∀ rest done st,
  (∀ i t, (done ++ rest) !! i = Some t → ∀ d, d ∈ deps_of tasks t →
     ∃ j, (j < i)%nat ∧ (done ++ rest) !! j = Some d) →
  (∀ t, t ∈ rest → is_Some (tasks_get tasks t)) →
  (∀ t, t ∈ done →
     result_status <$> task_results (rs_engine st) !! t = Some "SUCCESS") →
  ∃ st' new, rplan rest st = Some (Continue st') ∧
    rs_trace st' = rs_trace st ++ new ∧ invocations new = rest ∧
    successful_tasks (rs_summary st')
      = successful_tasks (rs_summary st) + Z.of_nat (length rest) ∧
    failed_tasks (rs_summary st') = failed_tasks (rs_summary st) ∧
    skipped_tasks (rs_summary st') = skipped_tasks (rs_summary st) ∧
    failed_tasks_list (rs_summary st') = failed_tasks_list (rs_summary st) ∧
    ∀ t, t ∈ done ++ rest →
      result_status <$> task_results (rs_engine st') !! t = Some "SUCCESS".
Proof.
intros Hrunnable. induction rest as [|t rest IH]; intros done st Hdeps Hreg Hdone.
- exists st, []. simpl. rewrite !app_nil_r. split_and!; try done. lia.
- destruct (Hreg t) as [cfg Hget]; [left|].
  destruct (Hrunnable t cfg Hget) as (Hskip & HN & exec & Hex & Hret).
  assert (Hds : dependencies_succeeded (rs_engine st) (depends_on cfg) = true).
  { apply dependencies_succeeded_intro. intros d Hd. apply Hdone.
    destruct (Hdeps (length done) t) with (d := d) as (j & Hj & Hl).
    - by rewrite list_lookup_middle.
    - unfold deps_of. by rewrite Hget.
    - rewrite lookup_app_l in Hl by done. by eapply list_elem_of_lookup_2. }
  destruct (execute_task_succeeds clock sleep t cfg exec _ (rs_engine st)
              (rs_world st) (rs_trace st) Hret HN) as (result & w' & Hrun).
  assert (Hstep : rtask t st = Some (Continue
    {| rs_engine := set_task_result
         (set_execution_time (rs_engine st) t (clock w' - clock (rs_world st))) t
         (TaskSuccess 1 (clock w' - clock (rs_world st)) result);
       rs_summary := count_successful (record_result (rs_summary st) t
         (TaskSuccess 1 (clock w' - clock (rs_world st)) result));
       rs_world := w';
       rs_trace := rs_trace st ++
         [LogTaskStart t (default "unknown" (task_type cfg))
            (default 0 (execution_order (rs_engine st) !! t)) 1;
          Invoke t;
          LogTaskSuccess t (default (PyInt 0) (result !! "rows_processed"))] |})).
  { unfold run_task, check_and_execute. by rewrite Hget, Hskip, Hds, Hex, Hrun. }
  match type of Hstep with _ = Some (Continue ?s) => set (st1 := s) in * end.
  destruct (IH (done ++ [t]) st1)
    as (st' & new & Hplan & Htr & Hinv & Hs & Hf & Hk & Hl & Hall).
  + rewrite <- app_assoc. exact Hdeps.
  + intros x Hx. apply Hreg. by right.
  + intros x [Hx|Hx%list_elem_of_singleton]%elem_of_app; simpl.
    * rewrite lookup_insert. case_decide; [done|]. by apply Hdone.
    * subst. by rewrite lookup_insert_eq.
  + exists st'. eexists. simpl. rewrite Hstep. split; [exact Hplan|].
    subst st1. simpl in *. rewrite Htr, <- app_assoc. split; [done|].
    rewrite <- app_assoc in Hall. split_and!; try done; [|lia].
    rewrite invocations_app, Hinv. done.
Qed.

(** Property X16 ([execute_pipeline]).  On a valid graph in which every task
    has an executor that returns, a non-negative retry budget and no skip
    condition that holds, the run succeeds: each executor is invoked exactly
    once, in plan order, every task ends [SUCCESS], and [end_run] reports
    all tasks successful, whatever results the engine held before. *)
Theorem X16_runnable_pipeline_succeeds_calling_each_task_once order eng (w : W) tr :
wf_tasks tasks → order ≡ₚ task_names tasks → acyclic tasks → deps_closed tasks →
always_runnable watermark_query tasks executors →
∃ plan eng1 s eng' w' new,
  topological_sort order tasks eng = Some (Ret plan, eng1) ∧
  execute_pipeline watermark_query clock sleep order tasks executors eng w tr
    = Some (Ret (Completed true s), eng', w',
            tr ++ new ++ [EndRun "SUCCESS" (Z.of_nat (length tasks)) 0 0 ""]) ∧
  invocations new = plan ∧
  successful_tasks s = Z.of_nat (length tasks) ∧
  failed_tasks s = 0 ∧ skipped_tasks s = 0 ∧
  ∀ t, t ∈ task_names tasks →
    result_status <$> task_results eng' !! t = Some "SUCCESS".
Proof.
intros Hwf Hperm Hac Hcl Hrunnable.
destruct (topological_sort_valid order tasks eng Hwf Hperm Hac Hcl)
  as (plan & Hsort & _).
destruct (topological_sort_Ret_inv _ _ _ _ _ Hwf Hperm Hsort)
  as (_ & _ & Hp & _ & Hidx).
assert (Hlen : length plan = length tasks).
{ rewrite Hp. unfold task_names. by rewrite length_fmap. }
destruct (run_plan_all_succeed Hrunnable plan []
            {| rs_engine := set_execution_order eng
                              (record_order 1 plan (execution_order eng));
               rs_summary := initial_summary plan;
               rs_world := w; rs_trace := tr |})
  as (st' & new & Hplan & Htr & Hinv & Hs & Hf & Hk & Hl & Hall).
{ exact Hidx. }
{ intros t Ht. rewrite Hp in Ht.
  destruct (tasks_get tasks t) eqn:E; [done|].
  by apply tasks_get_None in E. }
{ intros t Ht. by apply elem_of_nil in Ht. }
simpl in *.
eexists plan, _, (rs_summary st'), (rs_engine st'), (rs_world st'), new.
split; [exact Hsort|].
rewrite (execute_pipeline_unfold _ _ _ _ _ _ _ _ _ _ _ Hsort), Hplan.
rewrite Hf, Hs, Hk, Hl, Htr, Hlen. simpl. rewrite <- app_assoc.
split_and!; try done; try lia.
intros t Ht. apply Hall. by rewrite Hp.
Qed.
End HappyPath.


Section TaskBodies.
Context {W : Type}.
Context (watermark_query : W → res py_exception (list (gmap string pyval))).
Context (clock : W → Z) (sleep : Z → W → W).

Lemma retry_loop_origin task_name cfg (exec : executor) N :
∀ fuel attempt last eng (w : W) tr ok r eng' w' tr',
  0 ≤ attempt →
  retry_loop clock sleep fuel task_name cfg exec N attempt last eng w tr
    = Some (ok, r, eng', w', tr') →
  match r with
  | TaskSuccess a d result =>
      ok = true ∧ attempt < a ≤ N + 1 ∧
      ∃ w0 new, exec w0 = (Ret result, w') ∧ d = clock w' - clock w0 ∧
        tr' = tr ++ new
                ++ [LogTaskSuccess task_name
                      (default (PyInt 0) (result !! "rows_processed"))]
  | TaskFailed a ty msg st =>
      ok = false ∧ a = N + 1 ∧ attempt ≤ N ∧
      ∃ w0 e new, exec w0 = (Raise e, w') ∧
        ty = exc_type e ∧ msg = exc_message e ∧ st = exc_traceback e ∧
        tr' = tr ++ new ++ [LogTaskFailure task_name e st]
  | TaskFailedAfter last' n =>
      ok = false ∧ N < attempt ∧ last' = last ∧ n = N + 1 ∧ w' = w ∧ tr' = tr
  | TaskSkipped => False
  end.
Proof.
induction fuel as [|fuel IH]; intros attempt last eng w tr ok r eng' w' tr' Ha H;
  simpl in H; [done|].
case_decide as Hle.
- destruct (exec w) as [[result|e] w1] eqn:Hex.
  + injection H as <- <- <- <- <-. split; [done|]. split; [lia|].
    exists w, [LogTaskStart task_name (default "unknown" (task_type cfg))
                 (default 0 (execution_order eng !! task_name)) (attempt + 1);
               Invoke task_name].
    split; [done|]. split; [done|]. by rewrite <- app_assoc.
  + case_decide as Hlt.
    * apply IH in H; [|lia].
      destruct r as [a d result|a ty msg st|last' n|]; [| | |done].
      -- destruct H as (-> & Hr & w0 & new & Hex0 & -> & ->).
         split; [done|]. split; [lia|].
         exists w0, (LogTaskStart task_name (default "unknown" (task_type cfg))
                       (default 0 (execution_order eng !! task_name)) (attempt + 1)
                     :: Invoke task_name :: Sleep (2 ^ (attempt + 1 - 1)) :: new).
         split; [done|]. split; [done|]. by rewrite <- !app_assoc.
      -- destruct H as (-> & -> & Hr & w0 & e0 & new & Hex0 & -> & -> & -> & ->).
         split; [done|]. split; [done|]. split; [lia|].
         exists w0, e0,
           (LogTaskStart task_name (default "unknown" (task_type cfg))
              (default 0 (execution_order eng !! task_name)) (attempt + 1)
            :: Invoke task_name :: Sleep (2 ^ (attempt + 1 - 1)) :: new).
         split; [done|]. split; [done|]. split; [done|]. split; [done|].
         by rewrite <- !app_assoc.
      -- destruct H as (_ & ? & _). lia.
    * injection H as <- <- <- <- <-. split; [done|]. split; [lia|]. split; [done|].
      exists w, e,
        [LogTaskStart task_name (default "unknown" (task_type cfg))
           (default 0 (execution_order eng !! task_name)) (attempt + 1);
         Invoke task_name].
      split; [done|]. split; [done|]. split; [done|]. split; [done|].
      by rewrite <- app_assoc.
- injection H as <- <- <- <- <-. split; [done|]. split; [lia|]. done.
Qed.

(** Property X17 ([execute_task_with_retries]).  The result returned stems
    from the last invocation: a [SUCCESS] carries the dictionary the executor
    returned and the duration of that invocation, at an attempt between 1
    and [N + 1]; a [FAILED] with error details carries the type, message and
    traceback of the exception raised at attempt [N + 1]; the fall-through
    [FAILED] occurs only for a negative [N], with nothing run. *)
Theorem X17_task_result_stems_from_the_last_call task_name cfg (exec : executor)
  N eng (w : W) tr ok r eng' w' tr' :
execute_task_with_retries clock sleep task_name cfg exec N eng w tr
  = Some (ok, r, eng', w', tr') →
match r with
| TaskSuccess a d result =>
    ok = true ∧ 1 ≤ a ≤ N + 1 ∧
    ∃ w0, exec w0 = (Ret result, w') ∧ d = clock w' - clock w0
| TaskFailed a ty msg st =>
    ok = false ∧ a = N + 1 ∧ 0 ≤ N ∧
    ∃ w0 e, exec w0 = (Raise e, w') ∧
      ty = exc_type e ∧ msg = exc_message e ∧ st = exc_traceback e
| TaskFailedAfter last n =>
    ok = false ∧ N < 0 ∧ last = None ∧ n = N + 1 ∧ w' = w ∧ tr' = tr
| TaskSkipped => False
end.
Proof.
intros H. apply retry_loop_origin in H; [|done].
destruct r as [a d result|a ty msg st|last n|]; [| |done..].
- destruct H as (? & ? & w0 & new & ? & ? & _). split_and!; try done; try lia. eauto.
- destruct H as (? & ? & ? & w0 & e & new & ? & ? & ? & ? & _).
  split_and!; try done. eauto 10.
Qed.

Lemma notebook_result_rows :
notebook_result !! "rows_processed" = Some (PyInt 1000).
Proof.
unfold notebook_result.
by rewrite lookup_insert_ne, lookup_insert_ne, lookup_insert_eq.
Qed.

Lemma sql_result_rows row_count :
sql_result row_count !! "rows_affected" = Some (PyInt row_count) ∧
sql_result row_count !! "rows_processed" = None.
Proof.
unfold sql_result. split.
- by rewrite lookup_insert_ne, lookup_insert_eq.
- by rewrite !lookup_insert_ne, lookup_empty.
Qed.

Lemma python_result_rows value : python_result value !! "rows_processed" = None.
Proof. unfold python_result. by rewrite !lookup_insert_ne, lookup_empty. Qed.

Lemma first_attempt_succeeds task_name cfg (exec : executor) N eng (w : W) tr
  result w' :
exec w = (Ret result, w') → 0 ≤ N →
execute_task_with_retries clock sleep task_name cfg exec N eng w tr
= Some (true, TaskSuccess 1 (clock w' - clock w) result,
        set_execution_time eng task_name (clock w' - clock w), w',
        tr ++ [LogTaskStart task_name (default "unknown" (task_type cfg))
                 (default 0 (execution_order eng !! task_name)) 1;
               Invoke task_name;
               LogTaskSuccess task_name
                 (default (PyInt 0) (result !! "rows_processed"))]).
Proof.
intros Hex HN. unfold execute_task_with_retries. simpl.
rewrite decide_True by lia. rewrite Hex. by rewrite <- app_assoc.
Qed.

Section Bodies.
Context (run_query : string → W → res py_exception Z * W).
Context (chained_traceback : string → py_exception → string).

(** Property X18 ([execute_sql] under [execute_task_with_retries]).  A SQL
    task that succeeds returns its row count under [rows_affected], so the
    success notification carries [rows_processed = 0] whatever the count.
    One that fails for good is recorded with error type [Exception] and the
    message of the cause prefixed by [SQL execution failed: ]; the type of
    the cause is lost. *)
Theorem X18_sql_task_logs_no_rows_and_masks_the_error_type task_name cfg sql_query
  N eng (w : W) tr ok r eng' w' tr' :
execute_task_with_retries clock sleep task_name cfg
    (execute_sql run_query chained_traceback sql_query) N eng w tr
  = Some (ok, r, eng', w', tr') →
match r with
| TaskSuccess a d result =>
    ∃ row_count w0 new,
      run_query sql_query w0 = (Ret row_count, w') ∧
      result = sql_result row_count ∧
      tr' = tr ++ new ++ [LogTaskSuccess task_name (PyInt 0)]
| TaskFailed a ty msg st =>
    ty = "Exception" ∧
    ∃ cause new,
      msg = "SQL execution failed: " +:+ exc_message cause ∧
      tr' = tr ++ new
              ++ [LogTaskFailure task_name
                    (wrap_error chained_traceback "SQL execution failed: " cause)
                    st]
| TaskFailedAfter _ _ => N < 0
| TaskSkipped => False
end.
Proof.
intros H. apply retry_loop_origin in H; [|done].
destruct r as [a d result|a ty msg st|last n|]; [| | |done].
- destruct H as (_ & _ & w0 & new & Hex & _ & ->). unfold execute_sql in Hex.
  destruct (run_query sql_query w0) as [[n|e] w1] eqn:E; [|done].
  injection Hex as <- <-. exists n, w0, new. split; [done|]. split; [done|].
  by rewrite (proj2 (sql_result_rows n)).
- destruct H as (_ & _ & _ & w0 & e & new & Hex & -> & -> & -> & ->).
  unfold execute_sql in Hex.
  destruct (run_query sql_query w0) as [[n|e0] w1]; [done|].
  injection Hex as <- <-. split; [done|]. by exists e0, new.
- destruct H as (_ & ? & _). lia.
Qed.

(** Property X19 ([execute_python] under [execute_task_with_retries]).  A
    Python task that succeeds returns the value of the function under
    [result] and is logged with [rows_processed = 0]; one that fails for
    good is recorded with error type [Exception] and the message of the cause
    prefixed by [Python execution failed: ]. *)
Theorem X19_python_task_logs_no_rows_and_masks_the_error_type task_name cfg
  (python_func : W → res py_exception pyval * W)
  N eng (w : W) tr ok r eng' w' tr' :
execute_task_with_retries clock sleep task_name cfg
    (execute_python chained_traceback python_func) N eng w tr
  = Some (ok, r, eng', w', tr') →
match r with
| TaskSuccess a d result =>
    ∃ value w0 new,
      python_func w0 = (Ret value, w') ∧
      result = python_result value ∧
      tr' = tr ++ new ++ [LogTaskSuccess task_name (PyInt 0)]
| TaskFailed a ty msg st =>
    ty = "Exception" ∧
    ∃ cause new,
      msg = "Python execution failed: " +:+ exc_message cause ∧
      tr' = tr ++ new
              ++ [LogTaskFailure task_name
                    (wrap_error chained_traceback "Python execution failed: " cause)
                    st]
| TaskFailedAfter _ _ => N < 0
| TaskSkipped => False
end.
Proof.
intros H. apply retry_loop_origin in H; [|done].
destruct r as [a d result|a ty msg st|last n|]; [| | |done].
- destruct H as (_ & _ & w0 & new & Hex & _ & ->). unfold execute_python in Hex.
  destruct (python_func w0) as [[v|e] w1] eqn:E; [|done].
  injection Hex as <- <-. exists v, w0, new. split; [done|]. split; [done|].
  by rewrite python_result_rows.
- destruct H as (_ & _ & _ & w0 & e & new & Hex & -> & -> & -> & ->).
  unfold execute_python in Hex.
  destruct (python_func w0) as [[v|e0] w1]; [done|].
  injection Hex as <- <-. split; [done|]. by exists e0, new.
- destruct H as (_ & ? & _). lia.
Qed.
End Bodies.

(** Property X20 ([execute_notebook] under [execute_task_with_retries]).
    The notebook body is simulated: with a non-negative retry budget a
    notebook task succeeds on its first attempt, whatever the path and the
    parameters, and is logged with 1000 rows; the duration recorded is the
    time the call itself took. *)
Theorem X20_notebook_task_succeeds_at_once_with_1000_rows (elapse : W → W)
  task_name cfg notebook_path parameters N eng (w : W) tr :
0 ≤ N →
execute_task_with_retries clock sleep task_name cfg
    (execute_notebook elapse notebook_path parameters) N eng w tr
  = Some (true, TaskSuccess 1 (clock (elapse w) - clock w) notebook_result,
          set_execution_time eng task_name (clock (elapse w) - clock w),
          elapse w,
          tr ++ [LogTaskStart task_name (default "unknown" (task_type cfg))
                   (default 0 (execution_order eng !! task_name)) 1;
                 Invoke task_name;
                 LogTaskSuccess task_name (PyInt 1000)]).
Proof.
intros HN.
rewrite (first_attempt_succeeds _ _ _ _ _ w _ notebook_result (elapse w));
  [|done..].
by rewrite notebook_result_rows.
Qed.
End TaskBodies.


Section Registration.
Context {W : Type}.
Context (watermark_query : W → res py_exception (list (gmap string pyval))).
Context (clock : W → Z) (sleep : Z → W → W).
Context (tasks : task_set) (executors : gmap string (executor (W:=W))).
Context (name : string) (registered : task_config).

Abbreviation rtask := (run_task watermark_query clock sleep tasks executors).
Abbreviation rplan := (run_plan watermark_query clock sleep tasks executors).

Lemma retry_loop_register task_name cfg (exec : executor) N :
∀ fuel attempt last eng (w : W) tr,
  retry_loop clock sleep fuel task_name cfg exec N attempt last
    (register_task eng name registered) w tr
  = register_in_result name registered
      <$> retry_loop clock sleep fuel task_name cfg exec N attempt last eng w tr.
Proof.
induction fuel as [|fuel IH]; intros attempt last eng w tr; simpl; [done|].
case_decide; [|done]. destruct (exec w) as [[result|e] w1]; [done|].
case_decide; [|done]. apply IH.
Qed.

Lemma run_task_register task_name st :
rtask task_name (register_in_state name registered st)
= register_in_step name registered <$> rtask task_name st.
Proof.
unfold run_task. destruct (tasks_get tasks task_name) as [cfg|]; [|done]. simpl.
destruct (should_skip_task _ _ _ _); [done|].
unfold check_and_execute. simpl.
change (dependencies_succeeded (register_task (rs_engine st) name registered))
  with (dependencies_succeeded (rs_engine st)).
destruct (dependencies_succeeded _ _); simpl.
2: { by destruct (default true (critical cfg)). }
destruct (executors !! task_name) as [exec|]; [|done].
unfold execute_task_with_retries. rewrite retry_loop_register.
destruct (retry_loop _ _ _ _ _ _ _ _ _ _ _ _) as [[[[[ok r] e] w1] tr1]|]; [|done].
simpl. destruct ok; [done|]. by destruct (default true (critical cfg)).
Qed.

Lemma run_plan_register plan : ∀ st,
rplan plan (register_in_state name registered st)
= register_in_step name registered <$> rplan plan st.
Proof.
induction plan as [|t plan IH]; intros st; simpl; [done|].
rewrite run_task_register.
destruct (rtask t st) as [[st1|e st1]|]; simpl; [|done..]. apply IH.
Qed.

Lemma run_task_metadata task_name st out :
rtask task_name st = Some out →
task_metadata (rs_engine (step_state out)) = task_metadata (rs_engine st).
Proof.
unfold run_task. destruct (tasks_get tasks task_name) as [cfg|]; [|by intros [= <-]].
destruct (should_skip_task _ _ _ _); [by intros [= <-]|].
unfold check_and_execute.
destruct (dependencies_succeeded _ _); simpl.
2: { destruct (default true (critical cfg)); by intros [= <-]. }
destruct (executors !! task_name) as [exec|]; [|by intros [= <-]].
unfold execute_task_with_retries.
destruct (retry_loop _ _ _ _ _ _ _ _ _ _ _ _) as [[[[[ok r] e] w1] tr1]|] eqn:E;
  [|done].
assert (task_metadata e = task_metadata (rs_engine st)) as Hm.
{ clear -E. revert E. generalize (rs_trace st), (rs_world st), (@None py_exception), 0.
  generalize (S (Z.to_nat (default 2 (max_retries cfg) + 1))).
  intros fuel. induction fuel as [|fuel IH]; intros tr w last attempt H;
    simpl in H; [done|].
  case_decide; [|by simplify_eq]. destruct (exec w) as [[result|e0] w2].
  - by simplify_eq.
  - case_decide; [by eapply IH|by simplify_eq]. }
destruct ok; [by intros [= <-]|].
destruct (default true (critical cfg)); by intros [= <-].
Qed.

Lemma run_plan_metadata plan : ∀ st out,
rplan plan st = Some out →
task_metadata (rs_engine (step_state out)) = task_metadata (rs_engine st).
Proof.
induction plan as [|t plan IH]; intros st out H; simpl in H; [by simplify_eq|].
destruct (rtask t st) as [[st1|e st1]|] eqn:Ht; [| |done].
- apply IH in H. rewrite H. by apply run_task_metadata in Ht.
- simplify_eq. by apply run_task_metadata in Ht.
Qed.

(** Property X21 ([register_task], [execute_pipeline]).  [register_task]
    only writes [task_metadata], which [execute_pipeline] neither reads nor
    writes: registering a task leaves the outcome, the world and the events
    of a run unchanged, and a run leaves [task_metadata] as it was. *)
Theorem X21_registered_tasks_play_no_part_in_a_run order eng (w : W) tr :
execute_pipeline watermark_query clock sleep order tasks executors
  (register_task eng name registered) w tr
= register_in_outcome name registered
    <$> execute_pipeline watermark_query clock sleep order tasks executors eng w tr
∧ ∀ out eng' w' tr',
    execute_pipeline watermark_query clock sleep order tasks executors eng w tr
      = Some (out, eng', w', tr') →
    task_metadata eng' = task_metadata eng.
Proof.
pose proof (topological_sort_engine order tasks eng) as He.
pose proof (topological_sort_engine order tasks
              (register_task eng name registered)) as Hr.
destruct (topological_sort order tasks new_engine) as [[[plan|e] eng0]|];
  simpl in He, Hr.
- rewrite (execute_pipeline_unfold _ _ _ _ _ _ _ _ _ _ _ He),
          (execute_pipeline_unfold _ _ _ _ _ _ _ _ _ _ _ Hr).
  set (st0 := {| rs_engine := set_execution_order eng
                                (record_order 1 plan (execution_order eng));
                 rs_summary := initial_summary plan;
                 rs_world := w; rs_trace := tr |}).
  change (run_plan watermark_query clock sleep tasks executors plan _)
    with (rplan plan (register_in_state name registered st0)) at 1.
  rewrite run_plan_register.
  pose proof (run_plan_metadata plan st0) as Hmeta.
  destruct (rplan plan st0) as [[st|e st]|]; simpl; split; try done.
  + intros out eng' w' tr' [= <- <- <- <-]. by apply (Hmeta (Continue st)).
  + intros out eng' w' tr' [= <- <- <- <-]. by apply (Hmeta (Raised e st)).
- unfold execute_pipeline. rewrite He, Hr.
  destruct e; simpl; split; try done; by intros out eng' w' tr' [= <- <- <- <-].
- unfold execute_pipeline. rewrite He, Hr. done.
Qed.
End Registration.


Lemma single_failing_wf : wf_tasks single_failing.
Proof. by apply wf_by_evaluation. Qed.

Lemma pair_tasks_sorted :
  topological_sort ["A"; "B"] pair_tasks new_engine
  = Some (Ret ["A"; "B"],
          set_execution_order new_engine (record_order 1 ["A"; "B"] ∅)).
Proof. vm_compute. reflexivity. Qed.

Lemma both_ok_run :
  ∃ s eng',
    run_example ["A"; "B"] pair_tasks both_ok new_engine
    = Some (Ret (Completed true s), eng', tt,
            both_ok_trace ++ [EndRun "SUCCESS" 2 0 0 ""]).
Proof.
  destruct (run_example ["A"; "B"] pair_tasks both_ok new_engine)
    as [[[[[[|[] s]|e] eng'] []] tr']|] eqn:E;
    try (vm_compute in E; discriminate).
  assert (H : (λ x, x.2) <$> run_example ["A"; "B"] pair_tasks both_ok new_engine
              = Some (both_ok_trace ++ [EndRun "SUCCESS" 2 0 0 ""])).
  { vm_compute. reflexivity. }
  rewrite E in H. simpl in H. injection H as ->. by exists s, eng'.
Qed.

Lemma pair_tasks_runnable : always_runnable no_watermarks pair_tasks both_ok.
Proof.
  intros t cfg Hget. unfold pair_tasks in Hget. simpl in Hget.
  repeat case_decide; simplify_eq; (split_and!; [done|done|]);
    exists ok_executor; (split; [reflexivity|apply ok_executor_returns]).
Qed.

(** X1 for an executor that raises twice, with a budget of two retries. *)
Lemma X1_witness :
  ∃ new,
    execute_task_with_retries counter_clock idle_sleep "A" (plain_task [] None None)
      flaky_executor 2 new_engine 0%nat []
    = Some (true, TaskSuccess 3 1 ∅, set_execution_time new_engine "A" 1, 3%nat,
            [] ++ new) ∧
    invocations new = ["A"; "A"; "A"] ∧ sleeps new = [1; 2].
Proof.
  destruct (X1_retry_until_success counter_clock idle_sleep "A" (plain_task [] None None)
              flaky_executor 2 2 new_engine 0%nat [] 2%nat ∅ 3%nat)
    as (new & Hrun & _ & Hinv & Hsl).
  - lia.
  - reflexivity.
  - reflexivity.
  - exists new. split_and!; [exact Hrun|exact Hinv|exact Hsl].
Defined.

(** X2 for [max_retries = -1] and an executor that would return. *)
Lemma X2_witness :
  execute_task_with_retries still_clock no_sleep "A" (plain_task [] None (Some (-1)))
    ok_executor (-1) new_engine tt []
  = Some (false, TaskFailedAfter None 0, new_engine, tt, []).
Proof.
  destruct (X2_negative_retry_budget_never_runs still_clock no_sleep
              (<["A" := ok_executor]> ∅) "A" (plain_task [] None (Some (-1))) ok_executor
              (-1) {| rs_engine := new_engine; rs_summary := initial_summary ["A"];
                      rs_world := tt; rs_trace := [] |}) as [H _].
  - reflexivity.
  - lia.
  - reflexivity.
  - reflexivity.
  - exact H.
Defined.

(** X4 on [pair_tasks]. *)
Lemma X4_witness : validate_dependency_graph ["A"; "B"] pair_tasks = Some (Ret true).
Proof.
  destruct (X4_validation_accepts_exactly_valid_graphs ["A"; "B"] pair_tasks) as [_ H].
  - apply pair_tasks_wf.
  - reflexivity.
  - apply H. split; [apply pair_tasks_acyclic|apply pair_tasks_closed].
Defined.

(** X5 on a task that depends on an undeclared [Z]. *)
Lemma X5_witness : "Z" ∉ task_names dangling_tasks.
Proof.
  destruct (X5_missing_dependency_error_names_the_first ["A"] dangling_tasks "A" "Z")
    as (pre & cfg & post & dpre & dpost & _ & _ & Hd & _).
  - vm_compute. reflexivity.
  - exact Hd.
Defined.

(** X6 on [pair_tasks], for the two orders of its names. *)
Lemma X6_witness :
  topological_sort ["A"; "B"] pair_tasks new_engine
  = topological_sort ["B"; "A"] pair_tasks new_engine.
Proof.
  destruct (X6_plan_does_not_depend_on_set_iteration_order no_watermarks still_clock
              no_sleep ["A"; "B"] ["B"; "A"] pair_tasks both_ok new_engine tt [])
    as [H _].
  - apply pair_tasks_acyclic.
  - reflexivity.
  - apply Permutation_swap.
  - exact H.
Defined.

(** X7 on [pair_tasks]: [B] gets index 2. *)
Lemma X7_witness :
  execution_order (set_execution_order new_engine (record_order 1 ["A"; "B"] ∅))
    !! "B" = Some 2.
Proof.
  destruct (X7_execution_order_is_the_one_based_position ["A"; "B"] pair_tasks
              new_engine ["A"; "B"]
              (set_execution_order new_engine (record_order 1 ["A"; "B"] ∅)))
    as (Hidx & _).
  - apply pair_tasks_wf.
  - reflexivity.
  - apply pair_tasks_sorted.
  - exact (Hidx 1%nat "B" eq_refl).
Defined.

(** X8 on [pair_tasks]. *)
Lemma X8_witness : ∃ rest, ["A"; "B"] = root_tasks pair_tasks ++ rest.
Proof.
  apply (X8_tasks_without_dependencies_come_first ["A"; "B"] pair_tasks new_engine
           ["A"; "B"]
           (set_execution_order new_engine (record_order 1 ["A"; "B"] ∅))).
  - apply pair_tasks_wf.
  - reflexivity.
  - apply pair_tasks_sorted.
Defined.

(** X9 on the run of [single_failing]. *)
Lemma X9_witness :
  ∃ out eng' w' tr',
    run_example ["A"] single_failing (<["A" := failing_executor]> ∅) new_engine
      = Some (out, eng', w', tr') ∧
    ∀ e, out = Raise e → ∃ msg, e = CriticalTaskFailure msg.
Proof.
  apply (X9_only_critical_task_failure_escapes no_watermarks still_clock no_sleep
           single_failing (<["A" := failing_executor]> ∅) ["A"] new_engine tt []).
  - apply single_failing_wf.
  - reflexivity.
Defined.

(** X10 for a task skipped because the watermark table shows nothing new. *)
Lemma X10_witness :
  run_task nothing_new still_clock no_sleep skippable_tasks
    (<["A" := ok_executor]> ∅) "A" (initial_state ["A"] new_engine tt [])
  = Some (Continue (with_skipped (initial_state ["A"] new_engine tt []) "A"
                      (Some "if_no_new_files"))).
Proof.
  destruct (X10_skipped_task_blocks_its_dependents nothing_new still_clock no_sleep
              skippable_tasks (<["A" := ok_executor]> ∅) "A"
              {| task_type := None; depends_on := []; critical := None;
                 max_retries := None; skip_on_condition := Some "if_no_new_files" |}
              (initial_state ["A"] new_engine tt [])) as [H _].
  - reflexivity.
  - reflexivity.
  - exact H.
Defined.

(** X12 on the run of [pair_tasks_noncritical] in which [A] fails. *)
Lemma X12_witness :
  match run_example ["A"; "B"] pair_tasks_noncritical
          (<["A" := failing_executor]> (<["B" := ok_executor]> ∅)) new_engine with
  | Some (Ret (Completed ok s), _, _, _) =>
      failed_tasks_list s `sublist_of` ["A"; "B"] ∧
      failed_tasks s = Z.of_nat (length (failed_tasks_list s))
  | _ => False
  end.
Proof.
  destruct (run_example ["A"; "B"] pair_tasks_noncritical
              (<["A" := failing_executor]> (<["B" := ok_executor]> ∅)) new_engine)
    as [[[[[[|ok s]|e] eng'] w'] tr']|] eqn:E;
    try (vm_compute in E; discriminate).
  destruct (X12_failed_list_of_a_completed_run _ _ _ _ _ _ _ _ _ _ _ _ _ _
              pair_tasks_noncritical_wf (reflexivity _) E)
    as (plan & eng1 & Hs & Hsub & Hf & _).
  assert (plan = ["A"; "B"]) as ->.
  { vm_compute in Hs. by injection Hs. }
  split; [exact Hsub|exact Hf].
Defined.

(** X13 on the run of [pair_tasks] with executors that return. *)
Lemma X13_witness :
  match run_example ["A"; "B"] pair_tasks both_ok new_engine with
  | Some (Ret (Completed true s), _, _, _) =>
      failed_tasks_list s = [] ∧ successful_tasks s + skipped_tasks s = 2
  | _ => False
  end.
Proof.
  destruct (run_example ["A"; "B"] pair_tasks both_ok new_engine)
    as [[[[[[|[] s]|e] eng'] w'] tr']|] eqn:E;
    try (vm_compute in E; discriminate).
  destruct (X13_summary_of_a_successful_run _ _ _ _ _ _ _ _ _ _ _ _ _
              pair_tasks_wf (reflexivity _) E) as (_ & Hl & Hs & _).
  split; [exact Hl|exact Hs].
Defined.

(** X14 on the run of [pair_tasks]: the success of [A] is logged before
    [B] is invoked. *)
Lemma X14_witness :
  ∃ rows, LogTaskSuccess "A" rows
            ∈ [LogTaskStart "A" "unknown" 1 1; Invoke "A";
               LogTaskSuccess "A" (PyInt 0); LogTaskStart "B" "unknown" 2 1].
Proof.
  destruct both_ok_run as (s & eng' & E).
  destruct (X14_executor_runs_after_its_dependencies_succeeded _ _ _ _ _ _ _ _ _ _
              _ _ _ E) as (new & Htr & Hdeps).
  simpl in Htr. subst new.
  destruct (Hdeps [LogTaskStart "A" "unknown" 1 1; Invoke "A";
                   LogTaskSuccess "A" (PyInt 0); LogTaskStart "B" "unknown" 2 1]
              [LogTaskSuccess "B" (PyInt 0); EndRun "SUCCESS" 2 0 0 ""]
              "B" (plain_task ["A"] None (Some 0)) "A") as [H|H].
  - reflexivity.
  - reflexivity.
  - left.
  - exact H.
  - vm_compute in H. discriminate.
Defined.

(** X15 on the run of [pair_tasks], whose tasks allow one attempt each. *)
Lemma X15_witness :
  invocations (both_ok_trace ++ [EndRun "SUCCESS" 2 0 0 ""]) `sublist_of` ["A"; "B"].
Proof.
  destruct both_ok_run as (s & eng' & E).
  destruct (X15_calls_follow_the_plan_within_the_retry_allowance _ _ _ _ _ _ _ _ _
              _ _ _ _ _ _ pair_tasks_sorted E) as (new & Htr & Hsub & _).
  simpl in Htr. subst new. exact Hsub.
Defined.

(** X16 on [pair_tasks] with executors that return. *)
Lemma X16_witness :
  ∃ s eng' w' new,
    run_example ["A"; "B"] pair_tasks both_ok new_engine
    = Some (Ret (Completed true s), eng', w',
            [] ++ new ++ [EndRun "SUCCESS" 2 0 0 ""]) ∧
    invocations new = ["A"; "B"].
Proof.
  destruct (X16_runnable_pipeline_succeeds_calling_each_task_once no_watermarks
              still_clock no_sleep pair_tasks both_ok ["A"; "B"] new_engine tt [])
    as (plan & eng1 & s & eng' & w' & new & Hs & Hrun & Hinv & _).
  - apply pair_tasks_wf.
  - reflexivity.
  - apply pair_tasks_acyclic.
  - apply pair_tasks_closed.
  - apply pair_tasks_runnable.
  - rewrite pair_tasks_sorted in Hs. injection Hs as <- _.
    exists s, eng', w', new. split; [exact Hrun|exact Hinv].
Defined.

(** X17 for an executor that always raises [boom]. *)
Lemma X17_witness :
  ∃ w0 e, failing_executor w0 = (Raise e, tt) ∧ "RuntimeError" = exc_type e.
Proof.
  assert (E : execute_task_with_retries still_clock no_sleep "A" (plain_task [] None None)
                failing_executor 2 new_engine tt []
              = Some (false, TaskFailed 3 "RuntimeError" "boom" "Traceback",
                      new_engine, tt,
                      [LogTaskStart "A" "unknown" 0 1; Invoke "A"; Sleep 1;
                       LogTaskStart "A" "unknown" 0 2; Invoke "A"; Sleep 2;
                       LogTaskStart "A" "unknown" 0 3; Invoke "A";
                       LogTaskFailure "A" boom "Traceback"])).
  { vm_compute. reflexivity. }
  destruct (X17_task_result_stems_from_the_last_call _ _ _ _ _ _ _ _ _ _ _ _ _ _ E)
    as (_ & _ & _ & w0 & e & Hex & Hty & _).
  by exists w0, e.
Defined.

(** X18 for a query that fails with an [AnalysisException]. *)
Lemma X18_witness :
  ∃ cause, "SQL execution failed: no such table"
           = "SQL execution failed: " +:+ exc_message cause.
Proof.
  assert (E : execute_task_with_retries still_clock no_sleep "A" (plain_task [] None (Some 0))
                (execute_sql failing_query some_traceback "SELECT 1") 0
                new_engine tt []
              = Some (false,
                      TaskFailed 1 "Exception" "SQL execution failed: no such table"
                        "Traceback",
                      new_engine, tt,
                      [LogTaskStart "A" "unknown" 0 1; Invoke "A";
                       LogTaskFailure "A"
                         (PyException "Exception" "SQL execution failed: no such table"
                            "Traceback") "Traceback"])).
  { vm_compute. reflexivity. }
  destruct (X18_sql_task_logs_no_rows_and_masks_the_error_type _ _ _ _ _ _ _ _ _ _
              _ _ _ _ _ _ E) as (_ & cause & new & Hmsg & _).
  by exists cause.
Defined.

(** X19 for a function that returns 7. *)
Lemma X19_witness :
  ∃ value, seven tt = (Ret value, tt) ∧ python_result (PyInt 7) = python_result value.
Proof.
  assert (E : execute_task_with_retries still_clock no_sleep "A" (plain_task [] None (Some 0))
                (execute_python some_traceback seven) 0 new_engine tt []
              = Some (true, TaskSuccess 1 0 (python_result (PyInt 7)),
                      set_execution_time new_engine "A" 0, tt,
                      [LogTaskStart "A" "unknown" 0 1; Invoke "A";
                       LogTaskSuccess "A" (PyInt 0)])).
  { rewrite (first_attempt_succeeds still_clock no_sleep "A" _ _ 0 new_engine tt []
               (python_result (PyInt 7)) tt); [|reflexivity|lia].
    by rewrite python_result_rows. }
  destruct (X19_python_task_logs_no_rows_and_masks_the_error_type _ _ _ _ _ _ _ _
              _ _ _ _ _ _ _ E) as (value & w0 & new & Hf & Hr & _).
  destruct w0. by exists value.
Defined.

(** X20 for a budget of two retries. *)
Lemma X20_witness :
  execute_task_with_retries still_clock no_sleep "A" (plain_task [] None None)
    (execute_notebook (λ w, w) "/pipelines/bronze" ∅) 2 new_engine tt []
  = Some (true, TaskSuccess 1 0 notebook_result, set_execution_time new_engine "A" 0,
          tt,
          [] ++ [LogTaskStart "A" (default "unknown" (task_type (plain_task [] None None)))
                   (default 0 (execution_order new_engine !! "A")) 1;
                 Invoke "A"; LogTaskSuccess "A" (PyInt 1000)]).
Proof.
  apply (X20_notebook_task_succeeds_at_once_with_1000_rows still_clock no_sleep
           (λ w, w) "A" (plain_task [] None None) "/pipelines/bronze" ∅ 2 new_engine tt []).
  lia.
Defined.

